(** * Polynomial-surface fit and variable-pitch mapping scripts

    A shallow embedding of the scripts

    - [A_1_Create_stl_polynomial_surface.py]  (module [A_1]),
    - [A_2_Create_a_variable_pitch_from_the_polynomial_surface.py]
      (module [A_2]),
    - the two computing functions of [scdm_script_tool/2.1 3DT Random.py]
      (module [Random3DT]) and
    - [B_2 Update Kz variation in mapping file.py]  (module [B_2]),

    followed by the properties of the specification that the first two
    decide, and by further properties of the four.

    Numbers.  Python floats and numpy [float64] entries are modelled by exact
    rationals ([Q]): unless it says otherwise, a statement below is about
    the arithmetic the scripts write down, not about binary rounding.
    Equality of numbers is [Qeq] ([==]); Python's [==], [<=], [>] are the
    boolean tests below.  Where rounding decides a property, the point
    generator and the interpolation are given a second time with the result
    of every operation passed through a rounding function, and module [B64]
    gives the rounding to the nearest binary64 number (ties to even,
    gradual underflow; overflow is not modelled).

    Arrays.  A one-dimensional numpy array is a [list Q]; elementwise
    operators are maps over lists.  The scripts only ever combine arrays of
    equal shape.

    Loops.  A [for] loop is a fold over its range; a [while] loop is a
    recursion on a bound [fuel] of the number of times its test is
    evaluated, and the termination statement shows that a large enough
    bound is never reached.

    Files.  A text file is the list of its lines; the file system of the
    mapping script is the record of the four files it names.  A call that
    creates a directory, opens a file for writing or exports the mesh either
    succeeds or ends the run with its failure.

    Library routines.  The least-squares solver, the square root, the
    [float()] parser, the formatting of floats (which raises on a format
    specification that is not valid), [round], [random.random], the path
    functions and the calls into the file system are not code of the
    repository: the functions that call them take them as section
    variables. *)

From Stdlib Require Import String Ascii List Bool Arith ZArith QArith Qabs Qround Lia Lqa.
From Stdlib Require Import Qpower.
From Stdlib Require Import DecimalString.
Import ListNotations.

Set Implicit Arguments.

(** ** The fragment of Python the scripts use *)

Module Py.

(** The exceptions a run of the scripts can end in. *)
Inductive exn : Type :=
| ValueError (msg : string)
| IndexError
| KeyError (key : string)
| TypeError
| LinAlgError.

(** The outcome of a call: a value, or the exception it raised. *)
Inductive result (A : Type) : Type :=
| Ok (a : A)
| Raise (e : exn).

Arguments Ok {A} a.
Arguments Raise {A} e.

Definition bind {A B : Type} (r : result A) (k : A -> result B) : result B :=
  match r with
  | Ok a => k a
  | Raise e => Raise e
  end.

(** [for a in l: body], threading the loop's variables [s] and stopping at
    the first exception. *)
Fixpoint for_each {A S : Type} (l : list A) (body : S -> A -> result S) (s : S)
  : result S :=
  match l with
  | [] => Ok s
  | a :: l' => bind (body s a) (for_each l' body)
  end.

(** [range(n)] for an integer [n]; a non-positive bound gives the empty
    range. *)
Definition range (n : Z) : list nat := seq 0 (Z.to_nat n).

(** [l[idx]] for [idx >= 0]. *)
Definition getitem {A : Type} (l : list A) (idx : nat) : result A :=
  match nth_error l idx with
  | Some a => Ok a
  | None => Raise IndexError
  end.

(** [l[-1]]. *)
Definition last_item {A : Type} (l : list A) : result A :=
  match rev l with
  | a :: _ => Ok a
  | [] => Raise IndexError
  end.

(** Comparisons of floats. *)
Definition leb (a b : Q) : bool := Qle_bool a b.
Definition ltb (a b : Q) : bool := negb (Qle_bool b a).
Definition eqb (a b : Q) : bool := Qeq_bool a b.

(** The builtin [min(a, b)]: [b] when [b < a], else [a]. *)
Definition min (a b : Q) : Q := if ltb b a then b else a.

End Py.

Declare Scope py_scope.
Delimit Scope py_scope with py.
Notation "x <- e ;; k" := (Py.bind e (fun x => k))
  (at level 61, e at next level, right associativity) : py_scope.
Notation "' p <- e ;; k" := (Py.bind e (fun x => let p := x in k))
  (at level 61, p pattern, e at next level, right associativity) : py_scope.

Import Py.

(** ** The fragment of numpy the scripts use *)

Module Np.

(** [x ** i] for an array [x] and an exponent [i >= 0]. *)
Definition power (x : list Q) (i : nat) : list Q :=
  map (fun a => Qpower a (Z.of_nat i)) x.

Fixpoint map2 (f : Q -> Q -> Q) (x y : list Q) : list Q :=
  match x, y with
  | a :: x', b :: y' => f a b :: map2 f x' y'
  | _, _ => []
  end.

(** [x * y], [x + y], [x - c], [x / c] and [c * x], elementwise.  For a
    zero divisor numpy returns [nan] or an infinity and raises nothing;
    these have no rational value, and [Qdiv] returns 0 there.  Where a
    statement below concerns a zero divisor it says so. *)
Definition mul (x y : list Q) : list Q := map2 Qmult x y.
Definition add (x y : list Q) : list Q := map2 Qplus x y.
Definition sub_scalar (x : list Q) (c : Q) : list Q := map (fun a => a - c)%Q x.
Definition div_scalar (x : list Q) (c : Q) : list Q := map (fun a => a / c)%Q x.
Definition scale (c : Q) (x : list Q) : list Q := map (Qmult c) x.

Definition zeros_like (x : list Q) : list Q := map (fun _ => 0%Q) x.

(** A two-dimensional array: its shape and its rows. *)
Record ndarray2 : Type := { shape : nat * nat; rows : list (list Q) }.

(** [np.vstack(terms)] of one-dimensional arrays of equal length. *)
Definition vstack (terms : list (list Q)) : result ndarray2 :=
  match terms with
  | [] => Raise (ValueError "need at least one array to concatenate")
  | t :: _ => Ok {| shape := (length terms, length t); rows := terms |}
  end.

(** [m.T]. *)
Definition T (m : ndarray2) : ndarray2 :=
  {| shape := (snd (shape m), fst (shape m));
     rows := map (fun n => map (fun r => nth n r 0%Q) (rows m))
                 (seq 0 (snd (shape m))) |}.

Definition sum (x : list Q) : Q := fold_left Qplus x 0%Q.

(** [x.mean()]. *)
Definition mean (x : list Q) : Q := (sum x / inject_Z (Z.of_nat (length x)))%Q.

(** The population variance, [mean(abs(x - x.mean())**2)]. *)
Definition var (x : list Q) : Q :=
  let d := sub_scalar x (mean x) in mean (mul d d).

(** [np.clip(v, lo, hi)], that is [minimum(hi, maximum(v, lo))]. *)
Definition maximum (a b : Q) : Q := if ltb a b then b else a.
Definition minimum (a b : Q) : Q := if ltb b a then b else a.
Definition clip (v lo hi : Q) : Q := minimum hi (maximum v lo).

(** What [np.asarray(v, float)] returns for a number (a zero-dimensional
    array) and for a flat list (a vector). *)
Inductive ndarray : Type :=
| Scalar0 (q : Q)
| Vector (l : list Q).

End Np.

(** ** More of Python: how a script ends, and the text it writes *)

Module Run.

(** How a run of a script ends badly: with one of the exceptions above,
    with the [FileNotFoundError] of [open] (and of line 160 of the mapping
    script), or with the [ZeroDivisionError] of a division of floats. *)
Inductive failure : Type :=
| Exception (e : exn)
| FileNotFoundError (msg : string)
| ZeroDivisionError.

Inductive outcome (A : Type) : Type :=
| Done (a : A)
| Failed (f : failure).

Arguments Done {A} a.
Arguments Failed {A} f.

(** [a / b] on floats. *)
Definition truediv (a b : Q) : outcome Q :=
  if eqb b 0 then Failed ZeroDivisionError else Done (a / b)%Q.

(** The line break that ends every line written, and the tabulator. *)
Definition newline : string := String "010"%char EmptyString.
Definition tab : string := String "009"%char EmptyString.

(** [str(n)] for a length [n]. *)
Definition py_str (n : nat) : string := NilEmpty.string_of_uint (Nat.to_uint n).

End Run.

(** ** Script 1: [A_1_Create_stl_polynomial_surface.py] *)

Module A_1.

Local Open Scope py_scope.

(** [build_design_matrix(x, y, order)]: one column per exponent pair, in
    the order the two nested loops visit them, stacked and transposed. *)
Definition build_design_matrix (x y : list Q) (order : Z) : result Np.ndarray2 :=
  let terms :=
    fold_left (fun terms i =>
      fold_left (fun terms j =>
                   terms ++ [Np.mul (Np.power x i) (Np.power y j)])
                (range (order + 1 - Z.of_nat i)) terms)
      (range (order + 1)) [] in
  m <- Np.vstack terms ;;
  Ok (Np.T m).

(** [evaluate_fitted_surface(coeffs, x, y, order)]: the loop variables are
    the accumulator [z] and the running coefficient index [idx]. *)
Definition evaluate_fitted_surface (coeffs x y : list Q) (order : Z)
  : result (list Q) :=
  let z := Np.zeros_like x in
  let idx := 0%nat in
  '(z, _) <-
    for_each (range (order + 1)) (fun '(z, idx) i =>
      for_each (range (order + 1 - Z.of_nat i)) (fun '(z, idx) j =>
        c <- getitem coeffs idx ;;
        Ok (Np.add z (Np.mul (Np.scale c (Np.power x i)) (Np.power y j)),
            (idx + 1)%nat))
        (z, idx))
      (z, idx) ;;
  Ok z.

(** The triangle list of lines 106-112: two faces per grid cell. *)
Definition face : Type := (nat * nat * nat)%type.

Definition grid_faces (res_x res_y : nat) : list face :=
  fold_left (fun faces i =>
    fold_left (fun faces j =>
                 let idx := (i * res_y + j)%nat in
                 (faces ++ [(idx, idx + 1, idx + res_y)])
                   ++ [(idx + 1, idx + res_y + 1, idx + res_y)])%nat
              (range (Z.of_nat res_y - 1)) faces)
    (range (Z.of_nat res_x - 1)) [].

(** The values a persisted model holds: an integer, a float, or a flat
    list of floats.  The model file is the JSON text of a [dict], kept
    here as the association list of its keys in insertion order. *)
Inductive json : Type :=
| JInt (n : Z)
| JFloat (q : Q)
| JArray (l : list Q).

Definition dict : Type := list (string * json).

(** The [model] dictionary of lines 117-128. *)
Definition model_dict (order : Z) (coeffs : list Q)
           (x_mean x_std y_mean y_std x_min x_max y_min y_max : Q) : dict :=
  [ ("order", JInt order);
    ("coeffs", JArray coeffs);
    ("x_mean", JFloat x_mean);
    ("x_std", JFloat x_std);
    ("y_mean", JFloat y_mean);
    ("y_std", JFloat y_std);
    ("x_min", JFloat x_min);
    ("x_max", JFloat x_max);
    ("y_min", JFloat y_min);
    ("y_max", JFloat y_max) ]%string.

(** What one run writes: the mesh handed to [trimesh] and the model
    handed to [json.dump]. *)
Record outputs : Type :=
  { vertices : list (Q * Q * Q);
    faces : list face;
    model : dict }.

(** [line.strip().split()]: the maximal runs of non-blank characters. *)
Definition isspace (c : ascii) : bool :=
  let n := nat_of_ascii c in
  ((9 <=? n) && (n <=? 13) || (28 <=? n) && (n <=? 32))%nat.

Fixpoint split_from (s tok : string) : list string :=
  match s with
  | EmptyString => if (String.length tok =? 0)%nat then [] else [tok]
  | String c s' =>
      if isspace c
      then if (String.length tok =? 0)%nat then split_from s' EmptyString
           else tok :: split_from s' EmptyString
      else split_from s' (tok ++ String c EmptyString)
  end.

Definition split (line : string) : list string := split_from line EmptyString.

Section Fit.

(** [float(s)]: [None] when Python raises [ValueError]. *)
Variable py_float : string -> option Q.
(** The square root behind [ndarray.std]. *)
Variable np_sqrt : Q -> Q.
(** [np.linalg.lstsq(a, b, rcond=None)[0]]. *)
Variable lstsq : Np.ndarray2 -> list Q -> result (list Q).

Definition to_float (s : string) : result Q :=
  match py_float s with
  | Some q => Ok q
  | None => Raise (ValueError "could not convert string to float")
  end.

(** Lines 83-86: drop the header line, keep the rows that split into at
    least three fields, convert the first three of each. *)
Definition read_points (file_lines : list string) : result (list (list Q)) :=
  let lines := tl file_lines in
  for_each lines (fun points line =>
    if (3 <=? length (split line))%nat
    then row <- for_each (firstn 3 (split line))
                         (fun row s => q <- to_float s ;; Ok (row ++ [q])) [] ;;
         Ok (points ++ [row])
    else Ok points) [].

(** [points[:, k]] of [np.array(points)]; an empty [points] is a
    one-dimensional array, and the slice raises. *)
Definition column (points : list (list Q)) (k : nat) : result (list Q) :=
  match points with
  | [] => Raise IndexError
  | _ => Ok (map (fun r => nth k r 0%Q) points)
  end.

Definition std (x : list Q) : Q := np_sqrt (Np.var x).

(** [np.linspace(a, b, num)] for [num >= 2]: the last sample is [b]. *)
Definition linspace (a b : Q) (num : nat) : list Q :=
  let step := ((b - a) / inject_Z (Z.of_nat (num - 1)))%Q in
  map (fun k => if (k =? num - 1)%nat then b
                else (a + inject_Z (Z.of_nat k) * step)%Q)
      (seq 0 num).

(** [x.min()] and [x.max()] of a non-empty array. *)
Definition amin (x : list Q) : Q :=
  fold_left (fun m a => if ltb a m then a else m) (tl x) (hd 0%Q x).
Definition amax (x : list Q) : Q :=
  fold_left (fun m a => if ltb m a then a else m) (tl x) (hd 0%Q x).

(** Lines 87-133, from the parsed rows on. *)
Definition fit_points (points : list (list Q)) (order : Z) : result outputs :=
  x_raw <- column points 0 ;;
  y_raw <- column points 1 ;;
  z <- column points 2 ;;
  let x_mean := Np.mean x_raw in
  let x_std := std x_raw in
  let y_mean := Np.mean y_raw in
  let y_std := std y_raw in
  let x := Np.div_scalar (Np.sub_scalar x_raw x_mean) x_std in
  let y := Np.div_scalar (Np.sub_scalar y_raw y_mean) y_std in
  X_design <- build_design_matrix x y order ;;
  coeffs <- lstsq X_design z ;;
  let x_grid_raw := linspace (amin x_raw) (amax x_raw) 100 in
  let y_grid_raw := linspace (amin y_raw) (amax y_raw) 100 in
  (* meshgrid, flattened row by row *)
  let xg_raw := flat_map (fun _ => x_grid_raw) y_grid_raw in
  let yg_raw := flat_map (fun b => map (fun _ => b) x_grid_raw) y_grid_raw in
  let xg := Np.div_scalar (Np.sub_scalar xg_raw x_mean) x_std in
  let yg := Np.div_scalar (Np.sub_scalar yg_raw y_mean) y_std in
  zg <- evaluate_fitted_surface coeffs xg yg order ;;
  let res_x := length y_grid_raw in
  let res_y := length x_grid_raw in
  Ok {| vertices := combine (combine xg_raw yg_raw) zg;
        faces := grid_faces res_x res_y;
        model := model_dict order coeffs x_mean x_std y_mean y_std
                            (amin x_raw) (amax x_raw) (amin y_raw) (amax y_raw) |}.

(** [create_polynomial_surface(input_file, output_stl, output_json,
    order)], on the lines of the input file. *)
Definition create_polynomial_surface (file_lines : list string) (order : Z)
  : result outputs :=
  points <- read_points file_lines ;;
  fit_points points order.

End Fit.

End A_1.

(** ** Script 2: [A_2_Create_a_variable_pitch_from_the_polynomial_surface.py] *)

Module A_2.

Import A_1.
Import Run.
Local Open Scope py_scope.
Local Open Scope Q_scope.

(** The configuration block. *)
Definition PITCH_X_START : Q := 2.
Definition PITCH_X_END : Q := 5.
Definition PITCH_Y : Q := 1.
Definition INCLUDE_EDGES : bool := true.
Definition X_MIN : option Q := None.
Definition X_MAX : option Q := None.
Definition Y_MIN : option Q := None.
Definition Y_MAX : option Q := None.

(** The two literals of [generate_points]: [1e-12] and [1e-9]. *)
Definition eps : Q := 1 # 1000000000000.
Definition tol : Q := 1 # 1000000000.

(** The exception of line 97, which the specification calls
    [InvalidPitchError]. *)
Definition InvalidPitchError : exn :=
  ValueError "All pitch values must be positive.".

(** [linear_pitch_x(x, x_min, x_max, p_start, p_end)]. *)
Definition linear_pitch_x (x x_min x_max p_start p_end : Q) : Q :=
  if eqb x_max x_min then p_start
  else
    let t := Np.clip ((x - x_min) / (x_max - x_min)) 0 1 in
    p_start * (1 - t) + p_end * t.

(** The loop of lines 101-103.  [fuel] bounds the number of times the
    loop test is evaluated; [None] means the bound was reached. *)
Fixpoint ys_loop (fuel : nat) (y_max p_y : Q) (y : Q) (ys : list Q)
  : option (list Q) :=
  match fuel with
  | O => None
  | S fuel' =>
      if leb y (y_max + eps)
      then ys_loop fuel' y_max p_y (y + p_y) (ys ++ [Py.min y y_max])
      else Some ys
  end.

(** The loop of lines 111-113. *)
Fixpoint row_loop (fuel : nat) (x_min x_max p_start p_end : Q) (x : Q)
         (row : list Q) : option (list Q) :=
  match fuel with
  | O => None
  | S fuel' =>
      if leb x (x_max + eps)
      then row_loop fuel' x_min x_max p_start p_end
                    (x + linear_pitch_x x x_min x_max p_start p_end)
                    (row ++ [Py.min x x_max])
      else Some row
  end.

(** Lines 104-105 and 114-115:
    [if include_edges and abs(l[-1] - hi) > 1e-9: l.append(hi)]. *)
Definition force_edge (include_edges : bool) (l : list Q) (hi : Q)
  : result (list Q) :=
  if include_edges
  then lst <- last_item l ;;
       if ltb tol (Qabs (lst - hi)) then Ok (l ++ [hi]) else Ok l
  else Ok l.

(** The loop of lines 108-117 over the row ordinates. *)
Fixpoint rows_loop (fuel : nat) (x_min x_max p_start p_end : Q)
         (include_edges : bool) (ys : list Q) (X_list Y_list : list Q)
  : option (result (list Q * list Q)) :=
  match ys with
  | [] => Some (Ok (X_list, Y_list))
  | yy :: ys' =>
      match row_loop fuel x_min x_max p_start p_end x_min [] with
      | None => None
      | Some row =>
          match force_edge include_edges row x_max with
          | Raise e => Some (Raise e)
          | Ok row =>
              rows_loop fuel x_min x_max p_start p_end include_edges ys'
                        (X_list ++ row) (Y_list ++ repeat yy (length row))
          end
      end
  end.

(** [generate_points(domain, p_start, p_end, p_y, include_edges)]. *)
Definition generate_points (fuel : nat) (domain : Q * Q * Q * Q)
           (p_start p_end p_y : Q) (include_edges : bool)
  : option (result (list Q * list Q)) :=
  let '(x_min, x_max, y_min, y_max) := domain in
  if leb p_start 0 || leb p_end 0 || leb p_y 0
  then Some (Raise InvalidPitchError)
  else
    match ys_loop fuel y_max p_y y_min [] with
    | None => None
    | Some ys =>
        match force_edge include_edges ys y_max with
        | Raise e => Some (Raise e)
        | Ok ys =>
            rows_loop fuel x_min x_max p_start p_end include_edges ys [] []
        end
    end.

(** [eval_poly2d(coeffs, x_norm, y_norm, order)]. *)
Definition eval_poly2d (coeffs x_norm y_norm : list Q) (order : Z)
  : result (list Q) :=
  let z := Np.zeros_like x_norm in
  let idx := 0%nat in
  '(z, _) <-
    for_each (range (order + 1)) (fun '(z, idx) i =>
      for_each (range (order + 1 - Z.of_nat i)) (fun '(z, idx) j =>
        c <- getitem coeffs idx ;;
        Ok (Np.add z (Np.mul (Np.scale c (Np.power x_norm i))
                             (Np.power y_norm j)),
            (idx + 1)%nat))
        (z, idx))
      (z, idx) ;;
  Ok z.

(** [model[key]]. *)
Fixpoint lookup (d : dict) (key : string) : result json :=
  match d with
  | [] => Raise (KeyError key)
  | (k, v) :: d' => if String.eqb k key then Ok v else lookup d' key
  end.

(** [int(v)], [float(v)] and [np.asarray(v, float)] on a loaded value. *)
Definition py_int (v : json) : result Z :=
  match v with
  | JInt n => Ok n
  | JFloat q => Ok (Z.quot (Qnum q) (Zpos (Qden q)))
  | JArray _ => Raise TypeError
  end.

Definition py_float (v : json) : result Q :=
  match v with
  | JInt n => Ok (inject_Z n)
  | JFloat q => Ok q
  | JArray _ => Raise TypeError
  end.

Definition asarray (v : json) : Np.ndarray :=
  match v with
  | JInt n => Np.Scalar0 (inject_Z n)
  | JFloat q => Np.Scalar0 q
  | JArray l => Np.Vector l
  end.

(** [c or e]: [c] when it is set and non-zero, else [e]. *)
Definition py_or (c : option Q) (e : result Q) : result Q :=
  match c with
  | Some q => if eqb q 0 then e else Ok q
  | None => e
  end.

(** The model as [main] holds it after lines 167-178. *)
Record loaded : Type :=
  { order : Z;
    coeffs : Np.ndarray;
    x_mean : Q; x_std : Q;
    y_mean : Q; y_std : Q;
    x_min : Q; x_max : Q;
    y_min : Q; y_max : Q }.

(** Lines 170-178 of [main], on the dictionary [json.load] returned. *)
Definition load_model (model : dict) : result loaded :=
  order <- (v <- lookup model "order" ;; py_int v) ;;
  coeffs <- (v <- lookup model "coeffs" ;; Ok (asarray v)) ;;
  x_mean <- (v <- lookup model "x_mean" ;; py_float v) ;;
  x_std <- (v <- lookup model "x_std" ;; py_float v) ;;
  y_mean <- (v <- lookup model "y_mean" ;; py_float v) ;;
  y_std <- (v <- lookup model "y_std" ;; py_float v) ;;
  x_min <- py_or X_MIN (v <- lookup model "x_min" ;; py_float v) ;;
  x_max <- py_or X_MAX (v <- lookup model "x_max" ;; py_float v) ;;
  y_min <- py_or Y_MIN (v <- lookup model "y_min" ;; py_float v) ;;
  y_max <- py_or Y_MAX (v <- lookup model "y_max" ;; py_float v) ;;
  Ok {| order := order; coeffs := coeffs;
        x_mean := x_mean; x_std := x_std;
        y_mean := y_mean; y_std := y_std;
        x_min := x_min; x_max := x_max;
        y_min := y_min; y_max := y_max |}.

(** The rest of the configuration block: the paths, the nine constants
    that end every row, and the format of the coordinates. *)
Definition MODEL_JSON : string :=
  "C:\Users\amarin\OneDrive - ANSYS, Inc\Articules and Trainings ACE\3D Texture - Light Guide\#2. Variable pitch\FittedSurface_Model.json".
Definition OUTPUT_MAPPING : string :=
  "C:\Users\amarin\OneDrive - ANSYS, Inc\Articules and Trainings ACE\3D Texture - Light Guide\#2. Variable pitch\VariablePitch.OPT3DMapping".
Definition INPUT_MAPPING : string :=
  "C:\Users\amarin\OneDrive - ANSYS, Inc\Articules and Trainings ACE\3D Texture - Light Guide\#2. Variable pitch\TL L.3D Texture.2.OPT3DMapping".
Definition OUTPUT_STL : string :=
  "C:\Users\amarin\OneDrive - ANSYS, Inc\Articules and Trainings ACE\3D Texture - Light Guide\#2. Variable pitch\FittedSurface_Global_HighQuality.stl".

Definition EXTRA_CONSTANTS : list string :=
  [ "1"; "0"; "0"; "0"; "1"; "0"; "0.5"; "0.5"; "1" ]%string.
Definition FLOAT_FMT : string := ".6f".

(** [zip(X, Y, Z)]: it stops with the shortest of the three. *)
Fixpoint zip3 (X Y Z : list Q) : list (Q * Q * Q) :=
  match X, Y, Z with
  | x :: X', y :: Y', z :: Z' => (x, y, z) :: zip3 X' Y' Z'
  | _, _, _ => []
  end.

(** [coeffs[idx]] reads an entry of a vector; a zero-dimensional array has
    none, and indexing it raises [IndexError]. *)
Definition indexable (a : Np.ndarray) : list Q :=
  match a with
  | Np.Scalar0 _ => []
  | Np.Vector l => l
  end.

(** The files of the configuration block, each with its content when it
    exists.  A text file is the list of its lines, line break included, as
    [readlines] returns them and as the calls of [f.write] produce them (one
    line per call, as long as no field holds a line break). *)
Record files : Type :=
  { model_json : option dict;
    input_mapping : option (list string);
    output_stl : option (list (Q * Q * Q) * list face);
    output_mapping : option (list string) }.

Section Script.

(** [("{:" + float_fmt + "}").format(v)]: the text, or the exception
    Python raises (a [ValueError] for a format specification that is not
    valid for a float). *)
Variable format_float : string -> Q -> result string.
(** [os.path.dirname], and the two calls that touch the file system:
    [os.makedirs(d, exist_ok=True)] and [open(path, "w")], each with the
    failure it ends in, if any. *)
Variable dirname : string -> string.
Variable makedirs : string -> option failure.
Variable open_w : string -> option failure.
(** [mesh.export(path)] of [trimesh]. *)
Variable export_mesh : string -> option failure.
(** The three library routines of the fitting script. *)
Variable parse_float : string -> option Q.
Variable np_sqrt : Q -> Q.
Variable lstsq : Np.ndarray2 -> list Q -> result (list Q).

(** The loop of lines 148-150 on the lines [f] written so far: the three
    coordinates are formatted from left to right, and the first exception
    ends the loop with the file as it is. *)
Fixpoint write_rows (ffmt : Q -> result string) (extra_constants : list string)
         (rows : list (Q * Q * Q)) (f : list string)
  : list string * outcome unit :=
  match rows with
  | [] => (f, Done tt)
  | (x, y, z) :: rows' =>
      match ffmt x with
      | Raise e => (f, Failed (Exception e))
      | Ok sx =>
          match ffmt y with
          | Raise e => (f, Failed (Exception e))
          | Ok sy =>
              match ffmt z with
              | Raise e => (f, Failed (Exception e))
              | Ok sz =>
                  let formatted_values :=
                    String.concat " " ([sx; sy; sz] ++ extra_constants) in
                  write_rows ffmt extra_constants rows'
                             (f ++ [(formatted_values ++ newline)%string])
              end
          end
      end
  end.

(** [write_opt3d_mapping(path, X, Y, Z, extra_constants, float_fmt)]: the
    lines of the file [path] if the call opened it ([None] if it did not
    touch it), and how the call ended. *)
Definition write_opt3d_mapping (path : string) (X Y Z : list Q)
           (extra_constants : list string) (float_fmt : string)
  : option (list string) * outcome unit :=
  if negb (length extra_constants =? 9)%nat
  then (None,
        Failed (Exception (ValueError "Exactly 9 extra constants are required.")))
  else
    let n := length X in
    match makedirs (dirname path) with
    | Some f => (None, Failed f)
    | None =>
        let ffmt := format_float float_fmt in
        match open_w path with
        | Some f => (None, Failed f)
        | None =>
            let '(f, r) := write_rows ffmt extra_constants (zip3 X Y Z)
                                      [(py_str n ++ newline)%string] in
            (Some f, r)
        end
    end.

(** [ensure_model_json()]: the files after the call, and how it ended.
    The fit runs with its default order 5; of its effects on the files, the
    mesh is exported first, then the directory of the model is made and the
    model written. *)
Definition ensure_model_json (fs : files) : files * outcome unit :=
  match model_json fs with
  | Some _ => (fs, Done tt)
  | None =>
      match input_mapping fs with
      | None => (fs, Failed (FileNotFoundError INPUT_MAPPING))
      | Some file_lines =>
          match create_polynomial_surface parse_float np_sqrt lstsq
                                          file_lines 5 with
          | Raise e => (fs, Failed (Exception e))
          | Ok out =>
              match export_mesh OUTPUT_STL with
              | Some f => (fs, Failed f)
              | None =>
                  let fs := {| model_json := model_json fs;
                               input_mapping := input_mapping fs;
                               output_stl := Some (vertices out, faces out);
                               output_mapping := output_mapping fs |} in
                  match makedirs (dirname MODEL_JSON) with
                  | Some f => (fs, Failed f)
                  | None =>
                      match open_w MODEL_JSON with
                      | Some f => (fs, Failed f)
                      | None =>
                          let fs := {| model_json := Some (model out);
                                       input_mapping := input_mapping fs;
                                       output_stl := output_stl fs;
                                       output_mapping := output_mapping fs |} in
                          match model_json fs with
                          | Some _ => (fs, Done tt)
                          | None =>
                              (fs, Failed (FileNotFoundError
                                             ("Model JSON not generated: "
                                                ++ MODEL_JSON)%string))
                          end
                      end
                  end
              end
          end
      end
  end.

(** [main()]: the files after the run, and how it ended.  [fuel] bounds
    the loops of [generate_points]. *)
Definition main (fuel : nat) (fs : files) : option (files * outcome unit) :=
  match ensure_model_json fs with
  | (fs, Failed f) => Some (fs, Failed f)
  | (fs, Done _) =>
      match model_json fs with
      | None => Some (fs, Failed (FileNotFoundError MODEL_JSON))
      | Some model =>
          match load_model model with
          | Raise e => Some (fs, Failed (Exception e))
          | Ok m =>
              match generate_points fuel
                                    (x_min m, x_max m, y_min m, y_max m)
                                    PITCH_X_START PITCH_X_END PITCH_Y
                                    INCLUDE_EDGES with
              | None => None
              | Some (Raise e) => Some (fs, Failed (Exception e))
              | Some (Ok (X_pts, Y_pts)) =>
                  let x_norm :=
                    Np.div_scalar (Np.sub_scalar X_pts (x_mean m)) (x_std m) in
                  let y_norm :=
                    Np.div_scalar (Np.sub_scalar Y_pts (y_mean m)) (y_std m) in
                  match eval_poly2d (indexable (coeffs m)) x_norm y_norm
                                    (order m) with
                  | Raise e => Some (fs, Failed (Exception e))
                  | Ok Z_pts =>
                      match write_opt3d_mapping OUTPUT_MAPPING X_pts Y_pts Z_pts
                                                EXTRA_CONSTANTS FLOAT_FMT with
                      | (None, r) => Some (fs, r)
                      | (Some text, r) =>
                          Some ({| model_json := model_json fs;
                                   input_mapping := input_mapping fs;
                                   output_stl := output_stl fs;
                                   output_mapping := Some text |}, r)
                      end
                  end
              end
          end
      end
  end.

End Script.

(** *** The point generator with rounded arithmetic

    The same statements as above with the result of every arithmetic
    operation passed through a rounding [fl] to the format of the floats, and
    the two literals [1e-12] and [1e-9] rounded as well; comparisons, [min],
    [abs] and [np.clip] are exact on floats.  With the identity for [fl]
    these are the definitions above. *)

Section Rounded.

Variable fl : Q -> Q.

Definition linear_pitch_x_fl (x x_min x_max p_start p_end : Q) : Q :=
  if eqb x_max x_min then p_start
  else
    let t := Np.clip (fl (fl (x - x_min) / fl (x_max - x_min))) 0 1 in
    fl (fl (p_start * fl (1 - t)) + fl (p_end * t)).

Fixpoint ys_loop_fl (fuel : nat) (y_max p_y : Q) (y : Q) (ys : list Q)
  : option (list Q) :=
  match fuel with
  | O => None
  | S fuel' =>
      if leb y (fl (y_max + fl eps))
      then ys_loop_fl fuel' y_max p_y (fl (y + p_y)) (ys ++ [Py.min y y_max])
      else Some ys
  end.

Fixpoint row_loop_fl (fuel : nat) (x_min x_max p_start p_end : Q) (x : Q)
         (row : list Q) : option (list Q) :=
  match fuel with
  | O => None
  | S fuel' =>
      if leb x (fl (x_max + fl eps))
      then row_loop_fl fuel' x_min x_max p_start p_end
                       (fl (x + linear_pitch_x_fl x x_min x_max p_start p_end))
                       (row ++ [Py.min x x_max])
      else Some row
  end.

Definition force_edge_fl (include_edges : bool) (l : list Q) (hi : Q)
  : result (list Q) :=
  if include_edges
  then lst <- last_item l ;;
       if ltb (fl tol) (Qabs (fl (lst - hi))) then Ok (l ++ [hi]) else Ok l
  else Ok l.

Fixpoint rows_loop_fl (fuel : nat) (x_min x_max p_start p_end : Q)
         (include_edges : bool) (ys : list Q) (X_list Y_list : list Q)
  : option (result (list Q * list Q)) :=
  match ys with
  | [] => Some (Ok (X_list, Y_list))
  | yy :: ys' =>
      match row_loop_fl fuel x_min x_max p_start p_end x_min [] with
      | None => None
      | Some row =>
          match force_edge_fl include_edges row x_max with
          | Raise e => Some (Raise e)
          | Ok row =>
              rows_loop_fl fuel x_min x_max p_start p_end include_edges ys'
                           (X_list ++ row) (Y_list ++ repeat yy (length row))
          end
      end
  end.

Definition generate_points_fl (fuel : nat) (domain : Q * Q * Q * Q)
           (p_start p_end p_y : Q) (include_edges : bool)
  : option (result (list Q * list Q)) :=
  let '(x_min, x_max, y_min, y_max) := domain in
  if leb p_start 0 || leb p_end 0 || leb p_y 0
  then Some (Raise InvalidPitchError)
  else
    match ys_loop_fl fuel y_max p_y y_min [] with
    | None => None
    | Some ys =>
        match force_edge_fl include_edges ys y_max with
        | Raise e => Some (Raise e)
        | Ok ys =>
            rows_loop_fl fuel x_min x_max p_start p_end include_edges ys [] []
        end
    end.

End Rounded.

End A_2.

(** ** Script 3: [scdm_script_tool/2.1 3DT Random.py]

    The two functions of the script that compute: the interpolation of the
    removal probability and the filter of the mapping file.  The dialogs
    and the calls into the host application are not modelled. *)

Module Random3DT.

Import A_1.
Import Run.
Local Open Scope Q_scope.

(** The loop of [interpolate_probability] over the segment indices;
    [None] when it ends without returning. *)
Fixpoint interpolate_loop (x_norm : Q) (control_points : list (Q * Q))
         (indices : list nat) : option (outcome Q) :=
  match indices with
  | [] => None
  | i :: indices' =>
      match getitem control_points i with
      | Raise e => Some (Failed (Exception e))
      | Ok (x0, p0) =>
          match getitem control_points (i + 1) with
          | Raise e => Some (Failed (Exception e))
          | Ok (x1, p1) =>
              if leb x0 x_norm && leb x_norm x1
              then Some (match truediv (x_norm - x0) (x1 - x0) with
                         | Failed f => Failed f
                         | Done t => Done (p0 + (p1 - p0) * t)
                         end)
              else interpolate_loop x_norm control_points indices'
          end
      end
  end.

(** [interpolate_probability(x_norm, control_points)]. *)
Definition interpolate_probability (x_norm : Q) (control_points : list (Q * Q))
  : outcome Q :=
  match interpolate_loop x_norm control_points
                         (range (Z.of_nat (length control_points) - 1)) with
  | Some r => r
  | None =>
      match last_item control_points with
      | Ok (_, p) => Done p
      | Raise e => Failed (Exception e)
      end
  end.

(** *** The interpolation with rounded arithmetic

    The same two definitions with the result of every arithmetic operation
    passed through a rounding [fl] to the format of the floats; the
    comparisons are exact on floats. *)

Section Rounded.

Variable fl : Q -> Q.

Fixpoint interpolate_loop_fl (x_norm : Q) (control_points : list (Q * Q))
         (indices : list nat) : option (outcome Q) :=
  match indices with
  | [] => None
  | i :: indices' =>
      match getitem control_points i with
      | Raise e => Some (Failed (Exception e))
      | Ok (x0, p0) =>
          match getitem control_points (i + 1) with
          | Raise e => Some (Failed (Exception e))
          | Ok (x1, p1) =>
              if leb x0 x_norm && leb x_norm x1
              then Some (match truediv (fl (x_norm - x0)) (fl (x1 - x0)) with
                         | Failed f => Failed f
                         | Done t => Done (fl (p0 + fl (fl (p1 - p0) * fl t)))
                         end)
              else interpolate_loop_fl x_norm control_points indices'
          end
      end
  end.

Definition interpolate_probability_fl (x_norm : Q)
           (control_points : list (Q * Q)) : outcome Q :=
  match interpolate_loop_fl x_norm control_points
                            (range (Z.of_nat (length control_points) - 1)) with
  | Some r => r
  | None =>
      match last_item control_points with
      | Ok (_, p) => Done p
      | Raise e => Failed (Exception e)
      end
  end.

End Rounded.

(** What [process_mapping_file] writes: the name of the new file and its
    lines. *)
Record written : Type :=
  { output_file : string;
    content : list string }.

Section Filter.

(** [float(s)]: [None] when Python raises [ValueError]. *)
Variable parse_float : string -> option Q.
(** The successive values of [random.random()]. *)
Variable random : nat -> Q.
(** [("{:" + spec + "}").format(v)], [os.path.dirname] and
    [os.path.join]. *)
Variable format_float : string -> Q -> string.
Variable dirname : string -> string.
Variable path_join : string -> string -> string.

(** The parsing loop: the abscissa of each line, with the line. *)
Fixpoint parse_loop (data_lines : list string) (parsed : list (Q * string))
  : outcome (list (Q * string)) :=
  match data_lines with
  | [] => Done parsed
  | line :: data_lines' =>
      let parts := split line in
      match getitem parts 0 with
      | Raise e => Failed (Exception e)
      | Ok s =>
          match parse_float s with
          | None =>
              Failed (Exception (ValueError "could not convert string to float"))
          | Some x => parse_loop data_lines' (parsed ++ [(x, line)])
          end
      end
  end.

(** The builtin [max] of a list. *)
Definition py_max (l : list Q) : outcome Q :=
  match l with
  | [] => Failed (Exception (ValueError "max() arg is an empty sequence"))
  | _ => Done (amax l)
  end.

(** The filtering loop.  [n] is the number of values drawn from
    [random.random()] so far. *)
Fixpoint filter_loop (control_points : list (Q * Q)) (x_max : Q)
         (parsed : list (Q * string)) (n : nat) (filtered_lines : list string)
  : outcome (list string * nat) :=
  match parsed with
  | [] => Done (filtered_lines, n)
  | (x, line) :: parsed' =>
      match truediv x x_max with
      | Failed f => Failed f
      | Done x_norm =>
          match interpolate_probability x_norm control_points with
          | Failed f => Failed f
          | Done p =>
              if leb p (random n)
              then filter_loop control_points x_max parsed' (S n)
                               (filtered_lines ++ [line])
              else filter_loop control_points x_max parsed' (S n)
                               filtered_lines
          end
      end
  end.

(** [process_mapping_file(input_file, control_points, master_name)], on
    the lines of the input file, from the [n]-th random value on. *)
Definition process_mapping_file (input_file : string) (lines : list string)
           (control_points : list (Q * Q)) (master_name : string) (n : nat)
  : outcome (written * nat) :=
  let data_lines := tl lines in
  match parse_loop data_lines [] with
  | Failed f => Failed f
  | Done parsed =>
      match py_max (map fst parsed) with
      | Failed f => Failed f
      | Done x_max =>
          match filter_loop control_points x_max parsed n [] with
          | Failed f => Failed f
          | Done (filtered_lines, n) =>
              let new_count := length filtered_lines in
              let points_str :=
                String.concat "_"
                  (map (fun '(x, p) =>
                          ("p" ++ format_float ".1f" p ++ "-"
                               ++ format_float ".1f" (x * 100))%string)
                       control_points) in
              let output_file :=
                path_join (dirname input_file)
                          (master_name ++ "_" ++ points_str
                                       ++ ".OPT3DMapping")%string in
              Done ({| output_file := output_file;
                       content := (py_str new_count ++ newline)%string
                                    :: filtered_lines |}, n)
          end
      end
  end.

End Filter.

End Random3DT.

(** ** Script 4: [B_2 Update Kz variation in mapping file.py]

    The script is one sequence of statements; [script] is that sequence,
    from the lines read from the input file to the lines written to the
    output file. *)

Module B_2.

Import A_1.
Import Run.
Local Open Scope py_scope.
Local Open Scope Q_scope.

(** The parameters: the value at the smallest and at the largest x. *)
Definition K_Z_1 : Q := 1 # 2.
Definition K_Z_2 : Q := 1 # 10.

(** [s.strip()]: [s] without its leading and trailing blanks. *)
Fixpoint lstrip (s : string) : string :=
  match s with
  | EmptyString => EmptyString
  | String c s' => if isspace c then lstrip s' else s
  end.

Fixpoint rstrip (s : string) : string :=
  match s with
  | EmptyString => EmptyString
  | String c s' =>
      match rstrip s' with
      | EmptyString => if isspace c then EmptyString else String c EmptyString
      | r => String c r
      end
  end.

Definition strip (s : string) : string := rstrip (lstrip s).

(** The builtins [min] and [max] of a list. *)
Definition py_min (l : list Q) : result Q :=
  match l with
  | [] => Raise (ValueError "min() arg is an empty sequence")
  | _ => Ok (amin l)
  end.

Definition py_max (l : list Q) : result Q :=
  match l with
  | [] => Raise (ValueError "max() arg is an empty sequence")
  | _ => Ok (amax l)
  end.

(** [row[-1] = v]. *)
Definition set_last (row : list Q) (v : Q) : result (list Q) :=
  match row with
  | [] => Raise IndexError
  | _ => Ok (removelast row ++ [v])
  end.

Section Script.

(** [float(s)], [round(v, 6)] and [str(v)]. *)
Variable parse_float : string -> option Q.
Variable round6 : Q -> Q.
Variable str_float : Q -> string.

Definition script (lines : list string) : result (list string) :=
  l0 <- getitem lines 0 ;;
  let header := strip l0 in
  let data_lines :=
    map strip
        (filter (fun line => negb (String.eqb (strip line) EmptyString))
                (tl lines)) in
  data <- for_each data_lines (fun data line =>
            row <- for_each (split line)
                            (fun row s => q <- to_float parse_float s ;;
                                          Ok (row ++ [q])) [] ;;
            Ok (data ++ [row])) [] ;;
  x_values <- for_each data (fun x_values row =>
                x <- getitem row 0 ;; Ok (x_values ++ [x])) [] ;;
  x_min <- py_min x_values ;;
  x_max <- py_max x_values ;;
  if eqb x_max x_min
  then Raise (ValueError "All X values are identical. Cannot interpolate.")
  else
    data <- for_each data (fun data row =>
              x <- getitem row 0 ;;
              let t := (x - x_min) / (x_max - x_min) in
              let new_value := K_Z_1 + (K_Z_2 - K_Z_1) * t in
              row <- set_last row (round6 new_value) ;;
              Ok (data ++ [row])) [] ;;
    Ok ((header ++ newline)%string
          :: map (fun row =>
                    (String.concat tab (map str_float row) ++ newline)%string)
                 data).

End Script.

End B_2.

(** ** Library routines for running the scripts on examples

    Executable stand-ins for the three routines the fitting script takes
    from Python and numpy.  Each is exact on the inputs it accepts; the
    general statements below hold for every choice of the routines. *)

Module Lib.

Local Open Scope Q_scope.

Definition digit (c : ascii) : option Z :=
  let n := nat_of_ascii c in
  if ((48 <=? n) && (n <=? 57))%nat then Some (Z.of_nat (n - 48)) else None.

(** The value [acc * 10^k + d1...dk] of a run of [k] digits. *)
Fixpoint digits (s : string) (acc : Z) : option Z :=
  match s with
  | EmptyString => Some acc
  | String c s' =>
      match digit c with
      | Some d => digits s' (10 * acc + d)%Z
      | None => None
      end
  end.

(** A stand-in for [float(s)]: exact on the plain literals [ddd] and
    [-ddd], and rejecting every other string (Python accepts more). *)
Definition float_of_decimal (s : string) : option Q :=
  match s with
  | EmptyString => None
  | String "-" (String c s') =>
      option_map (fun n => inject_Z (- n)) (digits (String c s') 0)
  | _ => option_map inject_Z (digits s 0)
  end.

(** The square root of a rational whose reduced numerator and denominator
    are perfect squares (the integer square roots otherwise). *)
Definition sqrt_exact (q : Q) : Q :=
  let r := Qred q in Z.sqrt (Qnum r) # Pos.sqrt (Qden r).

(** Least squares for a one-column system [a * c = b]: the normal
    equation gives [c = (a . b) / (a . a)].  Other shapes are not
    implemented. *)
Definition lstsq_one_column (a : Np.ndarray2) (b : list Q) : result (list Q) :=
  if (snd (Np.shape a) =? 1)%nat
  then let col := map (fun r => nth 0 r 0) (Np.rows a) in
       Ok [ Np.sum (Np.mul col b) / Np.sum (Np.mul col col) ]
  else Raise LinAlgError.

(** The integer nearest to [q], a tie going to the even neighbour. *)
Definition round_half_even (q : Q) : Z :=
  let f := Qfloor q in
  match Qcompare (q - inject_Z f) (1 # 2) with
  | Lt => f
  | Gt => (f + 1)%Z
  | Eq => if Z.even f then f else (f + 1)%Z
  end.

(** The decimal digits of a natural number. *)
Definition decimal (n : Z) : string :=
  NilEmpty.string_of_uint (N.to_uint (Z.to_N n)).

Definition pad6 (s : string) : string :=
  (string_of_list_ascii (repeat "0"%char (6 - String.length s)) ++ s)%string.

(** A stand-in for the formatting of a float: exact for the specification
    [.6f] (sign, integer part, point, six decimals of the value rounded to
    the nearest millionth); every other specification gives the empty
    string (Python implements many more). *)
Definition format_fixed (float_fmt : string) (q : Q) : string :=
  if String.eqb float_fmt ".6f"
  then let n := round_half_even (Qabs q * 1000000) in
       ((if Qlt_le_dec q 0 then "-" else EmptyString)
          ++ decimal (n / 1000000) ++ "." ++ pad6 (decimal (n mod 1000000)))%string
  else EmptyString.

(** The text before the first point of [s], and the text after it. *)
Fixpoint split_point (s acc : string) : string * option string :=
  match s with
  | EmptyString => (acc, None)
  | String c s' =>
      if Ascii.eqb c "."%char then (acc, Some s')
      else split_point s' (acc ++ String c EmptyString)%string
  end.

(** A stand-in for [float(s)] on fixed-point literals: exact on [ddd],
    [ddd.ddd] and their negatives, rejecting every other string. *)
Definition float_of_fixed (s : string) : option Q :=
  let '(sign, body) :=
    match s with
    | String "-" s' => ((-1)%Z, s')
    | _ => (1%Z, s)
    end in
  let '(i, f) := split_point body EmptyString in
  match i with
  | EmptyString => None
  | _ =>
      match digits i 0, f with
      | Some a, None => Some (inject_Z (sign * a))
      | Some a, Some f =>
          match digits f 0 with
          | Some b =>
              Some (inject_Z sign
                    * (inject_Z a
                       + inject_Z b / inject_Z (10 ^ Z.of_nat (String.length f))))
          | None => None
          end
      | None, _ => None
      end
  end.

(** Least squares for a zero right-hand side: the solution of least norm
    is the zero vector.  Other systems are not implemented. *)
Definition lstsq_zero_rhs (a : Np.ndarray2) (b : list Q) : result (list Q) :=
  if forallb (fun v => Qeq_bool v 0) b
  then Ok (repeat 0 (snd (Np.shape a)))
  else Raise LinAlgError.

(** A stand-in for [round(v, 6)]: the nearest multiple of a millionth, a
    tie going to the even one. *)
Definition round6 (q : Q) : Q :=
  Qred (inject_Z (round_half_even (q * 1000000)) / 1000000).

(** [s] without its trailing zeros, one digit being kept after the point. *)
Fixpoint strip_zeros (s : string) : string :=
  match s with
  | EmptyString => EmptyString
  | String c s' =>
      match strip_zeros s' with
      | EmptyString =>
          if Ascii.eqb c "0"%char then EmptyString else String c EmptyString
      | r => String c r
      end
  end.

(** A stand-in for [str(v)] of a float: exact on the values with at most
    six decimals (the values [round(v, 6)] returns); the empty string on
    every other value. *)
Definition str_float (q : Q) : string :=
  if Qeq_bool (round6 q) q
  then match split_point (format_fixed ".6f" q) EmptyString with
       | (i, Some f) =>
           (i ++ "."
              ++ match strip_zeros f with
                 | EmptyString => "0"
                 | d => d
                 end)%string
       | (i, None) => i
       end
  else EmptyString.

(** A stand-in for the formatting of a float that can fail: [.6f] is
    formatted as above, and for every other specification the stand-in
    raises, as Python does for one that is not valid. *)
Definition format_float (float_fmt : string) (q : Q) : result string :=
  if String.eqb float_fmt ".6f"
  then Ok (format_fixed float_fmt q)
  else Raise (ValueError "Invalid format specifier").

End Lib.

(** ** Binary64 rounding

    The value of a real number rounded to the nearest [float64], a tie
    going to the even significand: 53 significant bits, subnormal numbers
    below [2^-1022].  Overflow to an infinity is not modelled: the rounding
    is that of IEEE 754 for results of magnitude below [2^1024]. *)

Module B64.

Local Open Scope Q_scope.

(** [2^e] for an integer [e] of either sign. *)
Definition pow2 (e : Z) : Q := Qpower 2 e.

(** The exponent [l] with [2^l <= a < 2^(l+1)], for [a > 0]. *)
Definition ilog2 (a : Q) : Z :=
  let l := (Z.log2 (Qnum a) - Z.log2 (Zpos (Qden a)))%Z in
  if Qle_bool (pow2 l) a then l else (l - 1)%Z.

Definition round (q : Q) : Q :=
  let r := Qred q in
  if Qeq_bool r 0 then 0
  else
    let a := Qabs r in
    let e := Z.max (ilog2 a - 52) (-1074) in
    let m := Lib.round_half_even (a * pow2 (- e)) in
    let v := Qred (inject_Z m * pow2 e) in
    if Qle_bool 0 r then v else - v.

(** [ndarray.mean] and [ndarray.var] of an array of fewer than eight
    entries with every operation rounded: the sum runs from left to right,
    the variance is the mean of the squared deviations from the mean. *)
Definition sum (x : list Q) : Q := fold_left (fun a b => round (a + b)) x 0.

Definition mean (x : list Q) : Q :=
  round (sum x / inject_Z (Z.of_nat (length x))).

Definition var (x : list Q) : Q :=
  let m := mean x in
  let d := map (fun a => round (a - m)) x in
  mean (map (fun a => round (a * a)) d).

End B64.

(** * Vocabulary of the statements

    Names for the objects the properties speak about: the exponent
    enumeration, the values of the loops, the profile of the specification. *)

Import A_1.
Import A_2.
Import Run.
Import Random3DT.

Unset Implicit Arguments.

(** The two triangles of the cell with flattened index [idx]. *)
Definition cell_faces (res_y idx : nat) : list face :=
  [ (idx, idx + 1, idx + res_y); (idx + 1, idx + res_y + 1, idx + res_y) ]%nat.

(** The exponent pairs in the order the nested loops
    [for i in range(order + 1): for j in range(order + 1 - i)] visit them. *)
Definition exponents (order : Z) : list (nat * nat) :=
  flat_map (fun i => map (pair i) (range (order + 1 - Z.of_nat i)))
           (range (order + 1)).

(** The monomial [a^i * b^j] as the scripts compute it. *)
Definition monomial (a b : Q) (e : nat * nat) : Q :=
  (Qpower a (Z.of_nat (fst e)) * Qpower b (Z.of_nat (snd e)))%Q.

(** The columns before stacking: one per exponent pair, in loop order. *)
Definition design_columns (x y : list Q) (order : Z) : list (list Q) :=
  map (fun e => Np.mul (Np.power x (fst e)) (Np.power y (snd e)))
      (exponents order).

(** One pass of the evaluators' loop body. *)
Definition eval_step (x y : list Q) (z : list Q) (c : Q) (e : nat * nat) : list Q :=
  Np.add z (Np.mul (Np.scale c (Np.power x (fst e))) (Np.power y (snd e))).

(** The loop body of the evaluators on one exponent pair. *)
Definition eval_body (coeffs x y : list Q) (s : list Q * nat) (e : nat * nat)
  : result (list Q * nat) :=
  bind (getitem coeffs (snd s))
       (fun c => Ok (eval_step x y (fst s) c e, (snd s + 1)%nat)).

(** The value the evaluators accumulate at one point [(a, b)]:
    [((0 + c0*a^i0*b^j0) + c1*a^i1*b^j1) + ...]. *)
Definition poly_at (coeffs : list Q) (order : Z) (a b : Q) : Q :=
  fold_left (fun acc ce =>
               (acc + fst ce * Qpower a (Z.of_nat (fst (snd ce)))
                      * Qpower b (Z.of_nat (snd (snd ce))))%Q)
            (combine coeffs (exponents order)) 0%Q.

(** The dot product of a coefficient vector with a row of the design
    matrix, summed left to right. *)
Definition dot (coeffs row : list Q) : Q :=
  fold_left (fun acc cm => (acc + fst cm * snd cm)%Q) (combine coeffs row) 0%Q.

(** The [clamp(v, lo, hi)] of the specification's pitch profile: [lo]
    below [lo], [hi] above [hi], [v] in between.  (The script itself calls
    [np.clip].) *)
Definition clamp (v lo hi : Q) : Q :=
  if Qlt_le_dec v lo then lo else if Qlt_le_dec hi v then hi else v.

(** The common shape of the two [while] loops: append [min(v, hi)], advance
    [v] by [step v], as long as [v <= hi + eps]. *)
Fixpoint walk (fuel : nat) (step : Q -> Q) (hi : Q) (v : Q) (acc : list Q)
  : option (list Q) :=
  match fuel with
  | O => None
  | S fuel' =>
      if leb v (hi + eps)%Q
      then walk fuel' step hi (v + step v)%Q (acc ++ [Py.min v hi])
      else Some acc
  end.

(** The successive values of the loop variable: each is the previous one
    plus the step computed at the previous one. *)
Fixpoint chain (step : Q -> Q) (hi : Q) (v : Q) (its : list Q) : Prop :=
  match its with
  | [] => True
  | u :: its' => u = v /\ (u <= hi + eps)%Q /\ chain step hi (v + step v)%Q its'
  end.

(** The common shape of the two loops with rounded arithmetic: append
    [min(v, hi)] and move to [next v], as long as [v <= bound]. *)
Fixpoint walk_to (fuel : nat) (next : Q -> Q) (bound hi : Q) (v : Q)
         (acc : list Q) : option (list Q) :=
  match fuel with
  | O => None
  | S fuel' =>
      if leb v bound
      then walk_to fuel' next bound hi (next v) (acc ++ [Py.min v hi])
      else Some acc
  end.

(** The keys of the model file, in the order they are written. *)
Definition model_keys : list string :=
  [ "order"; "coeffs"; "x_mean"; "x_std"; "y_mean"; "y_std";
    "x_min"; "x_max"; "y_min"; "y_max" ]%string.

(** The rows the comprehension keeps. *)
Definition kept (line : string) : bool := (3 <=? length (split line))%nat.

(** The conversion of one kept row. *)
Definition convert_row (py_float : string -> option Q) (line : string)
  : result (list Q) :=
  for_each (firstn 3 (split line))
           (fun row s => bind (to_float py_float s) (fun q => Ok (row ++ [q]))) [].

(** The body of the reading loop. *)
Definition read_body (py_float : string -> option Q)
           (points : list (list Q)) (line : string)
  : result (list (list Q)) :=
  if kept line
  then bind (convert_row py_float line) (fun row => Ok (points ++ [row]))
  else Ok points.

(** The columns of the point array: raw abscissae, raw ordinates, heights. *)
Definition x_raw_of (points : list (list Q)) : list Q := map (fun r => nth 0 r 0%Q) points.
Definition y_raw_of (points : list (list Q)) : list Q := map (fun r => nth 1 r 0%Q) points.
Definition z_of (points : list (list Q)) : list Q := map (fun r => nth 2 r 0%Q) points.

(** [(raw - raw.mean()) / raw.std()]. *)
Definition normalized (np_sqrt : Q -> Q) (raw : list Q) : list Q :=
  Np.div_scalar (Np.sub_scalar raw (Np.mean raw)) (std np_sqrt raw).

(** The model [fit_points] writes for the coefficients [c]. *)
Definition fitted_model (np_sqrt : Q -> Q) (points : list (list Q)) (order : Z)
           (c : list Q) : dict :=
  model_dict order c
             (Np.mean (x_raw_of points)) (std np_sqrt (x_raw_of points))
             (Np.mean (y_raw_of points)) (std np_sqrt (y_raw_of points))
             (amin (x_raw_of points)) (amax (x_raw_of points))
             (amin (y_raw_of points)) (amax (y_raw_of points)).

(** Consecutive entries of [l] never decrease, and increase strictly from
    an entry below [hi]. *)
Definition ascending (hi : Q) (l : list Q) : Prop :=
  forall k a b,
    nth_error l k = Some a -> nth_error l (S k) = Some b ->
    (a <= b)%Q /\ ((a < hi)%Q -> (a < b)%Q).

(** Every entry of [l] lies in [[lo, hi]]. *)
Definition within (lo hi : Q) (l : list Q) : Prop :=
  Forall (fun u => (lo <= u)%Q /\ (u <= hi)%Q) l.

(** A field of a written row: not empty, and free of blanks. *)
Fixpoint no_space (s : string) : bool :=
  match s with
  | EmptyString => true
  | String c s' => negb (isspace c) && no_space s'
  end.

Definition field_ok (s : string) : Prop := s <> EmptyString /\ no_space s = true.

(** The fields of the line written for one point, and the line. *)
Definition row_fields (format_float : string -> Q -> string)
           (extra_constants : list string) (float_fmt : string)
           (p : Q * Q * Q) : list string :=
  [ format_float float_fmt (fst (fst p)); format_float float_fmt (snd (fst p));
    format_float float_fmt (snd p) ] ++ extra_constants.

Definition row_text (format_float : string -> Q -> string)
           (extra_constants : list string) (float_fmt : string)
           (p : Q * Q * Q) : string :=
  (String.concat " " (row_fields format_float extra_constants float_fmt p)
     ++ newline)%string.

(** The lines of a mapping file for the points [(X, Y, Z)]: the count, then
    one line per point. *)
Definition mapping_text (format_float : string -> Q -> string)
           (X Y Z : list Q) : list string :=
  (py_str (length X) ++ newline)%string
    :: map (row_text format_float EXTRA_CONSTANTS FLOAT_FMT) (zip3 X Y Z).

(** The abscissae of the control points increase strictly. *)
Fixpoint increasing (control_points : list (Q * Q)) : Prop :=
  match control_points with
  | (x0, _) :: (((x1, _) :: _) as rest) => (x0 < x1)%Q /\ increasing rest
  | _ => True
  end.

(** The value [interpolate_probability] computes, segment after segment:
    the first segment [[x0, x1]] that holds [x_norm] decides; after the last
    segment the last probability is returned. *)
Fixpoint segments (x_norm : Q) (control_points : list (Q * Q)) : outcome Q :=
  match control_points with
  | [] => Failed (Exception IndexError)
  | (x0, p0) :: rest =>
      match rest with
      | [] => Done p0
      | (x1, p1) :: _ =>
          if leb x0 x_norm && leb x_norm x1
          then match truediv (x_norm - x0) (x1 - x0) with
               | Failed f => Failed f
               | Done t => Done (p0 + (p1 - p0) * t)%Q
               end
          else segments x_norm rest
      end
  end.

(** The lines of [l] whose flag is set, in order. *)
Definition masked (l : list string) (flags : list bool) : list string :=
  map fst (filter snd (combine l flags)).

(** The value the K-z script computes for a row of abscissa [x], before
    rounding. *)
Definition kz_value (x x_min x_max : Q) : Q :=
  (B_2.K_Z_1 + (B_2.K_Z_2 - B_2.K_Z_1) * ((x - x_min) / (x_max - x_min)))%Q.

(** The data lines of the K-z script: the lines after the first that are
    not blank, stripped. *)
Definition kz_data_lines (lines : list string) : list string :=
  map B_2.strip
      (filter (fun line => negb (String.eqb (B_2.strip line) EmptyString))
              (tl lines)).

(** The conversion of all the fields of a line. *)
Definition kz_parse (parse_float : string -> option Q) (line : string)
  : result (list Q) :=
  for_each (split line)
           (fun row s => bind (to_float parse_float s) (fun q => Ok (row ++ [q])))
           [].

(** The row written for a parsed row. *)
Definition kz_row (round6 : Q -> Q) (x_min x_max : Q) (row : list Q) : list Q :=
  removelast row ++ [round6 (kz_value (hd 0%Q row) x_min x_max)].

(** The text of a formatted value, where the formatting returns. *)
Definition text_of (format_float : string -> Q -> result string)
           (float_fmt : string) (v : Q) : string :=
  match format_float float_fmt v with
  | Ok s => s
  | Raise _ => EmptyString
  end.

(** The formatting of the three coordinates of a point, in the order the
    script formats them: the three texts, or the first exception. *)
Definition format_point (format_float : string -> Q -> result string)
           (float_fmt : string) (p : Q * Q * Q) : result (list string) :=
  bind (format_float float_fmt (fst (fst p))) (fun sx =>
  bind (format_float float_fmt (snd (fst p))) (fun sy =>
  bind (format_float float_fmt (snd p)) (fun sz => Ok [sx; sy; sz]))).

(** * Properties *)

(** ** Loops that append *)

Section AppendLoops.

Context {A B : Type}.

(** A loop whose body appends [f a] builds the concatenation of the
    [f a]. *)
Lemma fold_left_app_flat_map (f : A -> list B) (l : list A) (acc : list B) :
  fold_left (fun acc a => acc ++ f a) l acc = acc ++ flat_map f l.
Proof.
  revert acc; induction l as [|a l IH]; intros acc; simpl.
  - now rewrite app_nil_r.
  - now rewrite IH, app_assoc.
Qed.

Lemma fold_left_ext (f g : list B -> A -> list B) (l : list A) (acc : list B) :
  (forall acc a, f acc a = g acc a) ->
  fold_left f l acc = fold_left g l acc.
Proof.
  intros E; revert acc; induction l as [|a l IH]; intros acc; simpl; auto.
  now rewrite E, IH.
Qed.


Lemma length_flat_map_block (f : A -> list B) (k : nat) (l : list A) :
  (forall a, In a l -> length (f a) = k) ->
  length (flat_map f l) = (length l * k)%nat.
Proof.
  induction l as [|a l IH]; intros Hk; simpl; auto.
  rewrite length_app, (Hk a) by (now left).
  rewrite IH by (intros; apply Hk; now right).
  reflexivity.
Qed.

End AppendLoops.

Lemma range_of_nat_pred (n : nat) : range (Z.of_nat n - 1) = seq 0 (n - 1).
Proof. unfold range. f_equal. lia. Qed.

(** ** The mesh triangulation (script 1, lines 106-112) *)

Lemma grid_faces_flat_map (res_x res_y : nat) :
  grid_faces res_x res_y =
  flat_map (fun i => flat_map (fun j => cell_faces res_y (i * res_y + j))
                              (seq 0 (res_y - 1)))
           (seq 0 (res_x - 1)).
Proof.
  unfold grid_faces. rewrite !range_of_nat_pred.
  rewrite <- (app_nil_l (flat_map _ _)).
  rewrite <- fold_left_app_flat_map.
  apply fold_left_ext; intros acc i.
  rewrite <- fold_left_app_flat_map.
  apply fold_left_ext; intros acc' j.
  unfold cell_faces. now rewrite <- app_assoc.
Qed.

(** ** The exponent enumeration shared by the fit and the evaluators *)

Lemma triangle_count (n k : nat) :
  (k <= n)%nat ->
  (2 * length (flat_map (fun i => map (pair i) (seq 0 (n - i))) (seq (n - k) k))
   = k * (k + 1))%nat.
Proof.
  induction k as [|k IH]; intros Hk; [reflexivity|].
  cbn [seq flat_map]. rewrite length_app, length_map, length_seq.
  replace (S (n - S k)) with (n - k)%nat by lia.
  specialize (IH ltac:(lia)). lia.
Qed.

Lemma exponents_seq (order : Z) :
  exponents order =
  flat_map (fun i => map (pair i) (seq 0 (Z.to_nat (order + 1) - i)))
           (seq 0 (Z.to_nat (order + 1))).
Proof.
  unfold exponents, range. apply flat_map_ext; intros i.
  do 2 f_equal. lia.
Qed.

Lemma exponents_length (order : Z) :
  (0 <= order)%Z ->
  Z.of_nat (length (exponents order)) = ((order + 1) * (order + 2) / 2)%Z.
Proof.
  intros H. rewrite exponents_seq.
  pose proof (triangle_count (Z.to_nat (order + 1)) (Z.to_nat (order + 1))
                             (le_n _)) as E.
  rewrite Nat.sub_diag in E.
  set (L := length _) in *.
  assert (E' : (2 * Z.of_nat L = (order + 1) * (order + 2))%Z).
  { replace (order + 2)%Z with (Z.of_nat (Z.to_nat (order + 1) + 1)) by lia.
    replace (order + 1)%Z with (Z.of_nat (Z.to_nat (order + 1))) at 1 by lia.
    rewrite <- Nat2Z.inj_mul, <- E. lia. }
  apply Z.div_unique_exact; lia.
Qed.

Lemma exponents_head (order : Z) :
  (0 <= order)%Z -> exists l, exponents order = (0%nat, 0%nat) :: l.
Proof.
  intros H. rewrite exponents_seq.
  destruct (Z.to_nat (order + 1)) as [|n] eqn:E; [lia|].
  cbn [seq flat_map Nat.sub map app]. eexists; reflexivity.
Qed.

(** ** The design matrix (script 1, lines 34-38) *)

Lemma map2_length (f : Q -> Q -> Q) (x y : list Q) :
  length x = length y -> length (Np.map2 f x y) = length x.
Proof.
  revert y; induction x as [|a x IH]; intros [|b y] H; simpl in *;
    try discriminate; auto.
Qed.

Lemma map2_nth (f : Q -> Q -> Q) (x y : list Q) (n : nat) (a b : Q) :
  nth_error x n = Some a -> nth_error y n = Some b ->
  nth n (Np.map2 f x y) 0%Q = f a b.
Proof.
  revert y n; induction x as [|a0 x IH]; intros [|b0 y] [|n] Ha Hb;
    simpl in *; try discriminate.
  - now inversion Ha; inversion Hb.
  - now apply IH.
Qed.

Lemma append_loop_map {B C : Type} (g : B -> C) (l : list B) (acc : list C) :
  fold_left (fun acc j => acc ++ [g j]) l acc = acc ++ map g l.
Proof.
  revert acc; induction l as [|b l IH]; intros acc; simpl.
  - now rewrite app_nil_r.
  - now rewrite IH, <- app_assoc.
Qed.

(** Two nested appending loops enumerate the pairs [(i, j)] row by row. *)
Lemma nested_append_loop {A B C : Type} (g : A -> B -> C) (R : A -> list B)
      (l : list A) (acc : list C) :
  fold_left (fun acc i => fold_left (fun acc j => acc ++ [g i j]) (R i) acc) l acc
  = acc ++ map (fun e => g (fst e) (snd e))
               (flat_map (fun i => map (pair i) (R i)) l).
Proof.
  revert acc; induction l as [|i l IH]; intros acc; simpl.
  - now rewrite app_nil_r.
  - rewrite IH, append_loop_map, map_app, map_map, <- app_assoc.
    reflexivity.
Qed.

Lemma build_design_matrix_columns (x y : list Q) (order : Z) :
  build_design_matrix x y order =
  bind (Np.vstack (design_columns x y order)) (fun m => Ok (Np.T m)).
Proof.
  unfold build_design_matrix, design_columns, exponents.
  now rewrite (nested_append_loop
                 (fun i j => Np.mul (Np.power x i) (Np.power y j))).
Qed.

Lemma design_column_nth (x y : list Q) (n : nat) (a b : Q) (e : nat * nat) :
  nth_error x n = Some a -> nth_error y n = Some b ->
  nth n (Np.mul (Np.power x (fst e)) (Np.power y (snd e))) 0%Q = monomial a b e.
Proof.
  intros Ha Hb. unfold Np.mul, Np.power, monomial.
  apply map2_nth; rewrite nth_error_map; [now rewrite Ha | now rewrite Hb].
Qed.

(** The matrix [build_design_matrix] returns for a degree [order >= 0] and
    arrays of equal length: its shape, and its rows. *)
Lemma design_matrix_shape (x y : list Q) (order : Z) :
  (0 <= order)%Z -> length x = length y ->
  exists X,
    build_design_matrix x y order = Ok X
    /\ Np.shape X = (length x, length (exponents order))
    /\ length (Np.rows X) = length x
    /\ (forall n a b, nth_error x n = Some a -> nth_error y n = Some b ->
          nth_error (Np.rows X) n = Some (map (monomial a b) (exponents order))).
Proof.
  intros HD Hxy. rewrite build_design_matrix_columns.
  unfold design_columns.
  destruct (exponents_head order HD) as [es Hes].
  assert (Hlen : length (map (fun e => Np.mul (Np.power x (fst e))
                                              (Np.power y (snd e)))
                             (exponents order)) = length (exponents order))
    by apply length_map.
  rewrite Hes in *. cbn [map Np.vstack bind].
  eexists; split; [reflexivity|]. cbn [Np.T Np.shape Np.rows fst snd].
  assert (Hcol : length (Np.mul (Np.power x 0) (Np.power y 0)) = length x).
  { unfold Np.mul, Np.power. rewrite map2_length; rewrite !length_map; auto. }
  rewrite Hcol. repeat split.
  - now rewrite <- Hlen.
  - now rewrite length_map, length_seq.
  - intros n a b Ha Hb.
    assert (Hn : (n < length x)%nat) by (apply nth_error_Some; congruence).
    rewrite nth_error_map, nth_error_seq.
    destruct (Nat.ltb_spec n (length x)) as [_|]; [|lia].
    cbn [option_map Nat.add]. f_equal.
    change (map (fun r => nth n r 0%Q)
                (map (fun e => Np.mul (Np.power x (fst e)) (Np.power y (snd e)))
                     ((0%nat, 0%nat) :: es))
            = map (monomial a b) ((0%nat, 0%nat) :: es)).
    rewrite map_map. apply map_ext; intros e.
    now apply design_column_nth.
Qed.

(** ** The two evaluators *)

(** Nested [for] loops over a triangular index range run the body once per
    pair of [flat_map ... (map (pair i) ...)], in that order. *)
Lemma Ok_inj {A : Type} (a b : A) : Ok a = Ok b -> a = b.
Proof. intros H. now inversion H. Qed.

(** In a goal [bind r k = Ok v -> ...], the call [r] returned a value. *)
Ltac run_bind :=
  match goal with
  | |- bind ?r _ = Ok _ -> _ =>
      let E := fresh "E" in
      destruct r eqn:E; cbn [bind]; [|discriminate]
  end.

Lemma for_each_app {A S : Type} (l1 l2 : list A) (body : S -> A -> result S) (s : S) :
  for_each (l1 ++ l2) body s = bind (for_each l1 body s) (for_each l2 body).
Proof.
  revert s; induction l1 as [|a l1 IH]; intros s; simpl; [reflexivity|].
  destruct (body s a); simpl; auto.
Qed.

Lemma for_each_map {A B S : Type} (f : A -> B) (l : list A)
      (body : S -> B -> result S) (s : S) :
  for_each (map f l) body s = for_each l (fun s a => body s (f a)) s.
Proof.
  revert s; induction l as [|a l IH]; intros s; simpl; [reflexivity|].
  destruct (body s (f a)); simpl; auto.
Qed.

Lemma for_each_nested {A B S : Type} (R : A -> list B) (l : list A)
      (body : S -> A -> B -> result S) (s : S) :
  for_each l (fun s i => for_each (R i) (fun s j => body s i j) s) s
  = for_each (flat_map (fun i => map (pair i) (R i)) l)
             (fun s e => body s (fst e) (snd e)) s.
Proof.
  revert s; induction l as [|i l IH]; intros s; simpl; [reflexivity|].
  rewrite for_each_app, for_each_map. cbn [fst snd].
  destruct (for_each (R i) _ s); simpl; auto.
Qed.

Lemma for_each_ext {A S : Type} (f g : S -> A -> result S) (l : list A) (s : S) :
  (forall s a, f s a = g s a) -> for_each l f s = for_each l g s.
Proof.
  intros E; revert s; induction l as [|a l IH]; intros s; simpl; auto.
  rewrite E. destruct (g s a); simpl; auto.
Qed.

Lemma evaluate_fitted_surface_loop (coeffs x y : list Q) (order : Z) :
  evaluate_fitted_surface coeffs x y order =
  bind (for_each (exponents order) (eval_body coeffs x y) (Np.zeros_like x, 0%nat))
       (fun s => Ok (fst s)).
Proof.
  unfold evaluate_fitted_surface.
  match goal with
  | |- bind ?L _ = _ =>
      assert (E : L = for_each (exponents order) (eval_body coeffs x y)
                               (Np.zeros_like x, 0%nat))
  end.
  { unfold exponents.
    rewrite <- (for_each_nested (fun i => range (order + 1 - Z.of_nat i))
                                (range (order + 1))
                                (fun s i j => eval_body coeffs x y s (i, j))).
    apply for_each_ext; intros [z idx] i.
    apply for_each_ext; intros [z' idx'] j. reflexivity. }
  rewrite E; clear E. destruct (for_each _ _ _) as [[z idx]|]; reflexivity.
Qed.

Lemma eval_poly2d_loop (coeffs x y : list Q) (order : Z) :
  A_2.eval_poly2d coeffs x y order =
  bind (for_each (exponents order) (eval_body coeffs x y) (Np.zeros_like x, 0%nat))
       (fun s => Ok (fst s)).
Proof.
  unfold A_2.eval_poly2d.
  match goal with
  | |- bind ?L _ = _ =>
      assert (E : L = for_each (exponents order) (eval_body coeffs x y)
                               (Np.zeros_like x, 0%nat))
  end.
  { unfold exponents.
    rewrite <- (for_each_nested (fun i => range (order + 1 - Z.of_nat i))
                                (range (order + 1))
                                (fun s i j => eval_body coeffs x y s (i, j))).
    apply for_each_ext; intros [z idx] i.
    apply for_each_ext; intros [z' idx'] j. reflexivity. }
  rewrite E; clear E. destruct (for_each _ _ _) as [[z idx]|]; reflexivity.
Qed.

(** With enough coefficients the loop never fails: it consumes one
    coefficient per exponent pair, in order. *)
Lemma eval_body_run (x y : list Q) (es : list (nat * nat)) :
  forall (done cs z : list Q),
    (length es <= length cs)%nat ->
    for_each es (eval_body (done ++ cs) x y) (z, length done)
    = Ok (fold_left (fun z ce => eval_step x y z (fst ce) (snd ce))
                    (combine cs es) z,
          (length done + length es)%nat).
Proof.
  induction es as [|e es IH]; intros done cs z Hlen.
  - destruct cs; simpl; now rewrite Nat.add_0_r.
  - destruct cs as [|c cs]; [simpl in Hlen; lia|].
    cbn [for_each]. unfold eval_body at 1. cbn [fst snd].
    unfold getitem. rewrite nth_error_app2, Nat.sub_diag by lia.
    cbn [nth_error bind combine fold_left].
    replace (done ++ c :: cs) with ((done ++ [c]) ++ cs)
      by now rewrite <- app_assoc.
    replace (length done + 1)%nat with (length (done ++ [c]))
      by now rewrite length_app.
    rewrite IH by (simpl in Hlen; lia).
    rewrite length_app. cbn [length fst snd]. do 2 f_equal. lia.
Qed.

(** A coefficient vector that is too short makes the loop raise
    [IndexError] at the first missing coefficient. *)
Lemma eval_body_short (x y : list Q) (es : list (nat * nat)) :
  forall (done cs z : list Q),
    (length cs < length es)%nat ->
    for_each es (eval_body (done ++ cs) x y) (z, length done) = Raise IndexError.
Proof.
  induction es as [|e es IH]; intros done cs z Hlen; [simpl in Hlen; lia|].
  cbn [for_each]. unfold eval_body at 1. cbn [fst snd]. unfold getitem.
  destruct cs as [|c cs].
  - rewrite app_nil_r.
    now replace (nth_error done (length done)) with (@None Q)
      by (symmetry; apply nth_error_None; lia).
  - rewrite nth_error_app2, Nat.sub_diag by lia.
    cbn [nth_error bind].
    replace (done ++ c :: cs) with ((done ++ [c]) ++ cs)
      by now rewrite <- app_assoc.
    replace (length done + 1)%nat with (length (done ++ [c]))
      by now rewrite length_app.
    apply IH. simpl in Hlen; lia.
Qed.

Lemma eval_step_pointwise (f : Q -> Q -> Q) (c : Q) (e : nat * nat) (x y : list Q) :
  eval_step x y (Np.map2 f x y) c e
  = Np.map2 (fun a b => (f a b + c * Qpower a (Z.of_nat (fst e))
                                 * Qpower b (Z.of_nat (snd e)))%Q) x y.
Proof.
  unfold eval_step, Np.add, Np.mul, Np.scale, Np.power.
  revert y; induction x as [|a x IH]; intros [|b y]; simpl; try reflexivity.
  now rewrite IH.
Qed.

Lemma eval_fold_pointwise (x y : list Q) (l : list (Q * (nat * nat))) :
  forall f : Q -> Q -> Q,
    fold_left (fun z ce => eval_step x y z (fst ce) (snd ce)) l (Np.map2 f x y)
    = Np.map2 (fun a b =>
                 fold_left (fun acc ce =>
                              (acc + fst ce * Qpower a (Z.of_nat (fst (snd ce)))
                                     * Qpower b (Z.of_nat (snd (snd ce))))%Q)
                           l (f a b)) x y.
Proof.
  induction l as [|[c e] l IH]; intros f; [reflexivity|].
  cbn [fold_left fst snd]. rewrite eval_step_pointwise.
  apply (IH (fun a b => (f a b + c * Qpower a (Z.of_nat (fst e))
                                 * Qpower b (Z.of_nat (snd e)))%Q)).
Qed.

Lemma zeros_like_map2 (x y : list Q) :
  length x = length y -> Np.zeros_like x = Np.map2 (fun _ _ => 0%Q) x y.
Proof.
  unfold Np.zeros_like.
  revert y; induction x as [|a x IH]; intros [|b y] H; simpl in *;
    try discriminate; auto.
  f_equal; auto.
Qed.

(** What the shared loop returns when the coefficient vector is long
    enough. *)
Lemma eval_loop_value (coeffs x y : list Q) (order : Z) :
  length x = length y ->
  (length (exponents order) <= length coeffs)%nat ->
  bind (for_each (exponents order) (eval_body coeffs x y) (Np.zeros_like x, 0%nat))
       (fun s => Ok (fst s))
  = Ok (Np.map2 (poly_at coeffs order) x y).
Proof.
  intros Hxy Hlen.
  pose proof (eval_body_run x y (exponents order) [] coeffs (Np.zeros_like x) Hlen) as E.
  cbn [app length] in E. rewrite E. cbn [bind fst].
  rewrite (zeros_like_map2 x y Hxy), eval_fold_pointwise. reflexivity.
Qed.

Lemma poly_at_dot_gen (a b : Q) (es : list (nat * nat)) :
  forall (cs : list Q) (acc1 acc2 : Q),
    acc1 == acc2 ->
    fold_left (fun acc ce =>
                 (acc + fst ce * Qpower a (Z.of_nat (fst (snd ce)))
                        * Qpower b (Z.of_nat (snd (snd ce))))%Q)
              (combine cs es) acc1
    == fold_left (fun acc cm => (acc + fst cm * snd cm)%Q)
                 (combine cs (map (monomial a b) es)) acc2.
Proof.
  induction es as [|e es IH]; intros [|c cs] acc1 acc2 H; simpl; auto.
  apply IH. unfold monomial. rewrite H. ring.
Qed.

(** The evaluators' value at a point is the dot product of the coefficients
    with the design-matrix row of that point. *)
Lemma poly_at_dot (coeffs : list Q) (order : Z) (a b : Q) :
  poly_at coeffs order a b == dot coeffs (map (monomial a b) (exponents order)).
Proof. apply poly_at_dot_gen. reflexivity. Qed.

(** C2.  For a degree [D >= 0], a coefficient vector of length
    [(D+1)(D+2)/2] and arrays [x], [y] of equal length, the evaluator of the
    fitting script and the evaluator of the mapping script return the same
    array; its entry at a point [(a, b)] is the sum of
    [coeffs[k] * a^i * b^j] over the pairs [(i, j)] in the order
    [i] outer in [0..D], [j] inner in [0..D-i], which is the dot product of
    the coefficients with the design-matrix row of that point: both
    evaluators use the column order of [build_design_matrix]. *)
Theorem evaluators_agree (coeffs x y : list Q) (D : Z) :
  (0 <= D)%Z ->
  Z.of_nat (length coeffs) = ((D + 1) * (D + 2) / 2)%Z ->
  length x = length y ->
  evaluate_fitted_surface coeffs x y D = A_2.eval_poly2d coeffs x y D
  /\ A_2.eval_poly2d coeffs x y D = Ok (Np.map2 (poly_at coeffs D) x y)
  /\ exists X,
       build_design_matrix x y D = Ok X
       /\ forall n a b,
            nth_error x n = Some a -> nth_error y n = Some b ->
            exists row,
              nth_error (Np.rows X) n = Some row
              /\ nth n (Np.map2 (poly_at coeffs D) x y) 0%Q == dot coeffs row.
Proof.
  intros HD Hlen Hxy.
  assert (Hes : (length (exponents D) <= length coeffs)%nat).
  { pose proof (exponents_length D HD). lia. }
  rewrite evaluate_fitted_surface_loop, eval_poly2d_loop.
  rewrite (eval_loop_value coeffs x y D Hxy Hes).
  split; [reflexivity|]. split; [reflexivity|].
  destruct (design_matrix_shape x y D HD Hxy) as (X & HX & _ & _ & Hrows).
  exists X. split; [exact HX|].
  intros n a b Ha Hb. eexists. split; [exact (Hrows n a b Ha Hb)|].
  rewrite (map2_nth _ x y n a b Ha Hb).
  apply poly_at_dot.
Qed.

Lemma evaluators_agree_witness :
  evaluate_fitted_surface [1; 2; 3]%Q [1; 2]%Q [3; 4]%Q 1
  = A_2.eval_poly2d [1; 2; 3]%Q [1; 2]%Q [3; 4]%Q 1.
Proof.
  apply (evaluators_agree [1; 2; 3]%Q [1; 2]%Q [3; 4]%Q 1);
    [lia | reflexivity | reflexivity].
Defined.

(** The two evaluators also agree where they fail: they are the same loop. *)
Lemma evaluators_agree_everywhere (coeffs x y : list Q) (order : Z) :
  evaluate_fitted_surface coeffs x y order = A_2.eval_poly2d coeffs x y order.
Proof. now rewrite evaluate_fitted_surface_loop, eval_poly2d_loop. Qed.

(** ** The variable-pitch walk (script 2, lines 94-118) *)

Local Open Scope Q_scope.

Lemma leb_true (a b : Q) : leb a b = true <-> a <= b.
Proof. apply Qle_bool_iff. Qed.

Lemma leb_false (a b : Q) : leb a b = false <-> b < a.
Proof.
  unfold leb. split; intros H.
  - apply Qnot_le_lt. intros L. apply Qle_bool_iff in L. congruence.
  - destruct (Qle_bool a b) eqn:E; auto.
    apply Qle_bool_iff in E. exfalso. apply (Qlt_not_le _ _ H E).
Qed.

Lemma ltb_true (a b : Q) : ltb a b = true <-> a < b.
Proof.
  unfold ltb. rewrite negb_true_iff. apply (leb_false b a).
Qed.

Lemma ltb_false (a b : Q) : ltb a b = false <-> b <= a.
Proof.
  unfold ltb. rewrite negb_false_iff. apply (leb_true b a).
Qed.

Lemma min_le_r (a b : Q) : Py.min a b <= b.
Proof.
  unfold Py.min. destruct (ltb b a) eqn:E.
  - apply Qle_refl.
  - now apply ltb_false in E.
Qed.

Lemma min_left (a b : Q) : a <= b -> Py.min a b = a.
Proof.
  intros H. unfold Py.min. destruct (ltb b a) eqn:E; auto.
  apply ltb_true in E. exfalso. apply (Qlt_not_le _ _ E H).
Qed.

Lemma ys_loop_walk (fuel : nat) (y_max p_y y : Q) (ys : list Q) :
  ys_loop fuel y_max p_y y ys = walk fuel (fun _ => p_y) y_max y ys.
Proof.
  revert y ys; induction fuel as [|fuel IH]; intros y ys; simpl; auto.
  destruct (leb y (y_max + eps)); auto.
Qed.

Lemma row_loop_walk (fuel : nat) (x_min x_max p_start p_end x : Q) (row : list Q) :
  row_loop fuel x_min x_max p_start p_end x row
  = walk fuel (fun x => linear_pitch_x x x_min x_max p_start p_end) x_max x row.
Proof.
  revert x row; induction fuel as [|fuel IH]; intros x row; simpl; auto.
  destruct (leb x (x_max + eps)); auto.
Qed.

Lemma inject_succ (n : nat) :
  inject_Z (Z.of_nat (S n)) == inject_Z (Z.of_nat n) + 1.
Proof.
  rewrite Nat2Z.inj_succ. unfold Z.succ. now rewrite inject_Z_plus.
Qed.

(** A positive step reaches any distance in finitely many steps. *)
Lemma steps_exist (d p : Q) : 0 < p -> exists n : nat, d < inject_Z (Z.of_nat n) * p.
Proof.
  intros Hp.
  exists (Z.to_nat (Z.max 0 (Qfloor (d / p)) + 1)).
  rewrite Z2Nat.id by lia.
  assert (H1 : d / p < inject_Z (Qfloor (d / p) + 1)) by apply Qlt_floor.
  assert (H2 : inject_Z (Qfloor (d / p) + 1)
               <= inject_Z (Z.max 0 (Qfloor (d / p)) + 1)).
  { rewrite <- Zle_Qle. lia. }
  assert (H3 : d / p < inject_Z (Z.max 0 (Qfloor (d / p)) + 1))
    by (eapply Qlt_le_trans; eauto).
  setoid_replace d with (d / p * p) at 1 by (field; lra).
  apply Qmult_lt_compat_r; auto.
Qed.

Section Walk.

Variable step : Q -> Q.
Variable hi : Q.

Lemma walk_iterates (fuel : nat) :
  forall v acc out,
    walk fuel step hi v acc = Some out ->
    exists its,
      out = acc ++ map (fun u => Py.min u hi) its
      /\ chain step hi v its
      /\ (v <= hi + eps -> exists its', its = v :: its').
Proof.
  induction fuel as [|fuel IH]; intros v acc out H; simpl in H; [discriminate|].
  destruct (leb v (hi + eps)) eqn:E.
  - destruct (IH _ _ _ H) as (its & -> & Hc & _).
    exists (v :: its). rewrite <- app_assoc. simpl. repeat split; eauto.
    now apply leb_true.
  - inversion H; subst out. exists []. rewrite app_nil_r. repeat split.
    intros L. apply leb_false in E. exfalso. apply (Qlt_not_le _ _ E L).
Qed.

Lemma chain_consecutive (its : list Q) :
  forall v k u w,
    chain step hi v its ->
    nth_error its k = Some u -> nth_error its (S k) = Some w ->
    w = u + step u.
Proof.
  induction its as [|a its IH]; intros v k u w Hc Hu Hw.
  - destruct k; discriminate.
  - destruct Hc as (-> & _ & Hc). destruct k as [|k]; simpl in *.
    + inversion Hu; subst u. destruct its as [|b its]; [discriminate|].
      inversion Hw; subst w. now destruct Hc as (-> & _).
    + eapply IH; eauto.
Qed.

(** With steps bounded below by a positive [pmin] the loop test fails
    after finitely many evaluations, and more fuel changes nothing. *)
Lemma walk_terminates (pmin : Q) :
  0 < pmin -> (forall v, pmin <= step v) ->
  forall (n : nat) v acc,
    hi + eps - v < inject_Z (Z.of_nat n) * pmin ->
    exists out, forall fuel, (n < fuel)%nat -> walk fuel step hi v acc = Some out.
Proof.
  intros Hp Hstep. induction n as [|n IH]; intros v acc Hd.
  - exists acc. intros [|fuel] Hf; [lia|]. simpl.
    replace (leb v (hi + eps)) with false; auto.
    symmetry. apply leb_false.
    change (inject_Z (Z.of_nat 0)) with 0 in Hd.
    rewrite Qmult_0_l in Hd. lra.
  - destruct (leb v (hi + eps)) eqn:E.
    + destruct (IH (v + step v) (acc ++ [Py.min v hi])) as [out Hout].
      { rewrite inject_succ in Hd. specialize (Hstep v).
        set (N := inject_Z (Z.of_nat n)) in *. clearbody N.
        rewrite Qmult_plus_distr_l, Qmult_1_l in Hd. lra. }
      exists out. intros [|fuel] Hf; [lia|]. simpl. rewrite E.
      apply Hout. lia.
    + exists acc. intros [|fuel] Hf; [lia|]. simpl. now rewrite E.
Qed.

End Walk.

(** *** The pitch profile *)

Lemma clip_unit_clamp (v : Q) : Np.clip v 0 1 == clamp v 0 1.
Proof.
  unfold Np.clip, Np.minimum, Np.maximum, clamp.
  destruct (ltb v 0) eqn:E0.
  - apply ltb_true in E0.
    destruct (Qlt_le_dec v 0) as [_|L]; [|exfalso; lra].
    destruct (ltb 0 1) eqn:E1; [reflexivity|].
    apply ltb_false in E1. lra.
  - apply ltb_false in E0.
    destruct (Qlt_le_dec v 0) as [L|_]; [exfalso; lra|].
    destruct (ltb v 1) eqn:E1.
    + apply ltb_true in E1. destruct (Qlt_le_dec 1 v); [exfalso; lra|reflexivity].
    + apply ltb_false in E1. destruct (Qlt_le_dec 1 v); [reflexivity|lra].
Qed.

Lemma clamp_unit_bounds (v : Q) : 0 <= clamp v 0 1 <= 1.
Proof.
  unfold clamp. destruct (Qlt_le_dec v 0); [lra|].
  destruct (Qlt_le_dec 1 v); lra.
Qed.

Lemma clip_unit_bounds (v : Q) : 0 <= Np.clip v 0 1 <= 1.
Proof. rewrite clip_unit_clamp. apply clamp_unit_bounds. Qed.

Lemma eqb_false_of_lt (a b : Q) : b < a -> eqb a b = false.
Proof.
  intros H. unfold eqb. destruct (Qeq_bool a b) eqn:E; auto.
  apply Qeq_bool_iff in E. lra.
Qed.

(** On a domain of positive width the pitch is the linear profile of the
    specification, evaluated at the position it is given. *)
Lemma linear_pitch_x_formula (x x_min x_max p_start p_end : Q) :
  x_min < x_max ->
  linear_pitch_x x x_min x_max p_start p_end
  == p_start + (p_end - p_start) * clamp ((x - x_min) / (x_max - x_min)) 0 1.
Proof.
  intros H. unfold linear_pitch_x. rewrite (eqb_false_of_lt _ _ H).
  cbv zeta. rewrite clip_unit_clamp. ring.
Qed.

(** The pitch is a convex combination of the two end pitches. *)
Lemma linear_pitch_x_lower (x x_min x_max p_start p_end : Q) :
  Py.min p_start p_end <= linear_pitch_x x x_min x_max p_start p_end.
Proof.
  assert (Hs : Py.min p_start p_end <= p_start).
  { unfold Py.min. destruct (ltb p_end p_start) eqn:E; [|lra].
    apply ltb_true in E. lra. }
  pose proof (min_le_r p_start p_end) as He.
  unfold linear_pitch_x. destruct (eqb x_max x_min); [exact Hs|].
  cbv zeta.
  pose proof (clip_unit_bounds ((x - x_min) / (x_max - x_min))) as [H0 H1].
  set (t := Np.clip _ 0 1) in *. set (m := Py.min p_start p_end) in *.
  nra.
Qed.

Lemma min_pos (a b : Q) : 0 < a -> 0 < b -> 0 < Py.min a b.
Proof. intros Ha Hb. unfold Py.min. now destruct (ltb b a). Qed.

(** *** The edge statement and the loop over the rows *)

Lemma last_item_app {A : Type} (l : list A) (a : A) : last_item (l ++ [a]) = Ok a.
Proof. unfold last_item. now rewrite rev_app_distr. Qed.

Lemma last_item_nonempty {A : Type} (l : list A) :
  l <> [] -> exists a, last_item l = Ok a /\ In a l.
Proof.
  intros H. unfold last_item. destruct (rev l) as [|a r] eqn:E.
  - apply (f_equal (@rev A)) in E. rewrite rev_involutive in E. now subst.
  - exists a. split; auto. apply in_rev. rewrite E. now left.
Qed.

Lemma force_edge_cases (include_edges : bool) (l : list Q) (hi : Q) (l' : list Q) :
  force_edge include_edges l hi = Ok l' -> l' = l \/ l' = l ++ [hi].
Proof.
  unfold force_edge. intros H. destruct include_edges.
  - destruct (last_item l) as [lst|]; cbn [bind] in H; [|discriminate].
    destruct (ltb tol (Qabs (lst - hi))); inversion H; subst; auto.
  - inversion H; subst; auto.
Qed.

Lemma force_edge_nonempty (include_edges : bool) (l : list Q) (hi : Q) :
  l <> [] -> exists l', force_edge include_edges l hi = Ok l'.
Proof.
  intros H. unfold force_edge. destruct include_edges; eauto.
  destruct (last_item_nonempty l H) as (a & -> & _). cbn [bind].
  destruct (ltb tol (Qabs (a - hi))); eauto.
Qed.

(** The only exception the edge statement raises is [IndexError]. *)
Lemma force_edge_raise (include_edges : bool) (l : list Q) (hi : Q) (e : exn) :
  force_edge include_edges l hi = Raise e -> e = IndexError.
Proof.
  unfold force_edge, last_item. destruct include_edges; [|discriminate].
  destruct (rev l) as [|a r]; cbn [bind].
  - intros H; now inversion H.
  - destruct (ltb tol (Qabs (a - hi))); discriminate.
Qed.


Lemma rows_loop_value (fuel : nat) (x_min x_max p_start p_end : Q)
      (include_edges : bool) (row0 row : list Q) :
  row_loop fuel x_min x_max p_start p_end x_min [] = Some row0 ->
  force_edge include_edges row0 x_max = Ok row ->
  forall ys X_list Y_list,
    rows_loop fuel x_min x_max p_start p_end include_edges ys X_list Y_list
    = Some (Ok (X_list ++ concat (map (fun _ => row) ys),
                Y_list ++ concat (map (fun yy => repeat yy (length row)) ys))).
Proof.
  intros Hrow Hedge. induction ys as [|yy ys IH]; intros X Y; simpl.
  - now rewrite !app_nil_r.
  - rewrite Hrow, Hedge, IH, <- !app_assoc. reflexivity.
Qed.

(** The row loop never raises [ValueError]. *)
Lemma rows_loop_raise (fuel : nat) (x_min x_max p_start p_end : Q)
      (include_edges : bool) (e : exn) :
  forall ys X_list Y_list,
    rows_loop fuel x_min x_max p_start p_end include_edges ys X_list Y_list
    = Some (Raise e) -> e = IndexError.
Proof.
  induction ys as [|yy ys IH]; intros X Y; simpl; [discriminate|].
  destruct (row_loop _ _ _ _ _ _ _) as [row0|]; [|discriminate].
  destruct (force_edge include_edges row0 x_max) as [row|e'] eqn:E.
  - apply IH.
  - intros H; inversion H; subst e'. eapply force_edge_raise; eauto.
Qed.

(** *** [generate_points] *)

Lemma pitch_guard (p_start p_end p_y : Q) :
  leb p_start 0 || leb p_end 0 || leb p_y 0 = true
  <-> p_start <= 0 \/ p_end <= 0 \/ p_y <= 0.
Proof.
  rewrite !orb_true_iff, !leb_true. tauto.
Qed.

Lemma pitch_guard_false (p_start p_end p_y : Q) :
  0 < p_start -> 0 < p_end -> 0 < p_y ->
  leb p_start 0 || leb p_end 0 || leb p_y 0 = false.
Proof.
  intros H1 H2 H3.
  destruct (leb p_start 0 || leb p_end 0 || leb p_y 0) eqn:E; auto.
  apply pitch_guard in E. lra.
Qed.

(** What a walk from [lo <= hi] returns: it starts with [lo] and stays at
    or below [hi]. *)
Lemma walk_from_low (fuel : nat) (step : Q -> Q) (lo hi : Q) (out : list Q) :
  lo <= hi ->
  walk fuel step hi lo [] = Some out ->
  (exists t, out = lo :: t) /\ Forall (fun u => u <= hi) out.
Proof.
  intros Hlo H.
  destruct (walk_iterates step hi fuel lo [] out H) as (its & -> & _ & Hne).
  destruct Hne as [its' ->]; [unfold eps; lra|].
  cbn [app map]. rewrite (min_left lo hi Hlo). split; [eauto|].
  constructor; auto.
  apply Forall_forall. intros u Hu. apply in_map_iff in Hu.
  destruct Hu as (w & <- & _). apply min_le_r.
Qed.

(** The run of [generate_points] on a non-empty domain with positive
    pitches: both loops stop, the same row is produced for every ordinate,
    and the two flattened arrays are returned. *)
Lemma generate_points_value (x_min x_max y_min y_max p_start p_end p_y : Q)
      (include_edges : bool) :
  x_min <= x_max -> y_min <= y_max ->
  0 < p_start -> 0 < p_end -> 0 < p_y ->
  exists fuel0 ys0 ys row0 row,
    (forall fuel, (fuel0 <= fuel)%nat ->
       ys_loop fuel y_max p_y y_min [] = Some ys0
       /\ row_loop fuel x_min x_max p_start p_end x_min [] = Some row0
       /\ generate_points fuel (x_min, x_max, y_min, y_max)
                          p_start p_end p_y include_edges
          = Some (Ok (concat (map (fun _ => row) ys),
                      concat (map (fun yy => repeat yy (length row)) ys))))
    /\ force_edge include_edges ys0 y_max = Ok ys
    /\ force_edge include_edges row0 x_max = Ok row
    /\ (exists t, ys0 = y_min :: t) /\ Forall (fun u => u <= y_max) ys0
    /\ (exists t, row0 = x_min :: t) /\ Forall (fun u => u <= x_max) row0.
Proof.
  intros Hx Hy Hs He Hpy.
  pose proof (min_pos _ _ Hs He) as Hmin.
  destruct (steps_exist (y_max + eps - y_min) p_y Hpy) as [ny Hny].
  destruct (steps_exist (x_max + eps - x_min) _ Hmin) as [nx Hnx].
  destruct (walk_terminates (fun _ => p_y) y_max p_y Hpy
              (fun _ => Qle_refl _) ny y_min [] Hny) as [ys0 Hys0].
  destruct (walk_terminates
              (fun x => linear_pitch_x x x_min x_max p_start p_end) x_max _ Hmin
              (fun x => linear_pitch_x_lower x x_min x_max p_start p_end)
              nx x_min [] Hnx) as [row0 Hrow0].
  destruct (walk_from_low _ _ _ _ _ Hy (Hys0 (S ny) (Nat.lt_succ_diag_r _)))
    as [[ty Ety] Fy].
  destruct (walk_from_low _ _ _ _ _ Hx (Hrow0 (S nx) (Nat.lt_succ_diag_r _)))
    as [[tx Etx] Fx].
  destruct (force_edge_nonempty include_edges ys0 y_max) as [ys Hys];
    [subst; discriminate|].
  destruct (force_edge_nonempty include_edges row0 x_max) as [row Hrow];
    [subst; discriminate|].
  exists (S (Nat.max ny nx)), ys0, ys, row0, row.
  repeat split; eauto.
  - rewrite ys_loop_walk. apply Hys0. lia.
  - rewrite row_loop_walk. apply Hrow0. lia.
  - unfold generate_points. rewrite (pitch_guard_false _ _ _ Hs He Hpy).
    rewrite ys_loop_walk, (Hys0 fuel) by lia. rewrite Hys.
    rewrite (rows_loop_value fuel x_min x_max p_start p_end include_edges row0 row);
      auto.
    rewrite row_loop_walk. apply Hrow0. lia.
Qed.

(** C4.  [generate_points] raises the pitch error exactly when one of the
    three pitches is [<= 0]; no other path raises a [ValueError].  The test
    comes first: the error is the result even when no loop test may be
    evaluated at all ([fuel = 0]), so no point has been produced, and the
    result of a raising call carries no arrays.  In particular the pitches
    [0, 1, 1] raise on every domain. *)
Theorem invalid_pitch_raises (fuel : nat) (domain : Q * Q * Q * Q)
        (p_start p_end p_y : Q) (include_edges : bool) :
  (generate_points fuel domain p_start p_end p_y include_edges
   = Some (Raise InvalidPitchError)
   <-> p_start <= 0 \/ p_end <= 0 \/ p_y <= 0)
  /\ (forall msg,
        generate_points fuel domain p_start p_end p_y include_edges
        = Some (Raise (ValueError msg)) ->
        p_start <= 0 \/ p_end <= 0 \/ p_y <= 0)
  /\ (generate_points 0 domain p_start p_end p_y include_edges
      = Some (Raise InvalidPitchError)
      <-> p_start <= 0 \/ p_end <= 0 \/ p_y <= 0)
  /\ generate_points fuel domain 0 1 1 include_edges
     = Some (Raise InvalidPitchError).
Proof.
  destruct domain as [[[x_min x_max] y_min] y_max].
  assert (Hval : forall msg,
             generate_points fuel (x_min, x_max, y_min, y_max)
                             p_start p_end p_y include_edges
             = Some (Raise (ValueError msg)) ->
             p_start <= 0 \/ p_end <= 0 \/ p_y <= 0).
  { intros msg. unfold generate_points.
    destruct (leb p_start 0 || leb p_end 0 || leb p_y 0) eqn:G.
    - intros _. now apply pitch_guard.
    - destruct (ys_loop fuel y_max p_y y_min []) as [ys0|]; [|discriminate].
      destruct (force_edge include_edges ys0 y_max) as [ys|e] eqn:E.
      + intros H. apply rows_loop_raise in H. discriminate.
      + intros H. inversion H; subst e.
        apply force_edge_raise in E. discriminate. }
  split; [|split; [exact Hval|split]].
  - split; [apply Hval|].
    intros H. apply pitch_guard in H. unfold generate_points. now rewrite H.
  - unfold generate_points.
    destruct (leb p_start 0 || leb p_end 0 || leb p_y 0) eqn:G.
    + rewrite <- pitch_guard, G. tauto.
    + rewrite <- pitch_guard, G. cbn [ys_loop]. split; discriminate.
  - reflexivity.
Qed.

Lemma min_below (w hi : Q) : Py.min w hi < hi -> Py.min w hi = w /\ w < hi.
Proof.
  unfold Py.min. destruct (ltb hi w) eqn:E; intros H.
  - exfalso. apply (Qlt_irrefl _ H).
  - auto.
Qed.

(** C5.  On a domain with [x_min < x_max] and positive pitches, the step the
    row loop takes from the current [x] is
    [p_start + (p_end - p_start) * clamp((x - x_min)/(x_max - x_min), 0, 1)],
    computed at the current [x]: one pass of the loop stores [min(x, x_max)]
    and continues from [x + linear_pitch_x(x)]; and in every row, an entry
    below [x_max] is its predecessor plus the profile evaluated at the
    predecessor. *)
Theorem pitch_step_forward_euler (x_min x_max p_start p_end : Q) :
  x_min < x_max -> 0 < p_start -> 0 < p_end ->
  (forall x,
      linear_pitch_x x x_min x_max p_start p_end
      == p_start + (p_end - p_start) * clamp ((x - x_min) / (x_max - x_min)) 0 1)
  /\ (forall fuel x row,
         row_loop (S fuel) x_min x_max p_start p_end x row
         = if leb x (x_max + eps)
           then row_loop fuel x_min x_max p_start p_end
                         (x + linear_pitch_x x x_min x_max p_start p_end)
                         (row ++ [Py.min x x_max])
           else Some row)
  /\ (forall fuel include_edges row0 row k a b,
         row_loop fuel x_min x_max p_start p_end x_min [] = Some row0 ->
         force_edge include_edges row0 x_max = Ok row ->
         nth_error row k = Some a -> nth_error row (S k) = Some b ->
         b < x_max ->
         b == a + (p_start + (p_end - p_start)
                             * clamp ((a - x_min) / (x_max - x_min)) 0 1)).
Proof.
  intros Hx Hs He. split; [|split].
  - intros x. now apply linear_pitch_x_formula.
  - reflexivity.
  - intros fuel ie row0 row k a b Hloop Hedge Ha Hb Hlt.
    rewrite row_loop_walk in Hloop.
    destruct (walk_iterates _ _ _ _ _ _ Hloop) as (its & E & Hc & _).
    cbn [app] in E.
    (* the two entries lie in the part the loop produced *)
    assert (Hb0 : nth_error row0 (S k) = Some b).
    { destruct (force_edge_cases _ _ _ _ Hedge) as [->| ->]; auto.
      destruct (Nat.lt_ge_cases (S k) (length row0)) as [L|L].
      - now rewrite nth_error_app1 in Hb.
      - rewrite nth_error_app2 in Hb by auto.
        destruct (S k - length row0)%nat as [|[|m]]; simpl in Hb;
          try discriminate.
        inversion Hb; subst b. exfalso. apply (Qlt_irrefl _ Hlt). }
    assert (Ha0 : nth_error row0 k = Some a).
    { assert (L : (S k < length row0)%nat)
        by (apply nth_error_Some; congruence).
      destruct (force_edge_cases _ _ _ _ Hedge) as [->| ->]; auto.
      rewrite nth_error_app1 in Ha by lia. exact Ha. }
    subst row0. rewrite nth_error_map in Ha0, Hb0.
    destruct (nth_error its k) as [u|] eqn:Eu; [|discriminate].
    destruct (nth_error its (S k)) as [w|] eqn:Ew; [|discriminate].
    cbn [option_map] in Ha0, Hb0. inversion Ha0; inversion Hb0; subst a b.
    pose proof (chain_consecutive _ _ _ _ _ _ _ Hc Eu Ew) as Hw.
    destruct (min_below _ _ Hlt) as [-> Hwlt].
    pose proof (linear_pitch_x_lower u x_min x_max p_start p_end) as Hlow.
    pose proof (min_pos _ _ Hs He) as Hmin.
    rewrite min_left by (rewrite Hw in Hwlt; lra).
    rewrite Hw. rewrite <- linear_pitch_x_formula by exact Hx. reflexivity.
Qed.

Lemma pitch_step_forward_euler_witness :
  linear_pitch_x 4 0 10 2 5 == 2 + (5 - 2) * clamp ((4 - 0) / (10 - 0)) 0 1.
Proof.
  apply (pitch_step_forward_euler 0 10 2 5); reflexivity.
Defined.

(** *** The generator in the arithmetic of the floats *)

(** What rounding to binary64 loses. *)

(** The rounding on a few numbers: [0.1] is
    [3602879701896397 / 2^55], a float is left as it is, a tie goes to the
    even significand ([2^53 + 1] to [2^53], [2^53 + 3] to [2^53 + 4]), the
    smallest subnormal is [2^-1074] and half of it rounds to zero. *)
Lemma round_examples :
  B64.round (1 # 10) = 3602879701896397 # 36028797018963968
  /\ B64.round (3 # 4) = 3 # 4
  /\ B64.round (- (1 # 10)) = - (3602879701896397 # 36028797018963968)
  /\ B64.round (9007199254740992 + 1) = 9007199254740992
  /\ B64.round (9007199254740992 + 3) = 9007199254740996
  /\ B64.round (B64.pow2 (-1074)) == B64.pow2 (-1074)
  /\ B64.round (B64.pow2 (-1075)) == 0
  /\ B64.round ((1 # 10) + (2 # 10)) == B64.round (3 # 10)
  /\ ~ B64.round (B64.round (1 # 10) + B64.round (2 # 10))
       == B64.round (3 # 10).
Proof.
  repeat (split; [vm_compute; reflexivity|]). vm_compute. discriminate.
Qed.

Lemma round_half_even_lower (t : Q) : t - (1 # 2) <= inject_Z (Lib.round_half_even t).
Proof.
  unfold Lib.round_half_even. cbv zeta.
  pose proof (Qfloor_le t) as Hf. pose proof (Qlt_floor t) as Hc.
  rewrite inject_Z_plus in Hc. change (inject_Z 1) with 1 in Hc.
  destruct (Qcompare (t - inject_Z (Qfloor t)) (1 # 2)) eqn:E.
  - apply Qeq_alt in E.
    destruct (Z.even (Qfloor t)); [lra|].
    rewrite inject_Z_plus. change (inject_Z 1) with 1. lra.
  - apply Qlt_alt in E. lra.
  - rewrite inject_Z_plus. change (inject_Z 1) with 1. lra.
Qed.

Lemma round_half_even_nonneg (t : Q) : 0 <= t -> (0 <= Lib.round_half_even t)%Z.
Proof.
  intros Ht. unfold Lib.round_half_even. cbv zeta.
  assert (H0 : (0 <= Qfloor t)%Z).
  { change 0%Z with (Qfloor 0). now apply Qfloor_resp_le. }
  destruct (Qcompare _ _); [destruct (Z.even _)| |]; lia.
Qed.

Lemma pow2_pos (e : Z) : 0 < B64.pow2 e.
Proof. unfold B64.pow2. apply Qpower_0_lt. reflexivity. Qed.

Lemma pow2_plus (a b : Z) : B64.pow2 (a + b) == B64.pow2 a * B64.pow2 b.
Proof. unfold B64.pow2. apply Qpower_plus. discriminate. Qed.

Lemma pow2_mono (a b : Z) : (a <= b)%Z -> B64.pow2 a <= B64.pow2 b.
Proof. intros H. unfold B64.pow2. apply Qpower_le_compat_l; [exact H|discriminate]. Qed.

Lemma ilog2_le (a : Q) : 0 < a -> B64.pow2 (B64.ilog2 a) <= a.
Proof.
  intros Ha. unfold B64.ilog2. cbv zeta.
  set (l := (Z.log2 (Qnum a) - Z.log2 (Z.pos (Qden a)))%Z).
  destruct (Qle_bool (B64.pow2 l) a) eqn:E; [now apply Qle_bool_iff|].
  destruct a as [n d]. cbn [Qnum Qden] in *.
  assert (Hn : (0 < n)%Z) by (unfold Qlt in Ha; cbn in Ha; lia).
  pose proof (Z.log2_spec n Hn) as [Ln _].
  pose proof (Z.log2_spec (Z.pos d) eq_refl) as [_ Ud].
  pose proof (Z.log2_nonneg n) as Pn.
  pose proof (Z.log2_nonneg (Z.pos d)) as Pd.
  unfold l. replace (Z.log2 n - Z.log2 (Z.pos d) - 1)%Z
    with (Z.log2 n - Z.succ (Z.log2 (Z.pos d)))%Z by lia.
  unfold B64.pow2. rewrite Qpower_minus by discriminate.
  rewrite <- !(Zpower_Qpower 2) by lia.
  set (N := (2 ^ Z.log2 n)%Z) in *. set (D := (2 ^ Z.succ (Z.log2 (Z.pos d)))%Z) in *.
  assert (HD : (0 < D)%Z) by lia.
  apply Qle_shift_div_r.
  - change 0 with (inject_Z 0). rewrite <- Zlt_Qlt. exact HD.
  - unfold Qle, Qmult, inject_Z. cbn [Qnum Qden]. nia.
Qed.

Lemma round_nonneg_value (q : Q) :
  0 <= q ->
  B64.round q == 0 /\ q == 0
  \/ exists e m, 0 < q
       /\ (B64.pow2 (e + 52) <= q \/ e = (-1074)%Z)
       /\ q * B64.pow2 (- e) - (1 # 2) <= inject_Z m
       /\ (0 <= m)%Z
       /\ B64.round q == inject_Z m * B64.pow2 e.
Proof.
  intros Hq. unfold B64.round. cbv zeta.
  pose proof (Qred_correct q) as Hr.
  destruct (Qeq_bool (Qred q) 0) eqn:E0.
  - left. apply Qeq_bool_iff in E0. split; [reflexivity|]. now rewrite <- Hr.
  - right. assert (Hn0 : ~ Qred q == 0) by (now apply Qeq_bool_neq).
    assert (Hpos : 0 < q) by (rewrite Hr in Hn0; lra).
    assert (Ha : Qabs (Qred q) == q) by (rewrite Hr; apply Qabs_pos; exact Hq).
    assert (Hle : Qle_bool 0 (Qred q) = true)
      by (apply Qle_bool_iff; rewrite Hr; exact Hq).
    rewrite Hle.
    set (a := Qabs (Qred q)) in *.
    assert (Hl : B64.pow2 (B64.ilog2 a) <= q)
      by (rewrite <- Ha; apply ilog2_le; rewrite Ha; exact Hpos).
    set (e := Z.max (B64.ilog2 a - 52) (-1074)).
    exists e, (Lib.round_half_even (a * B64.pow2 (- e))).
    split; [exact Hpos|]. split.
    { destruct (Z.max_spec (B64.ilog2 a - 52) (-1074)) as [[_ E]|[_ E]];
        fold e in E; [now right|left].
      rewrite E. now replace (B64.ilog2 a - 52 + 52)%Z with (B64.ilog2 a) by lia. }
    split.
    { rewrite <- Ha. apply round_half_even_lower. }
    split.
    { apply round_half_even_nonneg. apply Qmult_le_0_compat.
      - rewrite Ha. exact Hq.
      - apply Qlt_le_weak, pow2_pos. }
    apply Qred_correct.
Qed.

(** Rounding a non-negative number keeps its sign and loses at most a
    relative [2^-53] plus an absolute [2^-1075]. *)
Lemma round_lower (q : Q) :
  0 <= q ->
  0 <= B64.round q
  /\ q - q * B64.pow2 (-53) - B64.pow2 (-1075) <= B64.round q.
Proof.
  intros Hq.
  pose proof (pow2_pos (-53)) as P53. pose proof (pow2_pos (-1075)) as P1075.
  destruct (round_nonneg_value q Hq) as [[-> H0]|(e & m & Hpos & He & Hm & Hm0 & ->)].
  - rewrite H0. split; [lra|]. lra.
  - pose proof (pow2_pos e) as Pe.
    assert (Hm0' : 0 <= inject_Z m)
      by (change 0 with (inject_Z 0); now rewrite <- Zle_Qle).
    split; [apply Qmult_le_0_compat; lra|].
    assert (Hinv : B64.pow2 (- e) * B64.pow2 e == 1).
    { rewrite <- pow2_plus. now replace (- e + e)%Z with 0%Z by lia. }
    assert (Hhalf : B64.pow2 e * (1 # 2) <= q * B64.pow2 (-53) + B64.pow2 (-1075)).
    { destruct He as [He| ->].
      - assert (E : B64.pow2 e * (1 # 2) == B64.pow2 (e + 52) * B64.pow2 (-53)).
        { rewrite <- pow2_plus. replace (e + 52 + -53)%Z with (e + -1)%Z by lia.
          rewrite pow2_plus. reflexivity. }
        rewrite E. nra.
      - assert (E : B64.pow2 (-1074) * (1 # 2) == B64.pow2 (-1075)) by reflexivity.
        rewrite E. nra. }
    assert (Hv : q - B64.pow2 e * (1 # 2) <= inject_Z m * B64.pow2 e).
    { assert (H1 : (q * B64.pow2 (- e) - (1 # 2)) * B64.pow2 e
                   <= inject_Z m * B64.pow2 e)
        by (apply Qmult_le_compat_r; lra).
      assert (H2 : (q * B64.pow2 (- e) - (1 # 2)) * B64.pow2 e
                   == q * (B64.pow2 (- e) * B64.pow2 e) - B64.pow2 e * (1 # 2))
        by ring.
      rewrite H2, Hinv in H1. lra. }
    lra.
Qed.

Lemma round_coarse (q : Q) :
  0 <= q -> 0 <= B64.round q /\ q * (99 # 100) - (1 # 1000) <= B64.round q.
Proof.
  intros Hq. destruct (round_lower q Hq) as [H0 H1]. split; [exact H0|].
  assert (E53 : B64.pow2 (-53) <= 1 # 100) by (vm_compute; discriminate).
  assert (E1075 : B64.pow2 (-1075) <= 1 # 1000) by (vm_compute; discriminate).
  nra.
Qed.

(** The loops with rounded arithmetic. *)

Lemma ys_loop_fl_walk (fl : Q -> Q) (fuel : nat) (y_max p_y y : Q) (ys : list Q) :
  ys_loop_fl fl fuel y_max p_y y ys
  = walk_to fuel (fun y => fl (y + p_y)) (fl (y_max + fl eps)) y_max y ys.
Proof.
  revert y ys; induction fuel as [|fuel IH]; intros y ys; simpl; auto.
  destruct (leb y (fl (y_max + fl eps))); auto.
Qed.

Lemma row_loop_fl_walk (fl : Q -> Q) (fuel : nat) (x_min x_max p_start p_end x : Q)
      (row : list Q) :
  row_loop_fl fl fuel x_min x_max p_start p_end x row
  = walk_to fuel
            (fun x => fl (x + linear_pitch_x_fl fl x x_min x_max p_start p_end))
            (fl (x_max + fl eps)) x_max x row.
Proof.
  revert x row; induction fuel as [|fuel IH]; intros x row; simpl; auto.
  destruct (leb x (fl (x_max + fl eps))); auto.
Qed.

Lemma walk_to_terminates (next : Q -> Q) (bound hi lo d : Q) :
  0 < d -> (forall v, lo <= v -> v <= bound -> v + d <= next v) ->
  forall (n : nat) v acc,
    lo <= v -> bound - v < inject_Z (Z.of_nat n) * d ->
    exists out,
      forall fuel, (n < fuel)%nat -> walk_to fuel next bound hi v acc = Some out.
Proof.
  intros Hd Hstep. induction n as [|n IH]; intros v acc Hlo Hn.
  - exists acc. intros [|fuel] Hf; [lia|]. simpl.
    replace (leb v bound) with false; auto.
    symmetry. apply leb_false.
    change (inject_Z (Z.of_nat 0)) with 0 in Hn.
    rewrite Qmult_0_l in Hn. lra.
  - destruct (leb v bound) eqn:E.
    + apply leb_true in E. pose proof (Hstep v Hlo E) as Hv.
      destruct (IH (next v) (acc ++ [Py.min v hi])) as [out Hout].
      { lra. }
      { rewrite inject_succ in Hn.
        set (N := inject_Z (Z.of_nat n)) in *. clearbody N.
        rewrite Qmult_plus_distr_l, Qmult_1_l in Hn. lra. }
      exists out. intros [|fuel] Hf; [lia|]. simpl.
      apply leb_true in E. rewrite E. apply Hout. lia.
    + exists acc. intros [|fuel] Hf; [lia|]. simpl. now rewrite E.
Qed.

Lemma rows_loop_fl_stable (fl : Q -> Q) (fuel fuel' : nat)
      (x_min x_max p_start p_end : Q) (include_edges : bool) (row0 : list Q) :
  row_loop_fl fl fuel x_min x_max p_start p_end x_min [] = Some row0 ->
  row_loop_fl fl fuel' x_min x_max p_start p_end x_min [] = Some row0 ->
  forall ys X_list Y_list,
    rows_loop_fl fl fuel x_min x_max p_start p_end include_edges ys X_list Y_list
    = rows_loop_fl fl fuel' x_min x_max p_start p_end include_edges ys
                   X_list Y_list
    /\ exists r,
         rows_loop_fl fl fuel x_min x_max p_start p_end include_edges ys
                      X_list Y_list = Some r.
Proof.
  intros H H'. induction ys as [|yy ys IH]; intros X Y; cbn [rows_loop_fl].
  - split; [reflexivity|eauto].
  - rewrite H, H'.
    destruct (force_edge_fl fl include_edges row0 x_max) as [row|e];
      [apply IH|split; [reflexivity|eauto]].
Qed.

Lemma generate_points_fl_terminates (fl : Q -> Q) (d : Q)
      (x_min x_max y_min y_max p_start p_end p_y : Q) (include_edges : bool) :
  0 < d ->
  (forall y, y_min <= y -> y <= fl (y_max + fl eps) -> y + d <= fl (y + p_y)) ->
  (forall x, x_min <= x -> x <= fl (x_max + fl eps) ->
             x + d <= fl (x + linear_pitch_x_fl fl x x_min x_max p_start p_end)) ->
  exists fuel0 r,
    forall fuel, (fuel0 <= fuel)%nat ->
      generate_points_fl fl fuel (x_min, x_max, y_min, y_max)
                         p_start p_end p_y include_edges = Some r.
Proof.
  intros Hd Hy Hx. unfold generate_points_fl.
  destruct (leb p_start 0 || leb p_end 0 || leb p_y 0).
  { exists 0%nat. eexists. intros fuel _. reflexivity. }
  destruct (steps_exist (fl (y_max + fl eps) - y_min) d Hd) as [ny Hny].
  destruct (steps_exist (fl (x_max + fl eps) - x_min) d Hd) as [nx Hnx].
  destruct (walk_to_terminates _ _ y_max y_min d Hd Hy ny y_min []
              (Qle_refl _) Hny) as [ys0 Hys0].
  destruct (walk_to_terminates _ _ x_max x_min d Hd Hx nx x_min []
              (Qle_refl _) Hnx) as [row0 Hrow0].
  destruct (force_edge_fl fl include_edges ys0 y_max) as [ys|e] eqn:Ee.
  - assert (Hrow : forall fuel, (S (Nat.max ny nx) <= fuel)%nat ->
               row_loop_fl fl fuel x_min x_max p_start p_end x_min []
               = Some row0).
    { intros fuel Hf. rewrite row_loop_fl_walk. apply Hrow0. lia. }
    destruct (rows_loop_fl_stable fl _ _ x_min x_max p_start p_end
                include_edges row0
                (Hrow _ (Nat.le_refl _)) (Hrow _ (Nat.le_refl _)) ys [] [])
      as [_ [r Hr]].
    exists (S (Nat.max ny nx)), r. intros fuel Hf.
    rewrite ys_loop_fl_walk, (Hys0 fuel) by lia. rewrite Ee.
    rewrite <- Hr.
    apply (rows_loop_fl_stable fl _ _ x_min x_max p_start p_end include_edges
             row0 (Hrow _ Hf) (Hrow _ (Nat.le_refl _))).
  - exists (S ny). eexists. intros fuel Hf.
    rewrite ys_loop_fl_walk, (Hys0 fuel) by lia. rewrite Ee. reflexivity.
Qed.

Lemma binary64_steps_advance :
  (forall y, 0 <= y -> y <= B64.round (3 + B64.round eps) ->
             y + (1 # 2) <= B64.round (y + 1))
  /\ (forall x, 0 <= x -> x <= B64.round (10 + B64.round eps) ->
                x + (1 # 2)
                <= B64.round (x + linear_pitch_x_fl B64.round x 0 10 2 5)).
Proof.
  split.
  - intros y H0 Hb.
    assert (B : B64.round (3 + B64.round eps) <= 4) by (vm_compute; discriminate).
    destruct (round_coarse (y + 1)) as [_ H]; lra.
  - intros x H0 Hb.
    assert (B : B64.round (10 + B64.round eps) <= 11) by (vm_compute; discriminate).
    unfold linear_pitch_x_fl. change (eqb 10 0) with false. cbv iota zeta.
    pose proof (clip_unit_bounds
                  (B64.round (B64.round (x - 0) / B64.round (10 - 0)))) as [T0 T1].
    set (t := Np.clip _ 0 1) in *.
    destruct (round_coarse (1 - t)) as [S0 S1]; [lra|].
    set (s1 := B64.round (1 - t)) in *.
    destruct (round_coarse (2 * s1)) as [A0 A1]; [lra|].
    set (A := B64.round (2 * s1)) in *.
    destruct (round_coarse (5 * t)) as [B0 B1]; [lra|].
    set (Bq := B64.round (5 * t)) in *.
    destruct (round_coarse (A + Bq)) as [U0 U1]; [lra|].
    set (u := B64.round (A + Bq)) in *.
    destruct (round_coarse (x + u)) as [_ H]; lra.
Qed.

(** With the identity for the rounding the rounded generator is the exact
    one. *)
Lemma generate_points_fl_exact (fl : Q -> Q) :
  (forall q, fl q = q) ->
  forall fuel domain p_start p_end p_y include_edges,
    generate_points_fl fl fuel domain p_start p_end p_y include_edges
    = generate_points fuel domain p_start p_end p_y include_edges.
Proof.
  intros Hfl.
  assert (Hys : forall fuel y_max p_y y ys,
             ys_loop_fl fl fuel y_max p_y y ys = ys_loop fuel y_max p_y y ys).
  { induction fuel as [|fuel IH]; intros y_max p_y y ys; [reflexivity|].
    cbn [ys_loop_fl ys_loop]. rewrite !Hfl, IH. reflexivity. }
  assert (Hpitch : forall x x_min x_max p_start p_end,
             linear_pitch_x_fl fl x x_min x_max p_start p_end
             = linear_pitch_x x x_min x_max p_start p_end).
  { intros. unfold linear_pitch_x_fl, linear_pitch_x. now rewrite !Hfl. }
  assert (Hrow : forall fuel x_min x_max p_start p_end x row,
             row_loop_fl fl fuel x_min x_max p_start p_end x row
             = row_loop fuel x_min x_max p_start p_end x row).
  { induction fuel as [|fuel IH]; intros x_min x_max p_start p_end x row;
      [reflexivity|].
    cbn [row_loop_fl row_loop]. rewrite !Hfl, Hpitch, IH. reflexivity. }
  assert (Hedge : forall include_edges l hi,
             force_edge_fl fl include_edges l hi = force_edge include_edges l hi).
  { intros. unfold force_edge_fl, force_edge.
    destruct include_edges; [|reflexivity].
    destruct (last_item l); cbn [bind]; [|reflexivity]. now rewrite !Hfl. }
  assert (Hrows : forall fuel x_min x_max p_start p_end include_edges ys X Y,
             rows_loop_fl fl fuel x_min x_max p_start p_end include_edges ys X Y
             = rows_loop fuel x_min x_max p_start p_end include_edges ys X Y).
  { intros fuel x_min x_max p_start p_end include_edges.
    induction ys as [|yy ys IH]; intros X Y; [reflexivity|].
    cbn [rows_loop_fl rows_loop]. rewrite Hrow.
    destruct (row_loop _ _ _ _ _ _ _); [|reflexivity]. rewrite Hedge.
    destruct (force_edge _ _ _); [apply IH|reflexivity]. }
  intros fuel [[[x_min x_max] y_min] y_max] p_start p_end p_y include_edges.
  unfold generate_points_fl, generate_points. rewrite Hys.
  destruct (leb p_start 0 || leb p_end 0 || leb p_y 0); [reflexivity|].
  destruct (ys_loop _ _ _ _ _); [|reflexivity]. rewrite Hedge.
  destruct (force_edge _ _ _); [apply Hrows|reflexivity].
Qed.

(** C10, as amended.  Over exact arithmetic, on a domain with
    [x_min <= x_max], [y_min <= y_max] and positive pitches
    [generate_points] terminates: there is a number of loop tests from which
    on the result no longer depends on the bound, and that result is the
    pair of arrays.  Each pass of the row loop advances [x] by at least
    [min(p_start, p_end) > 0] and each pass of the ordinate loop advances
    [y] by [p_y > 0].  In the arithmetic of the floats the loops add a
    rounded pitch and the sum is rounded: whenever, for some [d > 0], every
    pass made while the loop test holds advances the loop variable by at
    least [d], [generate_points] terminates as well.  That is so in binary64
    on the domain [[0, 10] x [0, 3]] with the pitches 2, 5 and 1; it is not
    so on every domain, since a pitch that is small against the coordinate
    is absorbed by the rounding. *)
Theorem generate_points_terminates
        (x_min x_max y_min y_max p_start p_end p_y : Q) (include_edges : bool) :
  x_min <= x_max -> y_min <= y_max ->
  0 < p_start -> 0 < p_end -> 0 < p_y ->
  (exists fuel0 X Y,
      forall fuel, (fuel0 <= fuel)%nat ->
        generate_points fuel (x_min, x_max, y_min, y_max)
                        p_start p_end p_y include_edges = Some (Ok (X, Y)))
  /\ 0 < Py.min p_start p_end
  /\ (forall fuel x row,
         x <= x_max + eps ->
         exists x',
           row_loop (S fuel) x_min x_max p_start p_end x row
           = row_loop fuel x_min x_max p_start p_end x' (row ++ [Py.min x x_max])
           /\ x + Py.min p_start p_end <= x')
  /\ (forall fuel y ys,
         y <= y_max + eps ->
         ys_loop (S fuel) y_max p_y y ys
         = ys_loop fuel y_max p_y (y + p_y) (ys ++ [Py.min y y_max]))
  /\ (forall (fl : Q -> Q) (d : Q),
         0 < d ->
         (forall y, y_min <= y -> y <= fl (y_max + fl eps) ->
                    y + d <= fl (y + p_y)) ->
         (forall x, x_min <= x -> x <= fl (x_max + fl eps) ->
                    x + d
                    <= fl (x + linear_pitch_x_fl fl x x_min x_max p_start p_end)) ->
         exists fuel0 r,
           forall fuel, (fuel0 <= fuel)%nat ->
             generate_points_fl fl fuel (x_min, x_max, y_min, y_max)
                                p_start p_end p_y include_edges = Some r).
Proof.
  intros Hx Hy Hs He Hpy.
  destruct (generate_points_value x_min x_max y_min y_max p_start p_end p_y
              include_edges Hx Hy Hs He Hpy)
    as (fuel0 & ys0 & ys1 & row0 & row1 & Hrun & _).
  split; [|split; [|split; [|split]]].
  - exists fuel0. do 2 eexists. intros fuel Hf. now apply Hrun.
  - now apply min_pos.
  - intros fuel x row Hc. eexists. cbn [row_loop].
    apply leb_true in Hc. rewrite Hc. split; [reflexivity|].
    pose proof (linear_pitch_x_lower x x_min x_max p_start p_end). lra.
  - intros fuel y ys Hc. cbn [ys_loop].
    apply leb_true in Hc. now rewrite Hc.
  - intros fl d Hd Hys Hxs. now apply (generate_points_fl_terminates fl d).
Qed.

Lemma generate_points_terminates_witness :
  (exists fuel0 X Y,
      forall fuel, (fuel0 <= fuel)%nat ->
        generate_points fuel (0, 10, 0, 3) 2 5 1 true = Some (Ok (X, Y)))
  /\ exists fuel0 r,
       forall fuel, (fuel0 <= fuel)%nat ->
         generate_points_fl B64.round fuel (0, 10, 0, 3) 2 5 1 true = Some r.
Proof.
  destruct (generate_points_terminates 0 10 0 3 2 5 1 true)
    as (Hexact & _ & _ & _ & Hfl);
    [ discriminate | discriminate | reflexivity | reflexivity | reflexivity | ].
  split; [exact Hexact|].
  apply (Hfl B64.round (1 # 2));
    [ reflexivity | apply binary64_steps_advance | apply binary64_steps_advance ].
Defined.

(** C10, as stated, fails in the arithmetic of the script.  In binary64
    the floats next to [1e16] are 2 apart and [1e16 + 1.0] is [1e16]: on the
    domain with [y_min = 1e16] and [y_max = 1e16 + 4], both floats, and
    [p_y = 1] the ordinate loop adds the pitch without advancing, its test
    stays true, and [generate_points] does not return, whatever the number
    of loop tests allowed. *)
Lemma generate_points_stalls_in_binary64 :
  B64.round 10000000000000000 = 10000000000000000
  /\ B64.round 10000000000000004 = 10000000000000004
  /\ B64.round (10000000000000000 + 1) = 10000000000000000
  /\ forall fuel,
       generate_points_fl B64.round fuel
                          (0, 1, 10000000000000000, 10000000000000004)
                          1 1 1 true
       = None.
Proof.
  split; [vm_compute; reflexivity|]. split; [vm_compute; reflexivity|].
  assert (Habsorb : B64.round (10000000000000000 + 1) = 10000000000000000)
    by (vm_compute; reflexivity).
  split; [exact Habsorb|].
  assert (Htest : leb 10000000000000000
                      (B64.round (10000000000000004 + B64.round eps)) = true)
    by (vm_compute; reflexivity).
  assert (Hstall : forall fuel ys,
             ys_loop_fl B64.round fuel 10000000000000004 1
                        10000000000000000 ys = None).
  { induction fuel as [|fuel IH]; intros ys; [reflexivity|].
    cbn [ys_loop_fl]. rewrite Htest, Habsorb. apply IH. }
  intros fuel. unfold generate_points_fl.
  change (leb 1 0) with false. cbn [orb]. now rewrite Hstall.
Qed.




(** ** The persisted model (script 1, lines 117-132; script 2, lines 167-178) *)

Local Open Scope string_scope.
Local Open Scope list_scope.

(** C8, as amended.  The model file holds the ten fields [order], [coeffs],
    [x_mean], [x_std], [y_mean], [y_std], [x_min], [x_max], [y_min],
    [y_max] (the degree is stored under the key [order]), and the mapping
    script reads back from it exactly the values the fitting script stored:
    the same degree, the same coefficients in the same order, the same
    normalization parameters and domain bounds.  Every model a run of the
    fitting script writes has this form. *)
Theorem model_round_trip (D : Z) (c : list Q) (xm xs ym ys x0 x1 y0 y1 : Q) :
  load_model (model_dict D c xm xs ym ys x0 x1 y0 y1)
  = Ok {| order := D; coeffs := Np.Vector c;
          x_mean := xm; x_std := xs; y_mean := ym; y_std := ys;
          x_min := x0; x_max := x1; y_min := y0; y_max := y1 |}
  /\ map fst (model_dict D c xm xs ym ys x0 x1 y0 y1) = model_keys
  /\ (forall py_float np_sqrt lstsq file_lines out,
         create_polynomial_surface py_float np_sqrt lstsq file_lines D = Ok out ->
         exists c xm xs ym ys x0 x1 y0 y1,
           model out = model_dict D c xm xs ym ys x0 x1 y0 y1).
Proof.
  split; [reflexivity|]. split; [reflexivity|].
  intros py_float np_sqrt lstsq file_lines out.
  unfold create_polynomial_surface, fit_points.
  repeat run_bind. intros <-%Ok_inj. cbn [model].
  repeat eexists.
Qed.

(** C8, as stated, fails on the field name: the model file has no key
    [degree], and reading it raises [KeyError]. *)
Lemma model_has_no_degree_key :
  lookup (model_dict 1 [0; 1; 1]%Q 0 1 0 1 0 1 0 1) "degree"
  = Raise (KeyError "degree")
  /\ ~ In "degree" (map fst (model_dict 1 [0; 1; 1]%Q 0 1 0 1 0 1 0 1))
  /\ lookup (model_dict 1 [0; 1; 1]%Q 0 1 0 1 0 1 0 1) "order" = Ok (JInt 1).
Proof.
  split; [reflexivity|]. split; [|reflexivity].
  cbn [model_dict map fst In].
  intros H. repeat (destruct H as [H|H]; [discriminate H|]). exact H.
Qed.

(** ** Reading the mapping file (script 1, lines 83-86) *)

Section Reading.

Variable py_float : string -> option Q.

Lemma read_points_body (header : string) (rows : list string) :
  read_points py_float (header :: rows) = for_each rows (read_body py_float) [].
Proof. reflexivity. Qed.

Lemma for_each_filter {A S : Type} (keep : A -> bool) (body : S -> A -> result S)
      (l : list A) :
  (forall s a, keep a = false -> body s a = Ok s) ->
  forall s, for_each l body s = for_each (filter keep l) body s.
Proof.
  intros Hskip. induction l as [|a l IH]; intros s; simpl; [reflexivity|].
  destruct (keep a) eqn:E; simpl.
  - destruct (body s a); simpl; auto.
  - rewrite (Hskip s a E). simpl. apply IH.
Qed.

(** Converting the fields of a row fails only at a field [float()]
    rejects, and then with [ValueError]. *)
Lemma convert_fields (fields : list string) :
  forall acc,
    match for_each fields
                   (fun row s => bind (to_float py_float s)
                                      (fun q => Ok (row ++ [q]))) acc with
    | Ok r => exists vs, r = acc ++ vs /\ length vs = length fields
    | Raise e => e = ValueError "could not convert string to float"
                 /\ exists s, In s fields /\ py_float s = None
    end.
Proof.
  induction fields as [|s fields IH]; intros acc.
  - exists []. now rewrite app_nil_r.
  - cbn [for_each]. unfold to_float at 1.
    destruct (py_float s) as [q|] eqn:E; cbn [bind].
    + specialize (IH (acc ++ [q])).
      destruct (for_each fields _ (acc ++ [q])) as [r|e].
      * destruct IH as (vs & -> & Hl).
        exists (q :: vs). rewrite <- app_assoc. simpl. auto.
      * destruct IH as (-> & s' & Hin & Hs').
        split; auto. exists s'. split; auto. now right.
    + split; auto. exists s. split; auto. now left.
Qed.

Lemma read_rows (rows : list string) :
  forall acc,
    match for_each rows (read_body py_float) acc with
    | Ok r => exists pts, r = acc ++ pts
                          /\ length pts = length (filter kept rows)
                          /\ Forall (fun r => length r = 3%nat) pts
    | Raise e => e = ValueError "could not convert string to float"
                 /\ exists line s, In line rows /\ kept line = true
                                   /\ In s (firstn 3 (split line))
                                   /\ py_float s = None
    end.
Proof.
  induction rows as [|line rows IH]; intros acc.
  - exists []. rewrite app_nil_r. repeat split. constructor.
  - cbn [for_each filter]. unfold read_body at 1.
    destruct (kept line) eqn:K.
    + unfold convert_row.
      pose proof (convert_fields (firstn 3 (split line)) []) as Hc.
      destruct (for_each (firstn 3 (split line)) _ []) as [vs|e]; cbn [bind].
      * destruct Hc as (vs' & Ev & Hl). cbn [app] in Ev. subst vs'.
        specialize (IH (acc ++ [vs])).
        destruct (for_each rows (read_body py_float) (acc ++ [vs])) as [r|e].
        -- destruct IH as (pts & -> & Hn & Hall).
           exists (vs :: pts). rewrite <- app_assoc. simpl.
           repeat split; auto. constructor; auto.
           rewrite Hl, length_firstn. unfold kept in K.
           apply Nat.leb_le in K. lia.
        -- destruct IH as (-> & l & s & H1 & H2).
           split; auto. exists l, s. split; [now right|exact H2].
      * destruct Hc as (-> & s & Hin & Hs).
        split; auto. exists line, s. repeat split; auto. now left.
    + cbn [bind]. specialize (IH acc).
      destruct (for_each rows (read_body py_float) acc) as [r|e].
      * destruct IH as (pts & -> & Hn & Hall). exists pts. auto.
      * destruct IH as (-> & l & s & H1 & H2).
        split; auto. exists l, s. split; [now right|exact H2].
Qed.

End Reading.

(** C9, as amended.  A data row with fewer than three whitespace-separated
    fields is skipped and reading goes on with the remaining rows: the
    result is the one for the file without its short rows, and a successful
    read returns one point of three coordinates per row with at least three
    fields.  Reading fails only when one of the first three fields of such a
    row is rejected by [float()], with that [ValueError]. *)
Theorem short_rows_are_skipped (py_float : string -> option Q)
        (header : string) (rows : list string) :
  read_points py_float (header :: rows)
  = read_points py_float (header :: filter kept rows)
  /\ (forall pts,
         read_points py_float (header :: rows) = Ok pts ->
         length pts = length (filter kept rows)
         /\ Forall (fun r => length r = 3%nat) pts)
  /\ (forall e,
         read_points py_float (header :: rows) = Raise e ->
         e = ValueError "could not convert string to float"
         /\ exists line s, In line rows /\ (3 <= length (split line))%nat
                           /\ In s (firstn 3 (split line))
                           /\ py_float s = None)
  /\ ((forall line, In line rows -> (length (split line) < 3)%nat) ->
      read_points py_float (header :: rows) = Ok []).
Proof.
  rewrite !read_points_body.
  assert (Hskip : forall s a, kept a = false -> read_body py_float s a = Ok s).
  { intros s a E. unfold read_body. now rewrite E. }
  split; [apply (for_each_filter kept _ rows Hskip)|].
  pose proof (read_rows py_float rows []) as Hr.
  destruct (for_each rows (read_body py_float) []) as [r|e0].
  - destruct Hr as (pts & E & Hn & Hall). cbn [app] in E. subst r.
    split; [intros p H; inversion H; subst; auto|].
    split; [discriminate|].
    intros Hshort. f_equal.
    assert (L : length pts = 0%nat).
    { rewrite Hn. clear - Hshort. induction rows as [|l rows IH]; auto.
      simpl. unfold kept at 1.
      destruct (Nat.leb_spec 3 (length (split l))) as [G|G].
      - specialize (Hshort l (or_introl eq_refl)). lia.
      - apply IH. intros; apply Hshort. now right. }
    now destruct pts.
  - destruct Hr as (E & line & s & Hin & K & Hs & Hf). subst e0.
    split; [discriminate|].
    split.
    + intros e H; inversion H; subst e. split; auto.
      exists line, s. unfold kept in K. apply Nat.leb_le in K. auto.
    + intros Hshort. specialize (Hshort line Hin).
      unfold kept in K. apply Nat.leb_le in K. lia.
Qed.

(** C9, as stated, fails: in a file whose second data row has only two
    fields the short row is dropped without any error and the other rows
    are returned. *)
Lemma short_row_dropped_silently :
  read_points Lib.float_of_decimal ["3"; "1 2 3"; "4 5"; "7 8 9"]
  = Ok [ [1; 2; 3]; [7; 8; 9] ]%Q
  /\ length (split "4 5") = 2%nat.
Proof. split; vm_compute; reflexivity. Qed.

(** ** The fit (script 1, lines 87-133) *)

Local Close Scope string_scope.

Lemma exponents_in (order : Z) (i j : nat) :
  In (i, j) (exponents order)
  <-> (Z.of_nat i <= order /\ Z.of_nat j <= order - Z.of_nat i)%Z.
Proof.
  unfold exponents, range. rewrite in_flat_map. split.
  - intros (i' & Hi & Hj). apply in_map_iff in Hj.
    destruct Hj as (j' & E & Hj). inversion E; subst i' j'.
    apply in_seq in Hi. apply in_seq in Hj. lia.
  - intros [Hi Hj]. exists i. split.
    + apply in_seq. lia.
    + apply in_map. apply in_seq. lia.
Qed.

Lemma NoDup_map_pair (i : nat) (l : list nat) :
  NoDup l -> NoDup (map (pair i) l).
Proof.
  induction 1 as [|j l Hj Hl IH]; simpl; constructor; auto.
  rewrite in_map_iff. intros (j' & E & Hin). inversion E; subst j'. contradiction.
Qed.

Lemma exponents_NoDup (order : Z) : NoDup (exponents order).
Proof.
  unfold exponents, range.
  generalize (seq_NoDup (Z.to_nat (order + 1)) 0).
  generalize (seq 0 (Z.to_nat (order + 1))) as l.
  induction l as [|i l IH]; intros Hl; simpl; [constructor|].
  inversion Hl as [|? ? Hi Hl']; subst.
  apply NoDup_app.
  - apply NoDup_map_pair, seq_NoDup.
  - now apply IH.
  - intros [a b] Ha Hb. apply in_map_iff in Ha. destruct Ha as (j & E & _).
    inversion E; subst a b. apply in_flat_map in Hb.
    destruct Hb as (i' & Hi' & Hj'). apply in_map_iff in Hj'.
    destruct Hj' as (j' & E' & _). inversion E'; subst i'. contradiction.
Qed.

Lemma length_sub_div (x : list Q) (m s : Q) :
  length (Np.div_scalar (Np.sub_scalar x m) s) = length x.
Proof. unfold Np.div_scalar, Np.sub_scalar. now rewrite !length_map. Qed.

Lemma column_nonempty (points : list (list Q)) (k : nat) :
  points <> [] -> column points k = Ok (map (fun r => nth k r 0) points).
Proof. destruct points; [congruence|reflexivity]. Qed.

Lemma column_ok (points : list (list Q)) (k : nat) (c : list Q) :
  column points k = Ok c -> c = map (fun r => nth k r 0) points /\ points <> [].
Proof.
  destruct points; [discriminate|]. intros H; inversion H. split; [auto|discriminate].
Qed.

Lemma length_linspace (a b : Q) (num : nat) : length (linspace a b num) = num.
Proof. unfold linspace. now rewrite length_map, length_seq. Qed.

Lemma meshgrid_lengths (xs ys : list Q) :
  length (flat_map (fun _ : Q => xs) ys)
  = length (flat_map (fun b : Q => map (fun _ : Q => b) xs) ys).
Proof.
  rewrite (length_flat_map_block (fun _ => xs) (length xs)) by reflexivity.
  rewrite (length_flat_map_block _ (length xs)); [reflexivity|].
  intros b _. apply length_map.
Qed.

Section FitFacts.

Variable np_sqrt : Q -> Q.
Variable lstsq : Np.ndarray2 -> list Q -> result (list Q).

(** A successful run went through the solver. *)
Lemma fit_points_inv (points : list (list Q)) (order : Z) (out : outputs) :
  fit_points np_sqrt lstsq points order = Ok out ->
  points <> []
  /\ exists X c,
      build_design_matrix (normalized np_sqrt (x_raw_of points))
                          (normalized np_sqrt (y_raw_of points)) order = Ok X
      /\ lstsq X (z_of points) = Ok c
      /\ model out = fitted_model np_sqrt points order c.
Proof.
  unfold fit_points.
  destruct (column points 0) as [x_raw|] eqn:Ex; [|discriminate].
  destruct (column_ok _ _ _ Ex) as [-> Hne].
  rewrite !(column_nonempty _ _ Hne). cbn [bind].
  destruct (build_design_matrix _ _ order) as [X|] eqn:EX; [|discriminate].
  cbn [bind].
  destruct (lstsq X _) as [c|] eqn:Ec; [|discriminate].
  cbn [bind].
  destruct (evaluate_fitted_surface c _ _ order) as [zg|]; [|discriminate].
  cbn [bind]. intros <-%Ok_inj. cbn [model].
  split; [exact Hne|]. exists X, c.
  split; [first [exact EX | reflexivity]|].
  split; [first [exact Ec | reflexivity]|reflexivity].
Qed.

(** The outcome of [fit_points] on a non-empty point set is the outcome
    of the solver on the design matrix: no other test stands in the way. *)
Lemma fit_points_outcome (points : list (list Q)) (order : Z) :
  (0 <= order)%Z -> points <> [] ->
  exists X,
    build_design_matrix (normalized np_sqrt (x_raw_of points))
                        (normalized np_sqrt (y_raw_of points)) order = Ok X
    /\ Np.shape X = (length points, length (exponents order))
    /\ (forall e, lstsq X (z_of points) = Raise e ->
                  fit_points np_sqrt lstsq points order = Raise e)
    /\ (forall c, lstsq X (z_of points) = Ok c ->
                  (length (exponents order) <= length c)%nat ->
                  exists out,
                    fit_points np_sqrt lstsq points order = Ok out
                    /\ model out = fitted_model np_sqrt points order c).
Proof.
  intros HD Hne.
  assert (Hxy : length (normalized np_sqrt (x_raw_of points))
                = length (normalized np_sqrt (y_raw_of points))).
  { unfold normalized, x_raw_of, y_raw_of.
    now rewrite !length_sub_div, !length_map. }
  destruct (design_matrix_shape _ _ order HD Hxy) as (X & HX & Hsh & _).
  exists X. split; [exact HX|]. split.
  { rewrite Hsh. unfold normalized, x_raw_of.
    now rewrite length_sub_div, length_map. }
  unfold fit_points. rewrite !(column_nonempty _ _ Hne). cbn [bind].
  fold (x_raw_of points) (y_raw_of points) (z_of points).
  fold (normalized np_sqrt (x_raw_of points)) (normalized np_sqrt (y_raw_of points)).
  rewrite HX. cbn [bind]. split.
  - intros e ->. reflexivity.
  - intros c -> Hc. cbn [bind].
    rewrite evaluate_fitted_surface_loop, eval_loop_value;
      [ | rewrite !length_sub_div; apply meshgrid_lengths | exact Hc ].
    cbn [bind]. eexists. split; reflexivity.
Qed.


End FitFacts.

(** *** Coordinates that all coincide have zero variance *)

Lemma sum_constant (v : Q) (x : list Q) :
  (forall a, In a x -> a == v) ->
  forall acc, fold_left Qplus x acc == acc + inject_Z (Z.of_nat (length x)) * v.
Proof.
  induction x as [|a x IH]; intros Hall acc.
  - cbn [fold_left length]. change (inject_Z (Z.of_nat 0)) with 0. ring.
  - cbn [fold_left]. rewrite IH by (intros b Hb; apply Hall; now right).
    change (length (a :: x)) with (S (length x)).
    rewrite inject_succ, (Hall a (or_introl eq_refl)). ring.
Qed.

Lemma length_pos_Q {A : Type} (x : list A) :
  x <> [] -> 0 < inject_Z (Z.of_nat (length x)).
Proof.
  intros H. destruct x as [|a x]; [congruence|].
  change 0 with (inject_Z 0). rewrite <- Zlt_Qlt. simpl length. lia.
Qed.

Lemma mean_constant (v : Q) (x : list Q) :
  x <> [] -> (forall a, In a x -> a == v) -> Np.mean x == v.
Proof.
  intros Hne Hall. unfold Np.mean, Np.sum.
  rewrite (sum_constant v x Hall).
  pose proof (length_pos_Q x Hne).
  field. lra.
Qed.

Lemma map2_in (f : Q -> Q -> Q) (x y : list Q) (e : Q) :
  In e (Np.map2 f x y) -> exists a b, In a x /\ In b y /\ e = f a b.
Proof.
  revert y; induction x as [|a x IH]; intros [|b y] H; simpl in H;
    try contradiction.
  destruct H as [<-|H].
  - exists a, b. simpl; auto.
  - destruct (IH _ H) as (a' & b' & Ha & Hb & ->).
    exists a', b'. simpl; auto.
Qed.

Lemma var_constant (v : Q) (x : list Q) :
  x <> [] -> (forall a, In a x -> a == v) -> Np.var x == 0.
Proof.
  intros Hne Hall. unfold Np.var. cbv zeta.
  set (d := Np.sub_scalar x (Np.mean x)).
  assert (Hd : forall a, In a d -> a == 0).
  { intros a Ha. unfold d, Np.sub_scalar in Ha. apply in_map_iff in Ha.
    destruct Ha as (b & <- & Hb).
    rewrite (Hall b Hb), (mean_constant v x Hne Hall). ring. }
  assert (Hdd : forall a, In a (Np.mul d d) -> a == 0).
  { intros a Ha. apply map2_in in Ha. destruct Ha as (p & q & Hp & Hq & ->).
    rewrite (Hd p Hp). ring. }
  unfold Np.mean, Np.sum. rewrite (sum_constant 0 _ Hdd).
  unfold Qdiv. ring.
Qed.

Local Open Scope string_scope.
Local Open Scope list_scope.
Local Open Scope Q_scope.

(** C1.  For every degree [D >= 0] the nested loops enumerate each exponent
    pair [(i, j)] with [0 <= i <= D], [0 <= j <= D - i] exactly once, which
    makes [(D+1)(D+2)/2] pairs; for arrays [x], [y] of equal length [N] the
    design matrix has shape [(N, (D+1)(D+2)/2)], and its row for the point
    [(a, b)] lists the monomials [a^i * b^j] in that order.  The fit builds
    this matrix on the normalized coordinates of the points it read and
    hands it to the solver: a run that returned read a non-empty point set,
    built the matrix with [(D+1)(D+2)/2] columns, and stored the
    coefficients the solver returned for it; and on every non-empty point
    set the matrix is built, an exception of the solver ends the run, and
    coefficients returned by the solver make the run return with them.
    With a solver that returns one coefficient per column of the matrix it
    is given, the stored coefficient list has length [(D+1)(D+2)/2]. *)
Theorem design_matrix_columns
        (py_float : string -> option Q) (np_sqrt : Q -> Q)
        (lstsq : Np.ndarray2 -> list Q -> result (list Q)) (D : Z) :
  (forall X z c, lstsq X z = Ok c -> length c = snd (Np.shape X)) ->
  (0 <= D)%Z ->
  Z.of_nat (length (exponents D)) = ((D + 1) * (D + 2) / 2)%Z
  /\ NoDup (exponents D)
  /\ (forall i j, In (i, j) (exponents D)
                  <-> (Z.of_nat i <= D /\ Z.of_nat j <= D - Z.of_nat i)%Z)
  /\ (forall x y,
         length x = length y ->
         exists X,
           build_design_matrix x y D = Ok X
           /\ fst (Np.shape X) = length x
           /\ Z.of_nat (snd (Np.shape X)) = ((D + 1) * (D + 2) / 2)%Z
           /\ length (Np.rows X) = length x
           /\ forall n a b,
                nth_error x n = Some a -> nth_error y n = Some b ->
                nth_error (Np.rows X) n = Some (map (monomial a b) (exponents D)))
  /\ (forall file_lines out,
         create_polynomial_surface py_float np_sqrt lstsq file_lines D = Ok out ->
         exists points X c,
           read_points py_float file_lines = Ok points
           /\ points <> []
           /\ build_design_matrix (normalized np_sqrt (x_raw_of points))
                                  (normalized np_sqrt (y_raw_of points)) D = Ok X
           /\ Np.shape X = (length points, length (exponents D))
           /\ lstsq X (z_of points) = Ok c
           /\ lookup (model out) "coeffs" = Ok (JArray c)
           /\ Z.of_nat (length c) = ((D + 1) * (D + 2) / 2)%Z)
  /\ (forall file_lines points,
         read_points py_float file_lines = Ok points -> points <> [] ->
         exists X,
           build_design_matrix (normalized np_sqrt (x_raw_of points))
                               (normalized np_sqrt (y_raw_of points)) D = Ok X
           /\ Np.shape X = (length points, length (exponents D))
           /\ (forall e, lstsq X (z_of points) = Raise e ->
                         create_polynomial_surface py_float np_sqrt lstsq
                                                   file_lines D = Raise e)
           /\ (forall c, lstsq X (z_of points) = Ok c ->
                         exists out,
                           create_polynomial_surface py_float np_sqrt lstsq
                                                     file_lines D = Ok out
                           /\ lookup (model out) "coeffs" = Ok (JArray c)
                           /\ Z.of_nat (length c) = ((D + 1) * (D + 2) / 2)%Z)).
Proof.
  intros Hsolver HD.
  pose proof (exponents_length D HD) as HK.
  split; [exact HK|]. split; [apply exponents_NoDup|].
  split; [apply exponents_in|]. split; [|split].
  - intros x y Hxy.
    destruct (design_matrix_shape x y D HD Hxy) as (X & HX & Hsh & Hlen & Hrows).
    exists X. rewrite Hsh. cbn [fst snd]. auto.
  - intros file_lines out. unfold create_polynomial_surface.
    destruct (read_points py_float file_lines) as [points|]; [|discriminate].
    cbn [bind]. intros Hfit.
    destruct (fit_points_inv np_sqrt lstsq points D out Hfit)
      as (Hne & X & c & HX & Hc & Hm).
    destruct (fit_points_outcome np_sqrt lstsq points D HD Hne)
      as (X' & HX' & Hsh & _).
    rewrite HX in HX'. apply Ok_inj in HX'. subst X'.
    exists points, X, c.
    split; [reflexivity|]. split; [exact Hne|]. split; [exact HX|].
    split; [exact Hsh|]. split; [exact Hc|].
    rewrite Hm. split; [reflexivity|].
    rewrite (Hsolver X _ c Hc), Hsh. exact HK.
  - intros file_lines points Hread Hne.
    destruct (fit_points_outcome np_sqrt lstsq points D HD Hne)
      as (X & HX & Hsh & Hraise & Hok).
    exists X. split; [exact HX|]. split; [exact Hsh|].
    unfold create_polynomial_surface. rewrite Hread. cbn [bind].
    split; [exact Hraise|].
    intros c Hc.
    assert (Hlen : length c = length (exponents D))
      by (rewrite (Hsolver X _ c Hc), Hsh; reflexivity).
    destruct (Hok c Hc) as (out & Hout & Hm); [rewrite Hlen; apply Nat.le_refl|].
    exists out. split; [exact Hout|]. rewrite Hm. split; [reflexivity|].
    rewrite Hlen. exact HK.
Qed.

Lemma lstsq_zero_rhs_run (X : Np.ndarray2) (z : list Q) :
  forallb (fun v => Qeq_bool v 0) z = true ->
  Lib.lstsq_zero_rhs X z = Ok (repeat 0 (snd (Np.shape X))).
Proof. intros H. unfold Lib.lstsq_zero_rhs. now rewrite H. Qed.

Lemma lstsq_zero_rhs_shape (X : Np.ndarray2) (z c : list Q) :
  Lib.lstsq_zero_rhs X z = Ok c -> length c = snd (Np.shape X).
Proof.
  unfold Lib.lstsq_zero_rhs.
  destruct (forallb _ z); [|discriminate].
  intros H. apply Ok_inj in H. subst c. apply repeat_length.
Qed.

Lemma lstsq_one_column_shape (X : Np.ndarray2) (z c : list Q) :
  Lib.lstsq_one_column X z = Ok c -> length c = snd (Np.shape X).
Proof.
  unfold Lib.lstsq_one_column.
  destruct (Nat.eqb_spec (snd (Np.shape X)) 1) as [E|]; [|discriminate].
  intros H. apply Ok_inj in H. subst c. now rewrite E.
Qed.

Lemma design_matrix_columns_witness :
  Z.of_nat (length (exponents 2)) = 6%Z
  /\ exists X out c,
       build_design_matrix
         (normalized Lib.sqrt_exact
                     (x_raw_of [ [0; 0; 0]; [2; 2; 0]; [0; 2; 0]; [2; 0; 0] ]))
         (normalized Lib.sqrt_exact
                     (y_raw_of [ [0; 0; 0]; [2; 2; 0]; [0; 2; 0]; [2; 0; 0] ]))
         2 = Ok X
       /\ Np.shape X = (4%nat, 6%nat)
       /\ create_polynomial_surface Lib.float_of_decimal Lib.sqrt_exact
                                    Lib.lstsq_zero_rhs
                                    [ "4"; "0 0 0"; "2 2 0"; "0 2 0"; "2 0 0" ] 2
          = Ok out
       /\ lookup (model out) "coeffs" = Ok (JArray c)
       /\ length c = 6%nat.
Proof.
  destruct (design_matrix_columns Lib.float_of_decimal Lib.sqrt_exact
              Lib.lstsq_zero_rhs 2 lstsq_zero_rhs_shape ltac:(lia))
    as (HK & _ & _ & _ & _ & Hrun).
  split; [exact HK|].
  destruct (Hrun [ "4"; "0 0 0"; "2 2 0"; "0 2 0"; "2 0 0" ]
                 [ [0; 0; 0]; [2; 2; 0]; [0; 2; 0]; [2; 0; 0] ])
    as (X & HX & Hsh & _ & Hok);
    [ vm_compute; reflexivity | discriminate | ].
  destruct (Hok (repeat 0 (snd (Np.shape X)))) as (out & Hout & Hc & Hlen);
    [ apply lstsq_zero_rhs_run; reflexivity | ].
  exists X, out, (repeat 0 (snd (Np.shape X))).
  split; [exact HX|]. split; [exact Hsh|]. split; [exact Hout|].
  split; [exact Hc|]. rewrite repeat_length, Hsh. reflexivity.
Defined.

(** C3, as amended.  The fit makes no test on the variance of the raw
    coordinates and knows no [DegenerateInputError]: on every non-empty
    point set, whether or not the coordinates of an axis coincide, it
    divides by the standard deviations, builds the design matrix and calls
    the solver.  When the solver raises, the fit fails with the solver's
    exception; when the solver returns [(D+1)(D+2)/2] coefficients, the fit
    returns a model, in which the standard deviations are stored as
    computed.  Over exact arithmetic the population variance of an axis
    whose raw coordinates all coincide is zero, and with a square root that
    maps zero to zero the stored standard deviation of that axis is zero.
    (In binary64 the mean of equal values can differ from them in the last
    place, and the stored deviation is then that residue and not zero, see
    [std_residue_in_binary64] below.  The entries of the matrix that come
    from a quotient by a zero deviation are [nan] in numpy and 0 here; the
    statement holds for every solver and does not depend on them.) *)
Theorem fit_has_no_variance_guard
        (np_sqrt : Q -> Q) (lstsq : Np.ndarray2 -> list Q -> result (list Q))
        (points : list (list Q)) (D : Z) :
  (0 <= D)%Z -> points <> [] ->
  (exists X,
      build_design_matrix (normalized np_sqrt (x_raw_of points))
                          (normalized np_sqrt (y_raw_of points)) D = Ok X
      /\ (forall e, lstsq X (z_of points) = Raise e ->
                    fit_points np_sqrt lstsq points D = Raise e)
      /\ (forall c, lstsq X (z_of points) = Ok c ->
                    Z.of_nat (length c) = ((D + 1) * (D + 2) / 2)%Z ->
                    exists out,
                      fit_points np_sqrt lstsq points D = Ok out
                      /\ lookup (model out) "coeffs" = Ok (JArray c)
                      /\ lookup (model out) "x_std"
                         = Ok (JFloat (std np_sqrt (x_raw_of points)))
                      /\ lookup (model out) "y_std"
                         = Ok (JFloat (std np_sqrt (y_raw_of points)))))
  /\ (forall v, (forall r, In r points -> nth 0 r 0 == v) ->
                Np.var (x_raw_of points) == 0
                /\ ((forall u, u == 0 -> np_sqrt u == 0) ->
                    std np_sqrt (x_raw_of points) == 0))
  /\ (forall v, (forall r, In r points -> nth 1 r 0 == v) ->
                Np.var (y_raw_of points) == 0
                /\ ((forall u, u == 0 -> np_sqrt u == 0) ->
                    std np_sqrt (y_raw_of points) == 0)).
Proof.
  intros HD Hne.
  assert (Hcol : forall k v, (forall r, In r points -> nth k r 0 == v) ->
                             Np.var (map (fun r => nth k r 0) points) == 0).
  { intros k v Hk. apply (var_constant v).
    - destruct points; [congruence|discriminate].
    - intros a Ha. apply in_map_iff in Ha. destruct Ha as (r & <- & Hr). auto. }
  split; [|split].
  - destruct (fit_points_outcome np_sqrt lstsq points D HD Hne)
      as (X & HX & _ & Hraise & Hok).
    exists X. split; [exact HX|]. split; [exact Hraise|].
    intros c Hc Hlen.
    destruct (Hok c Hc) as (out & Hout & Hm).
    { pose proof (exponents_length D HD). lia. }
    exists out. rewrite Hm. repeat split; auto.
  - intros v Hv. pose proof (Hcol 0%nat v Hv) as H0.
    split; [exact H0|]. intros Hsqrt. unfold std. now apply Hsqrt.
  - intros v Hv. pose proof (Hcol 1%nat v Hv) as H0.
    split; [exact H0|]. intros Hsqrt. unfold std. now apply Hsqrt.
Qed.

(** A run whose file parses, on whose design matrix the solver returns
    enough coefficients, ends with the model of those coefficients. *)
Lemma run_of_solution (py_float : string -> option Q) (np_sqrt : Q -> Q)
      (lstsq : Np.ndarray2 -> list Q -> result (list Q))
      (file_lines : list string) (points : list (list Q)) (D : Z)
      (X : Np.ndarray2) (c : list Q) :
  read_points py_float file_lines = Ok points ->
  points <> [] -> (0 <= D)%Z ->
  build_design_matrix (normalized np_sqrt (x_raw_of points))
                      (normalized np_sqrt (y_raw_of points)) D = Ok X ->
  lstsq X (z_of points) = Ok c ->
  (length (exponents D) <= length c)%nat ->
  exists out,
    create_polynomial_surface py_float np_sqrt lstsq file_lines D = Ok out
    /\ model out = fitted_model np_sqrt points D c.
Proof.
  intros Hread Hne HD HX Hc Hlen.
  destruct (fit_points_outcome np_sqrt lstsq points D HD Hne)
    as (X' & HX' & _ & _ & Hok).
  rewrite HX in HX'. apply Ok_inj in HX'. subst X'.
  unfold create_polynomial_surface. rewrite Hread. cbn [bind].
  now apply Hok.
Qed.

Lemma sqrt_exact_zero (u : Q) : u == 0 -> Lib.sqrt_exact u == 0.
Proof.
  intros H. unfold Lib.sqrt_exact.
  assert (E : Qred u = 0) by (apply Qred_complete in H; exact H).
  rewrite E. reflexivity.
Qed.

Lemma fit_has_no_variance_guard_witness :
  exists out,
    fit_points Lib.sqrt_exact Lib.lstsq_one_column
               [ [1; 0; 5]; [1; 2; 7] ] 0 = Ok out
    /\ lookup (model out) "x_std"
       = Ok (JFloat (std Lib.sqrt_exact (x_raw_of [ [1; 0; 5]; [1; 2; 7] ])))
    /\ Np.var (x_raw_of [ [1; 0; 5]; [1; 2; 7] ]) == 0
    /\ std Lib.sqrt_exact (x_raw_of [ [1; 0; 5]; [1; 2; 7] ]) == 0.
Proof.
  destruct (fit_has_no_variance_guard Lib.sqrt_exact Lib.lstsq_one_column
              [ [1; 0; 5]; [1; 2; 7] ] 0 ltac:(lia) ltac:(discriminate))
    as ((X & HX & _ & Hok) & Hx & _).
  vm_compute in HX. apply Ok_inj in HX. subst X.
  destruct (Hok [ 12 # 2 ]) as (out & Hout & _ & Hs & _);
    [ vm_compute; reflexivity | reflexivity | ].
  destruct (Hx 1) as [Hvar Hstd];
    [ intros r [<-|[<-|[]]]; reflexivity | ].
  exists out. split; [exact Hout|]. split; [exact Hs|].
  split; [exact Hvar | exact (Hstd sqrt_exact_zero)].
Defined.

(** C3, as stated, fails: the two points (1, 0, 5) and (1, 2, 7) share
    their x-coordinate, so the standard deviation of x is zero.  At degree 0
    the only column of the design matrix is [x**0 * y**0], the column of
    ones whatever the normalized coordinates are ([nan ** 0] is 1 in numpy
    as well); the least-squares solution is the mean 6 of the z values, and
    the run ends with a model whose [x_std] is 0: no error is raised. *)
Lemma degenerate_fit_returns_model :
  exists out c s,
    create_polynomial_surface Lib.float_of_decimal Lib.sqrt_exact
                              Lib.lstsq_one_column
                              [ "2"; "1 0 5"; "1 2 7" ] 0 = Ok out
    /\ lookup (model out) "coeffs" = Ok (JArray [c]) /\ c == 6
    /\ lookup (model out) "x_std" = Ok (JFloat s) /\ s == 0
    /\ Np.var [1; 1] == 0.
Proof.
  destruct (run_of_solution Lib.float_of_decimal Lib.sqrt_exact
              Lib.lstsq_one_column [ "2"; "1 0 5"; "1 2 7" ]
              [ [1; 0; 5]; [1; 2; 7] ] 0
              {| Np.shape := (2%nat, 1%nat); Np.rows := [ [1]; [1] ] |}
              [ 12 # 2 ])
    as (out & Hout & Hm);
    [ vm_compute; reflexivity | discriminate | lia
    | vm_compute; reflexivity | vm_compute; reflexivity | vm_compute; lia | ].
  exists out, (12 # 2), (Lib.sqrt_exact (Np.var [1; 1])).
  split; [exact Hout|]. rewrite Hm.
  split; [reflexivity|]. split; [reflexivity|].
  split; [reflexivity|]. split; vm_compute; reflexivity.
Qed.

(** In binary64 the mean of equal values need not be that value: for
    [0.1, 0.1, 0.1] the sum [0.30000000000000004] divided by 3 is
    [0.10000000000000002], one unit in the last place above [0.1], so the
    variance numpy computes is [2^-112] and the standard deviation it stores
    is [2^-56], about [1.39e-17], not zero.  For [1.0, 1.0] the mean is exact
    and the variance is zero. *)
Lemma std_residue_in_binary64 :
  let x := B64.round (1 # 10) in
  B64.mean [x; x; x] == x + B64.pow2 (-56)
  /\ B64.var [x; x; x] == B64.pow2 (-112)
  /\ ~ B64.var [x; x; x] == 0
  /\ B64.var [1; 1] == 0.
Proof.
  cbv zeta. split; [vm_compute; reflexivity|].
  split; [vm_compute; reflexivity|].
  split; [vm_compute; discriminate|vm_compute; reflexivity].
Qed.

Lemma model_round_trip_witness :
  exists out m,
    create_polynomial_surface Lib.float_of_decimal Lib.sqrt_exact
                              Lib.lstsq_one_column
                              [ "2"; "0 0 5"; "2 2 7" ] 0 = Ok out
    /\ load_model (model out) = Ok m
    /\ order m = 0%Z.
Proof.
  destruct (run_of_solution Lib.float_of_decimal Lib.sqrt_exact
              Lib.lstsq_one_column [ "2"; "0 0 5"; "2 2 7" ]
              [ [0; 0; 5]; [2; 2; 7] ] 0
              {| Np.shape := (2%nat, 1%nat); Np.rows := [ [1]; [1] ] |}
              [ 12 # 2 ])
    as (out & Hout & _);
    [ vm_compute; reflexivity | discriminate | lia
    | vm_compute; reflexivity | vm_compute; reflexivity | vm_compute; lia | ].
  destruct (model_round_trip 0 [] 0 0 0 0 0 0 0 0) as (_ & _ & H).
  destruct (H _ _ _ _ out Hout) as (c & xm & xs & ym & ys & x0 & x1 & y0 & y1 & E).
  exists out. eexists. split; [exact Hout|]. rewrite E.
  split; [apply (model_round_trip 0 c xm xs ym ys x0 x1 y0 y1)|reflexivity].
Defined.

Lemma short_rows_are_skipped_witness :
  read_points Lib.float_of_decimal [ "3"; "1 2 3"; "4 5"; "7 8 9" ]
  = read_points Lib.float_of_decimal
                ("3" :: filter kept [ "1 2 3"; "4 5"; "7 8 9" ]).
Proof.
  apply (short_rows_are_skipped Lib.float_of_decimal "3"
           [ "1 2 3"; "4 5"; "7 8 9" ]).
Defined.

(** ** The mesh of a run *)

Local Close Scope Q_scope.
Local Close Scope string_scope.



(** * Further properties of the scripts *)

Local Open Scope Q_scope.

(** ** The generated grid *)

Lemma min_ge (lo u hi : Q) : lo <= u -> lo <= hi -> lo <= Py.min u hi.
Proof. intros H1 H2. unfold Py.min. now destruct (ltb hi u). Qed.

Lemma min_le_l (a b : Q) : Py.min a b <= a.
Proof.
  unfold Py.min. destruct (ltb b a) eqn:E.
  - apply ltb_true in E. lra.
  - lra.
Qed.

(** With positive steps the loop variable only grows. *)
Lemma chain_lower (step : Q -> Q) (hi : Q) (its : list Q) :
  (forall v, 0 < step v) ->
  forall v, chain step hi v its -> Forall (fun u => v <= u) its.
Proof.
  intros Hstep. induction its as [|u its IH]; intros v Hc; constructor.
  - destruct Hc as (-> & _). lra.
  - destruct Hc as (-> & _ & Hc). specialize (IH _ Hc).
    eapply Forall_impl; [|exact IH]. intros w Hw. cbv beta in Hw.
    specialize (Hstep v). lra.
Qed.

(** A run that returned arrays passed the pitch test. *)
Lemma pitches_of_result (fuel : nat) (domain : Q * Q * Q * Q)
      (p_start p_end p_y : Q) (include_edges : bool) (r : list Q * list Q) :
  generate_points fuel domain p_start p_end p_y include_edges = Some (Ok r) ->
  0 < p_start /\ 0 < p_end /\ 0 < p_y.
Proof.
  destruct domain as [[[x_min x_max] y_min] y_max]. unfold generate_points.
  destruct (leb p_start 0) eqn:E1; [discriminate|].
  destruct (leb p_end 0) eqn:E2; [discriminate|].
  destruct (leb p_y 0) eqn:E3; [discriminate|].
  intros _. apply leb_false in E1, E2, E3. auto.
Qed.

Lemma rows_loop_inv (fuel : nat) (x_min x_max p_start p_end : Q)
      (include_edges : bool) (ys X0 Y0 X Y : list Q) :
  rows_loop fuel x_min x_max p_start p_end include_edges ys X0 Y0
  = Some (Ok (X, Y)) ->
  match ys with
  | [] => X = X0 /\ Y = Y0
  | _ :: _ =>
      exists row0 row,
        row_loop fuel x_min x_max p_start p_end x_min [] = Some row0
        /\ force_edge include_edges row0 x_max = Ok row
        /\ X = X0 ++ concat (map (fun _ => row) ys)
        /\ Y = Y0 ++ concat (map (fun yy => repeat yy (length row)) ys)
  end.
Proof.
  destruct ys as [|yy ys].
  - cbn [rows_loop]. intros H. inversion H. auto.
  - intros H.
    assert (H' := H). cbn [rows_loop] in H'.
    destruct (row_loop fuel x_min x_max p_start p_end x_min [])
      as [row0|] eqn:E1; [|discriminate].
    destruct (force_edge include_edges row0 x_max) as [row|] eqn:E2;
      [|discriminate].
    rewrite (rows_loop_value fuel x_min x_max p_start p_end include_edges
               row0 row E1 E2) in H.
    inversion H. exists row0, row. auto.
Qed.

(** The shape of every successful run: the ordinates [ys], and one and the
    same [row] of abscissae repeated for each of them. *)
Lemma generate_points_inv (fuel : nat) (x_min x_max y_min y_max : Q)
      (p_start p_end p_y : Q) (include_edges : bool) (X Y : list Q) :
  generate_points fuel (x_min, x_max, y_min, y_max) p_start p_end p_y
                  include_edges = Some (Ok (X, Y)) ->
  exists ys0 ys,
    ys_loop fuel y_max p_y y_min [] = Some ys0
    /\ force_edge include_edges ys0 y_max = Ok ys
    /\ match ys with
       | [] => X = [] /\ Y = []
       | _ :: _ =>
           exists row0 row,
             row_loop fuel x_min x_max p_start p_end x_min [] = Some row0
             /\ force_edge include_edges row0 x_max = Ok row
             /\ X = concat (map (fun _ => row) ys)
             /\ Y = concat (map (fun yy => repeat yy (length row)) ys)
       end.
Proof.
  unfold generate_points.
  destruct (leb p_start 0 || leb p_end 0 || leb p_y 0); [discriminate|].
  destruct (ys_loop fuel y_max p_y y_min []) as [ys0|]; [|discriminate].
  destruct (force_edge include_edges ys0 y_max) as [ys|] eqn:E; [|discriminate].
  intros H. exists ys0, ys. split; [reflexivity|]. split; [exact E|].
  apply rows_loop_inv in H. destruct ys; exact H.
Qed.

(** What a loop and its edge statement leave in the list. *)
Lemma walk_edge_within (fuel : nat) (step : Q -> Q) (lo hi : Q)
      (include_edges : bool) (out out' : list Q) :
  (forall v, 0 < step v) -> lo <= hi ->
  walk fuel step hi lo [] = Some out ->
  force_edge include_edges out hi = Ok out' ->
  within lo hi out' /\ out' <> [].
Proof.
  intros Hstep Hlo Hw He.
  destruct (walk_iterates step hi fuel lo [] out Hw) as (its & -> & Hc & Hne).
  destruct Hne as [its' ->]; [unfold eps; lra|].
  pose proof (chain_lower step hi _ Hstep lo Hc) as Hlow.
  cbn [app] in *.
  assert (Hin : within lo hi (map (fun u => Py.min u hi) (lo :: its'))).
  { unfold within. apply Forall_forall. intros u Hu.
    apply in_map_iff in Hu. destruct Hu as (w & <- & Hw').
    rewrite Forall_forall in Hlow. specialize (Hlow w Hw').
    split; [now apply min_ge | apply min_le_r]. }
  destruct (force_edge_cases _ _ _ _ He) as [->| ->].
  - split; [exact Hin | discriminate].
  - split.
    + unfold within in *. apply Forall_app. split; [exact Hin|].
      constructor; [lra | constructor].
    + discriminate.
Qed.

Lemma within_concat_const (lo hi : Q) (row : list Q) (ys : list Q) :
  within lo hi row -> within lo hi (concat (map (fun _ => row) ys)).
Proof.
  intros H. unfold within in *. induction ys as [|yy ys IH]; simpl.
  - constructor.
  - apply Forall_app. auto.
Qed.

Lemma within_concat_repeat (lo hi : Q) (n : nat) (ys : list Q) :
  within lo hi ys -> within lo hi (concat (map (fun yy => repeat yy n) ys)).
Proof.
  unfold within. induction 1 as [|yy ys Hy Hys IH]; simpl.
  - constructor.
  - apply Forall_app. split; [|exact IH].
    apply Forall_forall. intros u Hu. apply repeat_spec in Hu. now subst.
Qed.

Lemma length_concat_rows (row ys : list Q) :
  length (concat (map (fun _ : Q => row) ys))
  = length (concat (map (fun yy : Q => repeat yy (length row)) ys)).
Proof.
  induction ys as [|yy ys IH]; simpl; auto.
  now rewrite !length_app, repeat_length, IH.
Qed.

(** X1.  On a domain with [x_min <= x_max] and [y_min <= y_max], whenever
    [generate_points] returns its two arrays they are non-empty, of equal
    length, every abscissa lies in [[x_min, x_max]] and every ordinate in
    [[y_min, y_max]]: no generated point leaves the domain. *)
Theorem generated_points_in_domain
        (fuel : nat) (x_min x_max y_min y_max p_start p_end p_y : Q)
        (include_edges : bool) (X Y : list Q) :
  x_min <= x_max -> y_min <= y_max ->
  generate_points fuel (x_min, x_max, y_min, y_max) p_start p_end p_y
                  include_edges = Some (Ok (X, Y)) ->
  length X = length Y
  /\ X <> []
  /\ within x_min x_max X
  /\ within y_min y_max Y.
Proof.
  intros Hx Hy Hrun.
  destruct (pitches_of_result _ _ _ _ _ _ _ Hrun) as (Hs & He & Hpy).
  destruct (generate_points_inv _ _ _ _ _ _ _ _ _ _ _ Hrun)
    as (ys0 & ys & Eys0 & Eys & Hrows).
  rewrite ys_loop_walk in Eys0.
  destruct (walk_edge_within fuel _ y_min y_max include_edges ys0 ys
              (fun _ => Hpy) Hy Eys0 Eys) as [Wy Ny].
  destruct ys as [|yy ys']; [congruence|].
  destruct Hrows as (row0 & row & Erow0 & Erow & -> & ->).
  rewrite row_loop_walk in Erow0.
  assert (Hpos : forall x, 0 < linear_pitch_x x x_min x_max p_start p_end).
  { intros x. pose proof (linear_pitch_x_lower x x_min x_max p_start p_end).
    pose proof (min_pos _ _ Hs He). lra. }
  destruct (walk_edge_within fuel _ x_min x_max include_edges row0 row
              Hpos Hx Erow0 Erow) as [Wx Nx].
  split; [apply length_concat_rows|]. split.
  - destruct row; [congruence|]. discriminate.
  - split; [now apply within_concat_const | now apply within_concat_repeat].
Qed.

Lemma generated_points_in_domain_witness :
  exists X Y,
    generate_points 8 (0, 10, 0, 3) 2 5 1 true = Some (Ok (X, Y))
    /\ length X = length Y
    /\ X <> []
    /\ within 0 10 X
    /\ within 0 3 Y.
Proof.
  do 2 eexists. split; [vm_compute; reflexivity|].
  apply (generated_points_in_domain 8 0 10 0 3 2 5 1 true);
    [discriminate | discriminate | vm_compute; reflexivity].
Defined.

Lemma chain_increasing (step : Q -> Q) (hi : Q) (its : list Q) (v : Q) :
  (forall x, 0 < step x) -> chain step hi v its ->
  forall k u w,
    nth_error its k = Some u -> nth_error its (S k) = Some w -> u < w.
Proof.
  intros Hstep Hc k u w Hu Hw.
  rewrite (chain_consecutive step hi its v k u w Hc Hu Hw).
  specialize (Hstep u). lra.
Qed.

Lemma ascending_app_edge (hi : Q) (l : list Q) :
  ascending hi l -> Forall (fun u => u <= hi) l -> ascending hi (l ++ [hi]).
Proof.
  intros Hl Hall k a b Ha Hb.
  destruct (Nat.lt_ge_cases (S k) (length l)) as [L|L].
  - rewrite nth_error_app1 in Ha, Hb by lia. now apply (Hl k).
  - rewrite nth_error_app2 in Hb by lia.
    destruct (S k - length l)%nat as [|[|m]] eqn:E; simpl in Hb;
      try discriminate.
    inversion Hb; subst b.
    rewrite nth_error_app1 in Ha by lia.
    apply nth_error_In in Ha. rewrite Forall_forall in Hall.
    specialize (Hall a Ha). split; auto.
Qed.

(** The list a loop and its edge statement build is in ascending order. *)
Lemma walk_edge_ascending (fuel : nat) (step : Q -> Q) (lo hi : Q)
      (include_edges : bool) (out out' : list Q) :
  (forall v, 0 < step v) ->
  walk fuel step hi lo [] = Some out ->
  force_edge include_edges out hi = Ok out' ->
  ascending hi out'.
Proof.
  intros Hstep Hw He.
  destruct (walk_iterates step hi fuel lo [] out Hw) as (its & -> & Hc & _).
  cbn [app] in *.
  assert (Hasc : ascending hi (map (fun u => Py.min u hi) its)).
  { intros k a b Ha Hb. rewrite nth_error_map in Ha, Hb.
    destruct (nth_error its k) as [u|] eqn:Eu; [|discriminate].
    destruct (nth_error its (S k)) as [w|] eqn:Ew; [|discriminate].
    cbn [option_map] in Ha, Hb. inversion Ha; inversion Hb; subst a b.
    pose proof (chain_increasing step hi its lo Hstep Hc k u w Eu Ew) as Huw.
    pose proof (min_le_l u hi). pose proof (min_le_r u hi).
    split.
    - apply min_ge; [|assumption]. lra.
    - intros Hlt. destruct (min_below _ _ Hlt) as [-> Hu].
      unfold Py.min. destruct (ltb hi w); lra. }
  assert (Hall : Forall (fun u => u <= hi) (map (fun u => Py.min u hi) its)).
  { apply Forall_forall. intros u Hu. apply in_map_iff in Hu.
    destruct Hu as (w & <- & _). apply min_le_r. }
  destruct (force_edge_cases _ _ _ _ He) as [->| ->]; auto.
  now apply ascending_app_edge.
Qed.

(** X2.  Whenever [generate_points] returns, its output is one and the same
    row of abscissae repeated once per ordinate; the row and the list of
    ordinates are in ascending order, strictly so from every entry below
    the upper bound. *)
Theorem generated_rows_ascending
        (fuel : nat) (x_min x_max y_min y_max p_start p_end p_y : Q)
        (include_edges : bool) (X Y : list Q) :
  generate_points fuel (x_min, x_max, y_min, y_max) p_start p_end p_y
                  include_edges = Some (Ok (X, Y)) ->
  exists ys row,
    X = concat (map (fun _ => row) ys)
    /\ Y = concat (map (fun yy => repeat yy (length row)) ys)
    /\ ascending x_max row
    /\ ascending y_max ys.
Proof.
  intros Hrun.
  destruct (pitches_of_result _ _ _ _ _ _ _ Hrun) as (Hs & He & Hpy).
  destruct (generate_points_inv _ _ _ _ _ _ _ _ _ _ _ Hrun)
    as (ys0 & ys & Eys0 & Eys & Hrows).
  rewrite ys_loop_walk in Eys0.
  pose proof (walk_edge_ascending fuel _ y_min y_max include_edges ys0 ys
                (fun _ => Hpy) Eys0 Eys) as Ay.
  destruct ys as [|yy ys'].
  - destruct Hrows as [-> ->]. exists [], [].
    split; [reflexivity|]. split; [reflexivity|]. split; [|exact Ay].
    intros [|k] a b Ha; discriminate.
  - destruct Hrows as (row0 & row & Erow0 & Erow & -> & ->).
    rewrite row_loop_walk in Erow0.
    assert (Hpos : forall x, 0 < linear_pitch_x x x_min x_max p_start p_end).
    { intros x. pose proof (linear_pitch_x_lower x x_min x_max p_start p_end).
      pose proof (min_pos _ _ Hs He). lra. }
    exists (yy :: ys'), row.
    split; [reflexivity|]. split; [reflexivity|]. split; [|exact Ay].
    exact (walk_edge_ascending fuel _ x_min x_max include_edges row0 row
             Hpos Erow0 Erow).
Qed.

Lemma generated_rows_ascending_witness :
  exists ys row,
    generate_points 8 (0, 10, 0, 3) 2 5 1 true
    = Some (Ok (concat (map (fun _ => row) ys),
                concat (map (fun yy => repeat yy (length row)) ys)))
    /\ ascending 10 row
    /\ ascending 3 ys.
Proof.
  assert (E : exists X Y,
             generate_points 8 (0, 10, 0, 3) 2 5 1 true = Some (Ok (X, Y)))
    by (do 2 eexists; vm_compute; reflexivity).
  destruct E as (X & Y & E).
  destruct (generated_rows_ascending 8 0 10 0 3 2 5 1 true X Y E)
    as (ys & row & -> & -> & Hr & Hy).
  exists ys, row. auto.
Defined.




(** ** The pitch profile *)

Lemma maximum_ge_l (a b : Q) : a <= Np.maximum a b.
Proof.
  unfold Np.maximum. destruct (ltb a b) eqn:E; [|lra].
  apply ltb_true in E. lra.
Qed.

Lemma maximum_ge_r (a b : Q) : b <= Np.maximum a b.
Proof.
  unfold Np.maximum. destruct (ltb a b) eqn:E; [lra|].
  now apply ltb_false in E.
Qed.

(** X4.  Over exact arithmetic, whatever the position and the domain, the
    pitch [linear_pitch_x] returns lies between the smaller and the larger
    of the two end pitches.  In binary64 the value can miss either bound by
    one unit in the last place: [linear_pitch_x(0.65, 0, 10, 0.1, 0.1)] is
    [0.10000000000000002], above both end pitches, and
    [linear_pitch_x(1.75, 0, 10, 0.7, 0.7)] is [0.6999999999999998], below
    both. *)
Theorem pitch_between_end_pitches (x x_min x_max p_start p_end : Q) :
  (Py.min p_start p_end <= linear_pitch_x x x_min x_max p_start p_end
   /\ linear_pitch_x x x_min x_max p_start p_end <= Np.maximum p_start p_end)
  /\ (let p := B64.round (1 # 10) in
      Np.maximum p p
      < linear_pitch_x_fl B64.round (B64.round (65 # 100)) 0 10 p p)
  /\ (let p := B64.round (7 # 10) in
      linear_pitch_x_fl B64.round (B64.round (175 # 100)) 0 10 p p
      < Py.min p p).
Proof.
  split; [|split; vm_compute; reflexivity].
  split; [apply linear_pitch_x_lower|].
  pose proof (maximum_ge_l p_start p_end) as Hs.
  pose proof (maximum_ge_r p_start p_end) as He.
  unfold linear_pitch_x. destruct (eqb x_max x_min); [exact Hs|].
  cbv zeta.
  pose proof (clip_unit_bounds ((x - x_min) / (x_max - x_min))) as [H0 H1].
  set (t := Np.clip _ 0 1) in *. set (m := Np.maximum p_start p_end) in *.
  nra.
Qed.

Lemma clamp_mono (v w : Q) : v <= w -> clamp v 0 1 <= clamp w 0 1.
Proof.
  intros H. unfold clamp.
  destruct (Qlt_le_dec v 0), (Qlt_le_dec w 0), (Qlt_le_dec 1 v),
    (Qlt_le_dec 1 w); lra.
Qed.

Lemma clamp_low (v : Q) : v <= 0 -> clamp v 0 1 == 0.
Proof.
  intros H. unfold clamp.
  destruct (Qlt_le_dec v 0), (Qlt_le_dec 1 v); lra.
Qed.

Lemma clamp_high (v : Q) : 1 <= v -> clamp v 0 1 == 1.
Proof.
  intros H. unfold clamp.
  destruct (Qlt_le_dec v 0), (Qlt_le_dec 1 v); lra.
Qed.

Lemma div_le_compat (a b d : Q) : 0 < d -> a <= b -> a / d <= b / d.
Proof.
  intros Hd H. unfold Qdiv. apply Qmult_le_compat_r; [exact H|].
  apply Qlt_le_weak, Qinv_lt_0_compat, Hd.
Qed.

(** X5.  Over exact arithmetic, on a domain of positive width the pitch is
    [p_start] at and to the left of [x_min], [p_end] at and to the right of
    [x_max], and in between it moves monotonically from the one to the
    other.  In binary64 the monotonicity can fail by one unit in the last
    place: with the pitches 2.0 and 2.1 on the domain [[0, 10]] the pitch at
    [4.954350870919409] is [2.049543508709194], and at the next float,
    [4.95435087091941], it is [2.0495435087091938]. *)
Theorem pitch_profile_endpoints (x_min x_max p_start p_end : Q) :
  x_min < x_max ->
  (forall x, x <= x_min ->
             linear_pitch_x x x_min x_max p_start p_end == p_start)
  /\ (forall x, x_max <= x ->
                linear_pitch_x x x_min x_max p_start p_end == p_end)
  /\ (p_start <= p_end ->
      forall x x', x <= x' ->
        linear_pitch_x x x_min x_max p_start p_end
        <= linear_pitch_x x' x_min x_max p_start p_end)
  /\ (p_end <= p_start ->
      forall x x', x <= x' ->
        linear_pitch_x x' x_min x_max p_start p_end
        <= linear_pitch_x x x_min x_max p_start p_end)
  /\ (let x := B64.round (4954350870919409 # 1000000000000000) in
      let x' := B64.round (495435087091941 # 100000000000000) in
      let p_end := B64.round (21 # 10) in
      x < x'
      /\ linear_pitch_x_fl B64.round x' 0 10 2 p_end
         < linear_pitch_x_fl B64.round x 0 10 2 p_end).
Proof.
  intros Hd.
  assert (Hw : 0 < x_max - x_min) by lra.
  assert (Hmono : forall x x', x <= x' ->
            clamp ((x - x_min) / (x_max - x_min)) 0 1
            <= clamp ((x' - x_min) / (x_max - x_min)) 0 1).
  { intros x x' H. apply clamp_mono, div_le_compat; [exact Hw | lra]. }
  split; [|split; [|split; [|split]]].
  - intros x Hx. rewrite (linear_pitch_x_formula _ _ _ _ _ Hd).
    rewrite clamp_low; [ring|].
    assert (E : 0 / (x_max - x_min) == 0) by (unfold Qdiv; ring).
    rewrite <- E. apply div_le_compat; [exact Hw | lra].
  - intros x Hx. rewrite (linear_pitch_x_formula _ _ _ _ _ Hd).
    rewrite clamp_high; [ring|].
    assert (E : (x_max - x_min) / (x_max - x_min) == 1) by (field; lra).
    rewrite <- E. apply div_le_compat; [exact Hw | lra].
  - intros Hp x x' H.
    rewrite !(linear_pitch_x_formula _ _ _ _ _ Hd).
    specialize (Hmono x x' H).
    set (t := clamp _ 0 1) in *. set (t' := clamp _ 0 1) in *. nra.
  - intros Hp x x' H.
    rewrite !(linear_pitch_x_formula _ _ _ _ _ Hd).
    specialize (Hmono x x' H).
    set (t := clamp _ 0 1) in *. set (t' := clamp _ 0 1) in *. nra.
  - cbv zeta. split; vm_compute; reflexivity.
Qed.

Lemma pitch_profile_endpoints_witness :
  linear_pitch_x 0 0 10 2 5 == 2 /\ linear_pitch_x 10 0 10 2 5 == 5.
Proof.
  destruct (pitch_profile_endpoints 0 10 2 5) as (Hl & Hr & _);
    [reflexivity|].
  split; [apply Hl | apply Hr]; discriminate.
Defined.

(** ** Equal end pitches *)

Lemma linear_pitch_x_uniform (x x_min x_max p : Q) :
  linear_pitch_x x x_min x_max p p == p.
Proof.
  unfold linear_pitch_x. destruct (eqb x_max x_min); [reflexivity|].
  cbv zeta. ring.
Qed.

Lemma chain_uniform (step : Q -> Q) (hi p : Q) (its : list Q) :
  (forall v, step v == p) ->
  forall v k u,
    chain step hi v its -> nth_error its k = Some u ->
    u == v + inject_Z (Z.of_nat k) * p.
Proof.
  intros Hstep. induction its as [|w its IH]; intros v [|k] u Hc Hu;
    try discriminate.
  - destruct Hc as (-> & _). inversion Hu; subst u.
    change (inject_Z (Z.of_nat 0)) with 0. ring.
  - destruct Hc as (_ & _ & Hc). cbn [nth_error] in Hu.
    rewrite (IH _ _ _ Hc Hu), inject_succ, (Hstep v). ring.
Qed.

(** With a constant step the entries below the bound are equally spaced. *)
Lemma walk_edge_regular (fuel : nat) (step : Q -> Q) (lo hi p : Q)
      (include_edges : bool) (out out' : list Q) :
  (forall v, step v == p) ->
  walk fuel step hi lo [] = Some out ->
  force_edge include_edges out hi = Ok out' ->
  forall k a, nth_error out' k = Some a -> a < hi ->
              a == lo + inject_Z (Z.of_nat k) * p.
Proof.
  intros Hstep Hw He k a Ha Hlt.
  destruct (walk_iterates step hi fuel lo [] out Hw) as (its & -> & Hc & _).
  cbn [app] in *.
  assert (Hin : forall a, nth_error (map (fun u => Py.min u hi) its) k = Some a ->
                          a < hi -> a == lo + inject_Z (Z.of_nat k) * p).
  { intros a' Ha' Hlt'. rewrite nth_error_map in Ha'.
    destruct (nth_error its k) as [u|] eqn:Eu; [|discriminate].
    cbn [option_map] in Ha'. inversion Ha'; subst a'.
    destruct (min_below _ _ Hlt') as [-> _].
    exact (chain_uniform step hi p its Hstep lo k u Hc Eu). }
  destruct (force_edge_cases _ _ _ _ He) as [->| ->]; [now apply Hin|].
  destruct (Nat.lt_ge_cases k (length (map (fun u => Py.min u hi) its)))
    as [L|L].
  - rewrite nth_error_app1 in Ha by exact L. now apply Hin.
  - rewrite nth_error_app2 in Ha by exact L.
    destruct (k - _)%nat as [|m]; cbn [nth_error] in Ha.
    + inversion Ha; subst a. lra.
    + destruct m; discriminate.
Qed.

(** X6.  With equal end pitches [p_start = p_end = p] the generated grid is
    regular: the [k]-th abscissa of the row, when below [x_max], is
    [x_min + k * p], and the [k]-th ordinate, when below [y_max], is
    [y_min + k * p_y]. *)
Theorem uniform_pitch_regular_grid
        (fuel : nat) (x_min x_max y_min y_max p p_y : Q)
        (include_edges : bool) (X Y : list Q) :
  generate_points fuel (x_min, x_max, y_min, y_max) p p p_y include_edges
  = Some (Ok (X, Y)) ->
  exists ys row,
    X = concat (map (fun _ => row) ys)
    /\ Y = concat (map (fun yy => repeat yy (length row)) ys)
    /\ (forall k a, nth_error row k = Some a -> a < x_max ->
                    a == x_min + inject_Z (Z.of_nat k) * p)
    /\ (forall k b, nth_error ys k = Some b -> b < y_max ->
                    b == y_min + inject_Z (Z.of_nat k) * p_y).
Proof.
  intros Hrun.
  destruct (generate_points_inv _ _ _ _ _ _ _ _ _ _ _ Hrun)
    as (ys0 & ys & Eys0 & Eys & Hrows).
  rewrite ys_loop_walk in Eys0.
  pose proof (walk_edge_regular fuel _ y_min y_max p_y include_edges ys0 ys
                (fun _ => Qeq_refl p_y) Eys0 Eys) as Ry.
  destruct ys as [|yy ys'].
  - destruct Hrows as [-> ->]. exists [], [].
    split; [reflexivity|]. split; [reflexivity|]. split; [|exact Ry].
    intros [|k] a Ha; discriminate.
  - destruct Hrows as (row0 & row & Erow0 & Erow & -> & ->).
    rewrite row_loop_walk in Erow0.
    exists (yy :: ys'), row.
    split; [reflexivity|]. split; [reflexivity|]. split; [|exact Ry].
    exact (walk_edge_regular fuel _ x_min x_max p include_edges row0 row
             (fun x => linear_pitch_x_uniform x x_min x_max p) Erow0 Erow).
Qed.

Lemma uniform_pitch_regular_grid_witness :
  exists ys row,
    generate_points 8 (0, 5, 0, 3) 2 2 1 true
    = Some (Ok (concat (map (fun _ => row) ys),
                concat (map (fun yy => repeat yy (length row)) ys)))
    /\ (forall k a, nth_error row k = Some a -> a < 5 ->
                    a == 0 + inject_Z (Z.of_nat k) * 2)
    /\ (forall k b, nth_error ys k = Some b -> b < 3 ->
                    b == 0 + inject_Z (Z.of_nat k) * 1).
Proof.
  assert (E : exists X Y,
             generate_points 8 (0, 5, 0, 3) 2 2 1 true = Some (Ok (X, Y)))
    by (do 2 eexists; vm_compute; reflexivity).
  destruct E as (X & Y & E).
  destruct (uniform_pitch_regular_grid 8 0 5 0 3 2 1 true X Y E)
    as (ys & row & -> & -> & Hr & Hy).
  exists ys, row. auto.
Defined.

(** ** The evaluators and the coefficient vector *)

(** X7.  With a coefficient vector shorter than the [(D+1)(D+2)/2] exponent
    pairs of the degree, both evaluators raise [IndexError], at the first
    pair that has no coefficient. *)
Theorem short_coefficients_raise (coeffs x y : list Q) (D : Z) :
  (0 <= D)%Z -> length x = length y ->
  (Z.of_nat (length coeffs) < (D + 1) * (D + 2) / 2)%Z ->
  evaluate_fitted_surface coeffs x y D = Raise IndexError
  /\ A_2.eval_poly2d coeffs x y D = Raise IndexError.
Proof.
  intros HD _ Hlen.
  assert (Hes : (length coeffs < length (exponents D))%nat).
  { pose proof (exponents_length D HD). lia. }
  rewrite evaluate_fitted_surface_loop, eval_poly2d_loop.
  pose proof (eval_body_short x y (exponents D) [] coeffs (Np.zeros_like x) Hes)
    as E.
  cbn [app length] in E. rewrite E. split; reflexivity.
Qed.

Lemma short_coefficients_raise_witness :
  evaluate_fitted_surface [1; 2] [1] [1] 1 = Raise IndexError
  /\ A_2.eval_poly2d [1; 2] [1] [1] 1 = Raise IndexError.
Proof.
  apply (short_coefficients_raise [1; 2] [1] [1] 1);
    [lia | reflexivity | reflexivity].
Defined.

Lemma combine_app_short {A B : Type} (es : list B) :
  forall (cs more : list A),
    (length es <= length cs)%nat -> combine (cs ++ more) es = combine cs es.
Proof.
  induction es as [|e es IH]; intros cs more H.
  - destruct cs, more; reflexivity.
  - destruct cs as [|c cs]; [simpl in H; lia|].
    simpl. f_equal. apply IH. simpl in H. lia.
Qed.

(** X8.  Coefficients beyond the [(D+1)(D+2)/2] the degree needs are never
    read: appending any to the vector changes the result of neither
    evaluator. *)
Theorem surplus_coefficients_ignored (coeffs more x y : list Q) (D : Z) :
  (0 <= D)%Z -> length x = length y ->
  ((D + 1) * (D + 2) / 2 <= Z.of_nat (length coeffs))%Z ->
  evaluate_fitted_surface (coeffs ++ more) x y D
  = evaluate_fitted_surface coeffs x y D
  /\ A_2.eval_poly2d (coeffs ++ more) x y D = A_2.eval_poly2d coeffs x y D
  /\ A_2.eval_poly2d coeffs x y D = Ok (Np.map2 (poly_at coeffs D) x y).
Proof.
  intros HD Hxy Hlen.
  assert (Hes : (length (exponents D) <= length coeffs)%nat).
  { pose proof (exponents_length D HD). lia. }
  assert (Hes' : (length (exponents D) <= length (coeffs ++ more))%nat).
  { rewrite length_app. lia. }
  rewrite !evaluate_fitted_surface_loop, ?eval_poly2d_loop.
  rewrite (eval_loop_value coeffs x y D Hxy Hes).
  rewrite (eval_loop_value (coeffs ++ more) x y D Hxy Hes').
  unfold poly_at. rewrite (combine_app_short _ coeffs more Hes).
  repeat split; reflexivity.
Qed.

Lemma surplus_coefficients_ignored_witness :
  A_2.eval_poly2d ([1; 2; 3] ++ [7; 8]) [1; 2] [3; 4] 1
  = A_2.eval_poly2d [1; 2; 3] [1; 2] [3; 4] 1.
Proof.
  apply (surplus_coefficients_ignored [1; 2; 3] [7; 8] [1; 2] [3; 4] 1);
    [lia | reflexivity | discriminate].
Defined.

Lemma exponents_negative (order : Z) : (order < 0)%Z -> exponents order = [].
Proof.
  intros H. unfold exponents, range.
  replace (Z.to_nat (order + 1)) with 0%nat by lia. reflexivity.
Qed.

(** X9.  With a negative order the loops over the exponent pairs are empty:
    both evaluators return the zero array without reading a coefficient,
    [build_design_matrix] raises the [ValueError] of [np.vstack] on an empty
    list, and a fit never returns. *)
Theorem negative_order_behaviour (coeffs x y : list Q) (order : Z) :
  (order < 0)%Z ->
  evaluate_fitted_surface coeffs x y order = Ok (Np.zeros_like x)
  /\ A_2.eval_poly2d coeffs x y order = Ok (Np.zeros_like x)
  /\ build_design_matrix x y order
     = Raise (ValueError "need at least one array to concatenate")
  /\ forall py_float np_sqrt lstsq file_lines out,
       create_polynomial_surface py_float np_sqrt lstsq file_lines order
       <> Ok out.
Proof.
  intros Hneg.
  assert (Hbuild : forall x y, build_design_matrix x y order
            = Raise (ValueError "need at least one array to concatenate")).
  { intros x' y'. rewrite build_design_matrix_columns. unfold design_columns.
    rewrite (exponents_negative order Hneg). reflexivity. }
  rewrite evaluate_fitted_surface_loop, eval_poly2d_loop.
  rewrite (exponents_negative order Hneg). cbn [for_each bind fst].
  split; [reflexivity|]. split; [reflexivity|]. split; [apply Hbuild|].
  intros py_float np_sqrt lstsq file_lines out H.
  unfold create_polynomial_surface in H.
  destruct (read_points py_float file_lines) as [points|]; cbn [bind] in H;
    [|discriminate].
  destruct (fit_points_inv np_sqrt lstsq points order out H)
    as (_ & X & c & HX & _).
  rewrite Hbuild in HX. discriminate.
Qed.

Lemma negative_order_behaviour_witness :
  A_2.eval_poly2d [] [1; 2] [3; 4] (-1) = Ok [0; 0]
  /\ build_design_matrix [1; 2] [3; 4] (-1)
     = Raise (ValueError "need at least one array to concatenate").
Proof.
  destruct (negative_order_behaviour [] [1; 2] [3; 4] (-1)) as (_ & H1 & H2 & _);
    [reflexivity|].
  split; [exact H1 | exact H2].
Defined.

Lemma nth_map2_cases (x : list Q) :
  forall (y : list Q) (n : nat),
    length x = length y ->
    (exists a b, nth_error x n = Some a /\ nth_error y n = Some b
                 /\ forall f, nth n (Np.map2 f x y) 0 = f a b)
    \/ (nth_error x n = None /\ forall f, nth n (Np.map2 f x y) 0 = 0).
Proof.
  induction x as [|a x IH]; intros [|b y] n H; try discriminate.
  - right. split; [now destruct n|]. intros f. now destruct n.
  - destruct n as [|n].
    + left. exists a, b. split; [reflexivity|]. split; reflexivity.
    + simpl in H. injection H as H.
      destruct (IH y n H) as [(a' & b' & Ha & Hb & Hf)|[Hn Hf]].
      * left. exists a', b'. split; [exact Ha|]. split; [exact Hb|].
        intros f. apply Hf.
      * right. split; [exact Hn|]. intros f. apply Hf.
Qed.

Lemma poly_fold_add (es : list (nat * nat)) (a b : Q) :
  forall (c1 c2 : list Q) (acc acc1 acc2 : Q),
    length c1 = length c2 -> acc == acc1 + acc2 ->
    fold_left (fun acc ce =>
                 acc + fst ce * Qpower a (Z.of_nat (fst (snd ce)))
                       * Qpower b (Z.of_nat (snd (snd ce))))
              (combine (Np.add c1 c2) es) acc
    == fold_left (fun acc ce =>
                    acc + fst ce * Qpower a (Z.of_nat (fst (snd ce)))
                          * Qpower b (Z.of_nat (snd (snd ce))))
                 (combine c1 es) acc1
       + fold_left (fun acc ce =>
                      acc + fst ce * Qpower a (Z.of_nat (fst (snd ce)))
                            * Qpower b (Z.of_nat (snd (snd ce))))
                   (combine c2 es) acc2.
Proof.
  induction es as [|e es IH]; intros [|u1 c1] [|u2 c2] acc acc1 acc2 Hlen H;
    try discriminate; cbn [Np.add Np.map2 combine fold_left fst snd]; auto.
  apply IH; [simpl in Hlen; lia|]. rewrite H. ring.
Qed.

Lemma poly_fold_scale (es : list (nat * nat)) (a b k : Q) :
  forall (c : list Q) (acc acc1 : Q),
    acc == k * acc1 ->
    fold_left (fun acc ce =>
                 acc + fst ce * Qpower a (Z.of_nat (fst (snd ce)))
                       * Qpower b (Z.of_nat (snd (snd ce))))
              (combine (Np.scale k c) es) acc
    == k * fold_left (fun acc ce =>
                        acc + fst ce * Qpower a (Z.of_nat (fst (snd ce)))
                              * Qpower b (Z.of_nat (snd (snd ce))))
                     (combine c es) acc1.
Proof.
  induction es as [|e es IH]; intros [|u c] acc acc1 H;
    cbn [Np.scale map combine fold_left fst snd]; auto.
  apply IH. rewrite H. ring.
Qed.

(** X10.  The evaluated surface is linear in the coefficients: evaluating
    the sum of two coefficient vectors gives, entry by entry, the sum of
    the two surfaces, and evaluating a scaled vector the scaled surface. *)
Theorem evaluation_is_linear (c1 c2 x y : list Q) (k : Q) (D : Z) :
  (0 <= D)%Z -> length x = length y -> length c1 = length c2 ->
  ((D + 1) * (D + 2) / 2 <= Z.of_nat (length c1))%Z ->
  exists z1 z2 z zk,
    A_2.eval_poly2d c1 x y D = Ok z1
    /\ A_2.eval_poly2d c2 x y D = Ok z2
    /\ A_2.eval_poly2d (Np.add c1 c2) x y D = Ok z
    /\ A_2.eval_poly2d (Np.scale k c1) x y D = Ok zk
    /\ forall n, nth n z 0 == nth n z1 0 + nth n z2 0
                 /\ nth n zk 0 == k * nth n z1 0.
Proof.
  intros HD Hxy Hc Hlen.
  assert (Hes : (length (exponents D) <= length c1)%nat).
  { pose proof (exponents_length D HD). lia. }
  rewrite !eval_poly2d_loop.
  rewrite (eval_loop_value c1 x y D Hxy Hes).
  rewrite (eval_loop_value c2 x y D Hxy) by (rewrite <- Hc; exact Hes).
  rewrite (eval_loop_value (Np.add c1 c2) x y D Hxy)
    by (unfold Np.add; rewrite (map2_length _ c1 c2 Hc); exact Hes).
  rewrite (eval_loop_value (Np.scale k c1) x y D Hxy)
    by (unfold Np.scale; rewrite length_map; exact Hes).
  do 4 eexists. do 4 (split; [reflexivity|]).
  intros n.
  destruct (nth_map2_cases x y n Hxy) as [(a & b & _ & _ & Hf)|[_ Hf]];
    rewrite !Hf.
  - split.
    + apply poly_fold_add; [exact Hc | ring].
    + apply poly_fold_scale. ring.
  - split; ring.
Qed.

Lemma evaluation_is_linear_witness :
  exists z1 z2 z zk,
    A_2.eval_poly2d [1; 2; 3] [1; 2] [3; 4] 1 = Ok z1
    /\ A_2.eval_poly2d [4; 5; 6] [1; 2] [3; 4] 1 = Ok z2
    /\ A_2.eval_poly2d (Np.add [1; 2; 3] [4; 5; 6]) [1; 2] [3; 4] 1 = Ok z
    /\ A_2.eval_poly2d (Np.scale 2 [1; 2; 3]) [1; 2] [3; 4] 1 = Ok zk
    /\ forall n, nth n z 0 == nth n z1 0 + nth n z2 0
                 /\ nth n zk 0 == 2 * nth n z1 0.
Proof.
  apply (evaluation_is_linear [1; 2; 3] [4; 5; 6] [1; 2] [3; 4] 2 1);
    [lia | reflexivity | reflexivity | discriminate].
Defined.

Lemma Qpower_positive_zero (p : positive) : Qpower_positive 0 p == 0.
Proof.
  unfold Qpower_positive.
  induction p as [p IH|p IH|]; cbn [pow_pos]; try rewrite IH; ring.
Qed.

Lemma monomial_origin (a b : Q) (e : nat * nat) :
  a == 0 -> b == 0 -> e <> (0%nat, 0%nat) ->
  Qpower a (Z.of_nat (fst e)) * Qpower b (Z.of_nat (snd e)) == 0.
Proof.
  intros Ha Hb He. rewrite Ha, Hb. destruct e as [[|i] [|j]];
    [congruence| | |]; cbn [fst snd].
  - change (Z.of_nat (S j)) with (Z.pos (Pos.of_succ_nat j)).
    cbn [Qpower]. rewrite Qpower_positive_zero. ring.
  - change (Z.of_nat (S i)) with (Z.pos (Pos.of_succ_nat i)).
    cbn [Qpower]. rewrite Qpower_positive_zero. ring.
  - change (Z.of_nat (S i)) with (Z.pos (Pos.of_succ_nat i)).
    cbn [Qpower]. rewrite Qpower_positive_zero. ring.
Qed.

Lemma poly_fold_origin (a b : Q) (es : list (nat * nat)) :
  a == 0 -> b == 0 -> ~ In (0%nat, 0%nat) es ->
  forall (cs : list Q) (acc v : Q),
    acc == v ->
    fold_left (fun acc ce =>
                 acc + fst ce * Qpower a (Z.of_nat (fst (snd ce)))
                       * Qpower b (Z.of_nat (snd (snd ce))))
              (combine cs es) acc
    == v.
Proof.
  intros Ha Hb. induction es as [|e es IH]; intros Hin [|c cs] acc v H;
    cbn [combine fold_left fst snd]; auto.
  apply IH; [intros Hi; apply Hin; now right|].
  rewrite <- Qmult_assoc, (monomial_origin a b e Ha Hb), H; [ring|].
  intros ->. apply Hin. now left.
Qed.

(** X11.  At a point whose normalized coordinates are both zero, that is
    at the mean of the fitted sample, the evaluated surface is the first
    coefficient. *)
Theorem value_at_normalized_origin
        (c0 : Q) (cs x y : list Q) (D : Z) (n : nat) (a b : Q) :
  (0 <= D)%Z -> length x = length y ->
  ((D + 1) * (D + 2) / 2 <= Z.of_nat (length (c0 :: cs)))%Z ->
  nth_error x n = Some a -> nth_error y n = Some b ->
  a == 0 -> b == 0 ->
  exists z, A_2.eval_poly2d (c0 :: cs) x y D = Ok z /\ nth n z 0 == c0.
Proof.
  intros HD Hxy Hlen Hx Hy Ha Hb.
  assert (Hes : (length (exponents D) <= length (c0 :: cs))%nat).
  { pose proof (exponents_length D HD). lia. }
  rewrite eval_poly2d_loop, (eval_loop_value (c0 :: cs) x y D Hxy Hes).
  eexists. split; [reflexivity|].
  rewrite (map2_nth _ x y n a b Hx Hy). unfold poly_at.
  destruct (exponents_head D HD) as [es Ees].
  pose proof (exponents_NoDup D) as Hnd. rewrite Ees in *.
  inversion Hnd as [|e0 l Hin _]; subst.
  cbn [combine fold_left fst snd].
  apply poly_fold_origin; auto.
  change (Z.of_nat 0) with 0%Z. cbn [Qpower]. ring.
Qed.

Lemma value_at_normalized_origin_witness :
  exists z, A_2.eval_poly2d [7; 2; 3] [1; 0] [3; 0] 1 = Ok z /\ nth 1 z 0 == 7.
Proof.
  apply (value_at_normalized_origin 7 [2; 3] [1; 0] [3; 0] 1 1 0 0);
    [lia | reflexivity | discriminate | reflexivity | reflexivity
    | reflexivity | reflexivity].
Defined.

(** ** The fit on unusual inputs, and what it writes *)

Local Open Scope string_scope.
Local Open Scope list_scope.
Local Open Scope Q_scope.

(** X12.  When no line after the header splits into at least three fields
    (in particular for an empty file, or a file with a header only), the
    array of points is empty and the fit raises [IndexError] at the column
    slice of line 88, before any number is computed. *)
Theorem no_usable_row_raises
        (py_float : string -> option Q) (np_sqrt : Q -> Q)
        (lstsq : Np.ndarray2 -> list Q -> result (list Q))
        (file_lines : list string) (order : Z) :
  (forall line, In line (tl file_lines) -> (length (split line) < 3)%nat) ->
  create_polynomial_surface py_float np_sqrt lstsq file_lines order
  = Raise IndexError.
Proof.
  intros Hshort. unfold create_polynomial_surface.
  assert (E : read_points py_float file_lines = Ok []).
  { destruct file_lines as [|header rows]; [reflexivity|].
    rewrite read_points_body. cbn [tl] in Hshort.
    assert (Hk : forall line, In line rows -> kept line = false).
    { intros line Hin. unfold kept. apply Nat.leb_gt. now apply Hshort. }
    pose proof (read_rows py_float rows []) as H.
    destruct (for_each rows (read_body py_float) []) as [r|e].
    - destruct H as (pts & -> & Hlen & _).
      replace (filter kept rows) with (@nil string) in Hlen.
      + destruct pts; [reflexivity|discriminate].
      + symmetry. clear -Hk. induction rows as [|l rows IH]; [reflexivity|].
        cbn [filter]. rewrite (Hk l) by now left.
        apply IH. intros line Hin. apply Hk. now right.
    - destruct H as (_ & line & s & Hin & Hkept & _).
      rewrite (Hk line Hin) in Hkept. discriminate. }
  rewrite E. reflexivity.
Qed.

Lemma no_usable_row_raises_witness :
  create_polynomial_surface Lib.float_of_decimal Lib.sqrt_exact
                            Lib.lstsq_one_column [ "2"; "1 2"; "" ] 0
  = Raise IndexError.
Proof.
  apply (no_usable_row_raises Lib.float_of_decimal Lib.sqrt_exact
           Lib.lstsq_one_column [ "2"; "1 2"; "" ] 0).
  intros line [<-|[<-|[]]]; vm_compute; lia.
Defined.

Lemma fold_min_spec (l : list Q) :
  forall m0,
    let m := fold_left (fun m a => if ltb a m then a else m) l m0 in
    m <= m0 /\ (forall a, In a l -> m <= a) /\ In m (m0 :: l).
Proof.
  induction l as [|a l IH]; intros m0; cbn [fold_left].
  - cbv zeta. split; [lra|]. split; [intros a []|now left].
  - cbv zeta. destruct (ltb a m0) eqn:E.
    + apply ltb_true in E. destruct (IH a) as (H1 & H2 & H3). cbv zeta in *.
      split; [lra|]. split.
      * intros b [<-|Hb]; [exact H1 | now apply H2].
      * right. exact H3.
    + apply ltb_false in E. destruct (IH m0) as (H1 & H2 & H3). cbv zeta in *.
      split; [exact H1|]. split.
      * intros b [<-|Hb]; [lra | now apply H2].
      * destruct H3 as [H3|H3]; [now left | right; now right].
Qed.

Lemma fold_max_spec (l : list Q) :
  forall m0,
    let m := fold_left (fun m a => if ltb m a then a else m) l m0 in
    m0 <= m /\ (forall a, In a l -> a <= m) /\ In m (m0 :: l).
Proof.
  induction l as [|a l IH]; intros m0; cbn [fold_left].
  - cbv zeta. split; [lra|]. split; [intros a []|now left].
  - cbv zeta. destruct (ltb m0 a) eqn:E.
    + apply ltb_true in E. destruct (IH a) as (H1 & H2 & H3). cbv zeta in *.
      split; [lra|]. split.
      * intros b [<-|Hb]; [exact H1 | now apply H2].
      * right. exact H3.
    + apply ltb_false in E. destruct (IH m0) as (H1 & H2 & H3). cbv zeta in *.
      split; [exact H1|]. split.
      * intros b [<-|Hb]; [lra | now apply H2].
      * destruct H3 as [H3|H3]; [now left | right; now right].
Qed.

(** [x.min()] is the least entry of a non-empty array and [x.max()] the
    greatest. *)
Lemma amin_spec (x : list Q) :
  x <> [] -> (forall a, In a x -> amin x <= a) /\ In (amin x) x.
Proof.
  destruct x as [|h t]; [congruence|]. intros _. unfold amin. cbn [hd tl].
  destruct (fold_min_spec t h) as (H1 & H2 & H3). cbv zeta in *.
  split; [|exact H3]. intros a [<-|Ha]; [exact H1 | now apply H2].
Qed.

Lemma amax_spec (x : list Q) :
  x <> [] -> (forall a, In a x -> a <= amax x) /\ In (amax x) x.
Proof.
  destruct x as [|h t]; [congruence|]. intros _. unfold amax. cbn [hd tl].
  destruct (fold_max_spec t h) as (H1 & H2 & H3). cbv zeta in *.
  split; [|exact H3]. intros a [<-|Ha]; [exact H1 | now apply H2].
Qed.

Lemma load_model_dict (D : Z) (c : list Q) (xm xs ym ys x0 x1 y0 y1 : Q) :
  load_model (model_dict D c xm xs ym ys x0 x1 y0 y1)
  = Ok {| order := D; coeffs := Np.Vector c;
          x_mean := xm; x_std := xs; y_mean := ym; y_std := ys;
          x_min := x0; x_max := x1; y_min := y0; y_max := y1 |}.
Proof. reflexivity. Qed.

(** A successful run parsed a non-empty point set and wrote the model of
    the coefficients the solver returned for it. *)
Lemma create_polynomial_surface_inv
      (py_float : string -> option Q) (np_sqrt : Q -> Q)
      (lstsq : Np.ndarray2 -> list Q -> result (list Q))
      (file_lines : list string) (order : Z) (out : outputs) :
  create_polynomial_surface py_float np_sqrt lstsq file_lines order = Ok out ->
  exists points c,
    read_points py_float file_lines = Ok points
    /\ points <> []
    /\ model out = fitted_model np_sqrt points order c.
Proof.
  unfold create_polynomial_surface. intros H.
  destruct (read_points py_float file_lines) as [points|]; cbn [bind] in H;
    [|discriminate].
  destruct (fit_points_inv np_sqrt lstsq points order out H)
    as (Hne & X & c & _ & _ & Hm).
  exists points, c. auto.
Qed.

(** X13.  The domain a fit stores in its model is the bounding box of the
    points it read: every point lies in it, each of the four bounds is
    attained by a point, and so [x_min <= x_max] and [y_min <= y_max] in
    every model the script writes. *)
Theorem fitted_domain_is_bounding_box
        (py_float : string -> option Q) (np_sqrt : Q -> Q)
        (lstsq : Np.ndarray2 -> list Q -> result (list Q))
        (file_lines : list string) (order : Z) (out : outputs) :
  create_polynomial_surface py_float np_sqrt lstsq file_lines order = Ok out ->
  exists points m,
    read_points py_float file_lines = Ok points
    /\ load_model (model out) = Ok m
    /\ (forall r, In r points ->
                  (x_min m <= nth 0 r 0 /\ nth 0 r 0 <= x_max m)
                  /\ (y_min m <= nth 1 r 0 /\ nth 1 r 0 <= y_max m))
    /\ (exists r, In r points /\ nth 0 r 0 = x_min m)
    /\ (exists r, In r points /\ nth 0 r 0 = x_max m)
    /\ (exists r, In r points /\ nth 1 r 0 = y_min m)
    /\ (exists r, In r points /\ nth 1 r 0 = y_max m)
    /\ x_min m <= x_max m
    /\ y_min m <= y_max m.
Proof.
  intros Hrun.
  destruct (create_polynomial_surface_inv _ _ _ _ _ _ Hrun)
    as (points & c & Hread & Hne & Hm).
  assert (Hx : x_raw_of points <> []) by (destruct points; [congruence|discriminate]).
  assert (Hy : y_raw_of points <> []) by (destruct points; [congruence|discriminate]).
  destruct (amin_spec _ Hx) as [Lx Ix]. destruct (amax_spec _ Hx) as [Ux Jx].
  destruct (amin_spec _ Hy) as [Ly Iy]. destruct (amax_spec _ Hy) as [Uy Jy].
  exists points. eexists. split; [exact Hread|].
  rewrite Hm. unfold fitted_model. rewrite load_model_dict.
  split; [reflexivity|]. cbn [x_min x_max y_min y_max].
  split.
  { intros r Hr. split; split.
    - apply Lx. unfold x_raw_of. now apply (in_map (fun r => nth 0 r 0)).
    - apply Ux. unfold x_raw_of. now apply (in_map (fun r => nth 0 r 0)).
    - apply Ly. unfold y_raw_of. now apply (in_map (fun r => nth 1 r 0)).
    - apply Uy. unfold y_raw_of. now apply (in_map (fun r => nth 1 r 0)). }
  unfold x_raw_of in Ix, Jx. unfold y_raw_of in Iy, Jy.
  apply in_map_iff in Ix, Jx, Iy, Jy.
  destruct Ix as (r1 & E1 & H1). destruct Jx as (r2 & E2 & H2).
  destruct Iy as (r3 & E3 & H3). destruct Jy as (r4 & E4 & H4).
  split; [now exists r1|]. split; [now exists r2|].
  split; [now exists r3|]. split; [now exists r4|].
  split.
  - apply Lx. unfold x_raw_of. rewrite <- E2.
    now apply (in_map (fun r => nth 0 r 0)).
  - apply Ly. unfold y_raw_of. rewrite <- E4.
    now apply (in_map (fun r => nth 1 r 0)).
Qed.

Lemma fitted_domain_is_bounding_box_witness :
  exists out points m,
    create_polynomial_surface Lib.float_of_decimal Lib.sqrt_exact
                              Lib.lstsq_one_column
                              [ "2"; "0 0 5"; "2 2 7" ] 0 = Ok out
    /\ read_points Lib.float_of_decimal [ "2"; "0 0 5"; "2 2 7" ] = Ok points
    /\ load_model (model out) = Ok m
    /\ x_min m <= x_max m
    /\ y_min m <= y_max m.
Proof.
  destruct (run_of_solution Lib.float_of_decimal Lib.sqrt_exact
              Lib.lstsq_one_column [ "2"; "0 0 5"; "2 2 7" ]
              [ [0; 0; 5]; [2; 2; 7] ] 0
              {| Np.shape := (2%nat, 1%nat); Np.rows := [ [1]; [1] ] |}
              [ 12 # 2 ])
    as (out & Hout & _);
    [ vm_compute; reflexivity | discriminate | lia
    | vm_compute; reflexivity | vm_compute; reflexivity | vm_compute; lia | ].
  destruct (fitted_domain_is_bounding_box _ _ _ _ _ out Hout)
    as (points & m & Hr & Hm & _ & _ & _ & _ & _ & Hx & Hy).
  exists out, points, m. auto.
Defined.

(** ** The mesh and its vertices *)

Lemma eval_body_length (coeffs x y : list Q) (es : list (nat * nat)) :
  length x = length y ->
  forall z idx z' idx',
    length z = length x ->
    for_each es (eval_body coeffs x y) (z, idx) = Ok (z', idx') ->
    length z' = length x.
Proof.
  intros Hxy. induction es as [|e es IH]; intros z idx z' idx' Hz H.
  - cbn [for_each] in H. apply Ok_inj in H. inversion H; subst. exact Hz.
  - cbn [for_each] in H. unfold eval_body at 1 in H. cbn [fst snd] in H.
    destruct (getitem coeffs idx) as [c|]; cbn [bind] in H; [|discriminate].
    apply IH in H; [exact H|].
    unfold eval_step, Np.add, Np.mul, Np.scale, Np.power.
    rewrite map2_length; [exact Hz|].
    rewrite map2_length; rewrite !length_map; congruence.
Qed.

(** An evaluator that returns, returns an array of the length of its
    input. *)
Lemma evaluate_fitted_surface_length (coeffs x y z : list Q) (order : Z) :
  length x = length y ->
  evaluate_fitted_surface coeffs x y order = Ok z -> length z = length x.
Proof.
  intros Hxy. rewrite evaluate_fitted_surface_loop.
  destruct (for_each _ _ _) as [[z' idx']|] eqn:E; cbn [bind fst];
    [|discriminate].
  intros <-%Ok_inj.
  apply (eval_body_length coeffs x y (exponents order) Hxy _ _ _ _
           (length_map _ _) E).
Qed.

Lemma grid_faces_in (res_x res_y a b c : nat) :
  In (a, b, c) (grid_faces res_x res_y) ->
  exists i j,
    (i < res_x - 1)%nat /\ (j < res_y - 1)%nat
    /\ In (a, b, c) (cell_faces res_y (i * res_y + j)).
Proof.
  rewrite grid_faces_flat_map. intros H.
  apply in_flat_map in H. destruct H as (i & Hi & H).
  apply in_flat_map in H. destruct H as (j & Hj & H).
  apply in_seq in Hi, Hj. exists i, j. repeat split; [lia | lia | exact H].
Qed.

Lemma length_combine_same {A B : Type} (l : list A) (l' : list B) :
  length l = length l' -> length (combine l l') = length l.
Proof. intros H. rewrite length_combine, <- H. apply Nat.min_id. Qed.

(** X14.  The mesh a run hands to [trimesh] is well formed: it has
    [100 * 100] vertices, every index of every face is the index of one of
    them, and the three corners of a face are distinct vertices. *)
Theorem mesh_faces_index_vertices
        (py_float : string -> option Q) (np_sqrt : Q -> Q)
        (lstsq : Np.ndarray2 -> list Q -> result (list Q))
        (file_lines : list string) (order : Z) (out : outputs) :
  create_polynomial_surface py_float np_sqrt lstsq file_lines order = Ok out ->
  length (vertices out) = (100 * 100)%nat
  /\ length (faces out) = (2 * (99 * 99))%nat
  /\ forall a b c,
       In (a, b, c) (faces out) ->
       (a < length (vertices out))%nat
       /\ (b < length (vertices out))%nat
       /\ (c < length (vertices out))%nat
       /\ a <> b /\ b <> c /\ a <> c.
Proof.
  unfold create_polynomial_surface, fit_points.
  repeat run_bind.
  match goal with
  | E : evaluate_fitted_surface _ ?xg ?yg _ = Ok _ |- _ =>
      assert (Hxy : length xg = length yg)
        by (rewrite !length_sub_div; apply meshgrid_lengths);
      pose proof (evaluate_fitted_surface_length _ _ _ _ _ Hxy E) as Hz;
      rewrite length_sub_div in Hz, Hxy; clear E
  end.
  intros <-%Ok_inj. cbn [vertices faces].
  rewrite !length_linspace.
  assert (Hv : forall xs ys : list Q,
             length xs = 100%nat -> length ys = 100%nat ->
             length (flat_map (fun _ : Q => xs) ys) = (100 * 100)%nat).
  { intros xs ys Hxs Hys.
    rewrite (length_flat_map_block _ 100%nat);
      [now rewrite Hys | intros; exact Hxs]. }
  match goal with
  | |- context [combine (combine ?xg ?yg) ?zg] =>
      assert (Hlen : length (combine (combine xg yg) zg) = (100 * 100)%nat)
  end.
  { rewrite length_combine_same.
    - rewrite length_combine_same;
        [apply Hv; apply length_linspace | apply meshgrid_lengths].
    - rewrite length_combine_same; [now rewrite Hz | apply meshgrid_lengths]. }
  rewrite Hlen. split; [reflexivity|]. split.
  { rewrite grid_faces_flat_map.
    rewrite (length_flat_map_block _ (2 * 99)%nat).
    - rewrite length_seq. lia.
    - intros i _. rewrite (length_flat_map_block _ 2%nat).
      + rewrite length_seq. lia.
      + reflexivity. }
  intros v1 v2 v3 Hin.
  destruct (grid_faces_in _ _ _ _ _ Hin) as (i & j & Hi & Hj & Hc).
  unfold cell_faces in Hc.
  destruct Hc as [Hc|[Hc|[]]]; inversion Hc; subst; nia.
Qed.

Lemma mesh_faces_index_vertices_witness :
  exists out,
    create_polynomial_surface Lib.float_of_decimal Lib.sqrt_exact
                              Lib.lstsq_one_column
                              [ "2"; "0 0 5"; "2 2 7" ] 0 = Ok out
    /\ length (vertices out) = (100 * 100)%nat
    /\ length (faces out) = (2 * (99 * 99))%nat.
Proof.
  destruct (run_of_solution Lib.float_of_decimal Lib.sqrt_exact
              Lib.lstsq_one_column [ "2"; "0 0 5"; "2 2 7" ]
              [ [0; 0; 5]; [2; 2; 7] ] 0
              {| Np.shape := (2%nat, 1%nat); Np.rows := [ [1]; [1] ] |}
              [ 12 # 2 ])
    as (out & Hout & _);
    [ vm_compute; reflexivity | discriminate | lia
    | vm_compute; reflexivity | vm_compute; reflexivity | vm_compute; lia | ].
  destruct (mesh_faces_index_vertices _ _ _ _ _ out Hout) as (Hv & Hf & _).
  exists out. auto.
Defined.

(** ** The mapping file (script 2, lines 132-150) *)

Lemma length_zip3 (X : list Q) :
  forall Y Z : list Q,
    length (zip3 X Y Z)
    = Nat.min (length X) (Nat.min (length Y) (length Z)).
Proof.
  induction X as [|x X IH]; intros [|y Y] [|z Z]; cbn [zip3 length];
    try reflexivity.
  rewrite IH. reflexivity.
Qed.

Lemma zip3_in (X : list Q) :
  forall (Y Z : list Q) (x y z : Q),
    In (x, y, z) (zip3 X Y Z) -> In x X /\ In y Y /\ In z Z.
Proof.
  induction X as [|x0 X IH]; intros [|y0 Y] [|z0 Z] x y z H;
    cbn [zip3] in H; try contradiction.
  destruct H as [H|H].
  - inversion H; subst. repeat split; now left.
  - destruct (IH _ _ _ _ _ H) as (Hx & Hy & Hz). repeat split; now right.
Qed.

(** One pass of the writing loop. *)
Lemma write_rows_step (format_float : string -> Q -> result string)
      (float_fmt : string) (extra_constants : list string)
      (p : Q * Q * Q) (rows : list (Q * Q * Q)) (f : list string) :
  write_rows (format_float float_fmt) extra_constants (p :: rows) f
  = match format_point format_float float_fmt p with
    | Raise e => (f, Failed (Exception e))
    | Ok _ =>
        write_rows (format_float float_fmt) extra_constants rows
                   (f ++ [row_text (text_of format_float) extra_constants
                                   float_fmt p])
    end.
Proof.
  destruct p as [[x y] z]. cbn [write_rows].
  unfold format_point, row_text, row_fields, text_of. cbn [fst snd].
  destruct (format_float float_fmt x); cbn [bind]; [|reflexivity].
  destruct (format_float float_fmt y); cbn [bind]; [|reflexivity].
  destruct (format_float float_fmt z); cbn [bind]; reflexivity.
Qed.

(** When every point formats, the loop writes every row. *)
Lemma write_rows_ok (format_float : string -> Q -> result string)
      (float_fmt : string) (extra_constants : list string)
      (rows : list (Q * Q * Q)) :
  (forall p, In p rows -> exists l, format_point format_float float_fmt p = Ok l) ->
  forall f,
    write_rows (format_float float_fmt) extra_constants rows f
    = (f ++ map (row_text (text_of format_float) extra_constants float_fmt) rows,
       Done tt).
Proof.
  induction rows as [|p rows IH]; intros Hfmt f.
  - cbn. now rewrite app_nil_r.
  - rewrite write_rows_step.
    destruct (Hfmt p ltac:(now left)) as [l ->].
    rewrite IH by (intros q Hq; apply Hfmt; now right).
    cbn [map]. now rewrite <- app_assoc.
Qed.

(** The loop stops at the first point that does not format, with the rows
    of the points before it written. *)
Lemma write_rows_fail (format_float : string -> Q -> result string)
      (float_fmt : string) (extra_constants : list string)
      (pre : list (Q * Q * Q)) (p : Q * Q * Q) (post : list (Q * Q * Q))
      (e : exn) :
  (forall q, In q pre -> exists l, format_point format_float float_fmt q = Ok l) ->
  format_point format_float float_fmt p = Raise e ->
  forall f,
    write_rows (format_float float_fmt) extra_constants (pre ++ p :: post) f
    = (f ++ map (row_text (text_of format_float) extra_constants float_fmt) pre,
       Failed (Exception e)).
Proof.
  induction pre as [|q pre IH]; intros Hpre Hp f.
  - cbn [app map]. rewrite write_rows_step, Hp. now rewrite app_nil_r.
  - cbn [app]. rewrite write_rows_step.
    destruct (Hpre q ltac:(now left)) as [l ->].
    rewrite IH; [|intros q' Hq; apply Hpre; now right|exact Hp].
    cbn [map]. now rewrite <- app_assoc.
Qed.

Lemma format_point_raise (format_float : string -> Q -> result string)
      (float_fmt : string) (p : Q * Q * Q) (e : exn) :
  format_point format_float float_fmt p = Raise e ->
  exists v, format_float float_fmt v = Raise e.
Proof.
  unfold format_point.
  destruct (format_float float_fmt (fst (fst p))) eqn:E1; cbn [bind];
    [|intros H; inversion H; subst; eauto].
  destruct (format_float float_fmt (snd (fst p))) eqn:E2; cbn [bind];
    [|intros H; inversion H; subst; eauto].
  destruct (format_float float_fmt (snd p)) eqn:E3; cbn [bind];
    [discriminate|intros H; inversion H; subst; eauto].
Qed.

(** However the loop ends, the file holds the rows of a prefix of the
    points; a failure is the exception of the formatter on some value. *)
Lemma write_rows_outcome (format_float : string -> Q -> result string)
      (float_fmt : string) (extra_constants : list string)
      (rows : list (Q * Q * Q)) :
  forall f text r,
    write_rows (format_float float_fmt) extra_constants rows f = (text, r) ->
    (r = Done tt
     /\ text = f ++ map (row_text (text_of format_float) extra_constants
                                  float_fmt) rows
     /\ forall p, In p rows ->
                  exists l, format_point format_float float_fmt p = Ok l)
    \/ (exists v e, format_float float_fmt v = Raise e
                    /\ r = Failed (Exception e)).
Proof.
  induction rows as [|p rows IH]; intros f text r H.
  - cbn in H. inversion H; subst. left.
    split; [reflexivity|]. split; [now rewrite app_nil_r|]. intros p [].
  - rewrite write_rows_step in H.
    destruct (format_point format_float float_fmt p) as [l|e] eqn:E.
    + destruct (IH _ _ _ H) as [(-> & -> & Hall)|Hfail]; [left|now right].
      split; [reflexivity|]. split; [cbn [map]; now rewrite <- app_assoc|].
      intros q [<-|Hq]; [eauto|now apply Hall].
    + inversion H; subst. right.
      destruct (format_point_raise _ _ _ _ E) as [v Hv]. eauto.
Qed.

Section WriterFacts.

Variable format_float : string -> Q -> result string.
Variable dirname : string -> string.
Variable makedirs : string -> option failure.
Variable open_w : string -> option failure.

(** What [write_opt3d_mapping] does once the directory is made and the
    file is open. *)
Lemma write_opt3d_mapping_rows (path : string) (X Y Z : list Q)
      (extra_constants : list string) (float_fmt : string) :
  length extra_constants = 9%nat ->
  makedirs (dirname path) = None -> open_w path = None ->
  write_opt3d_mapping format_float dirname makedirs open_w path X Y Z
                      extra_constants float_fmt
  = (Some (fst (write_rows (format_float float_fmt) extra_constants
                           (zip3 X Y Z) [(py_str (length X) ++ newline)%string])),
     snd (write_rows (format_float float_fmt) extra_constants
                     (zip3 X Y Z) [(py_str (length X) ++ newline)%string])).
Proof.
  intros H9 Hm Ho. unfold write_opt3d_mapping.
  rewrite H9, Hm, Ho. cbn [Nat.eqb negb].
  now destruct (write_rows _ _ _ _).
Qed.

(** The file of a call in which every point formats. *)
Lemma write_opt3d_mapping_lines (path : string) (X Y Z : list Q)
      (extra_constants : list string) (float_fmt : string) :
  length extra_constants = 9%nat ->
  makedirs (dirname path) = None -> open_w path = None ->
  (forall p, In p (zip3 X Y Z) ->
             exists l, format_point format_float float_fmt p = Ok l) ->
  write_opt3d_mapping format_float dirname makedirs open_w path X Y Z
                      extra_constants float_fmt
  = (Some ((py_str (length X) ++ newline)%string
             :: map (row_text (text_of format_float) extra_constants float_fmt)
                    (zip3 X Y Z)),
     Done tt).
Proof.
  intros H9 Hm Ho Hfmt.
  rewrite (write_opt3d_mapping_rows path X Y Z _ _ H9 Hm Ho).
  now rewrite (write_rows_ok format_float float_fmt extra_constants _ Hfmt).
Qed.

(** A call that wrote its file to the end made the directory, opened the
    file and formatted every point. *)
Lemma write_opt3d_mapping_done (path : string) (X Y Z : list Q)
      (extra_constants : list string) (float_fmt : string) (text : list string) :
  write_opt3d_mapping format_float dirname makedirs open_w path X Y Z
                      extra_constants float_fmt
  = (Some text, Done tt) ->
  length extra_constants = 9%nat
  /\ text = (py_str (length X) ++ newline)%string
              :: map (row_text (text_of format_float) extra_constants float_fmt)
                     (zip3 X Y Z)
  /\ forall p, In p (zip3 X Y Z) ->
               exists l, format_point format_float float_fmt p = Ok l.
Proof.
  unfold write_opt3d_mapping.
  destruct (Nat.eqb_spec (length extra_constants) 9) as [H9|];
    cbn [negb]; [|discriminate].
  destruct (makedirs (dirname path)); [discriminate|].
  destruct (open_w path); [discriminate|].
  destruct (write_rows _ _ _ _) as [f r] eqn:E. intros H. inversion H; subst.
  destruct (write_rows_outcome _ _ _ _ _ _ _ E) as [(_ & -> & Hall)|(v & e & _ & Hr)];
    [|discriminate].
  split; [exact H9|]. split; [reflexivity|exact Hall].
Qed.

End WriterFacts.

(** X15.  [write_opt3d_mapping] raises its [ValueError], touching
    nothing, exactly when the number of extra constants is not 9.
    Otherwise a failure of [os.makedirs] on the directory of the path, or
    else of [open], ends the call with that failure and the file untouched.
    Otherwise the file is opened and the first line, [len(X)], is written,
    then one row per triple of [zip(X, Y, Z)] in order: when every
    coordinate formats the call returns, having written as many rows as the
    shortest of the three arrays has entries (the count of the first line
    when the arrays have equal lengths); when a coordinate does not format,
    the call ends with the exception of the formatter at the first such
    point, and the file holds the rows of the points before it. *)
Theorem mapping_header_and_rows
        (format_float : string -> Q -> result string)
        (dirname : string -> string) (makedirs open_w : string -> option failure)
        (path : string) (X Y Z : list Q) (extra_constants : list string)
        (float_fmt : string) :
  let write := write_opt3d_mapping format_float dirname makedirs open_w path
                                   X Y Z extra_constants float_fmt in
  let header := (py_str (length X) ++ newline)%string in
  let row := row_text (text_of format_float) extra_constants float_fmt in
  (length extra_constants <> 9%nat ->
   write = (None, Failed (Exception
                            (ValueError "Exactly 9 extra constants are required."))))
  /\ (length extra_constants = 9%nat ->
      forall f, makedirs (dirname path) = Some f -> write = (None, Failed f))
  /\ (length extra_constants = 9%nat -> makedirs (dirname path) = None ->
      forall f, open_w path = Some f -> write = (None, Failed f))
  /\ (length extra_constants = 9%nat -> makedirs (dirname path) = None ->
      open_w path = None ->
      ((forall p, In p (zip3 X Y Z) ->
                  exists l, format_point format_float float_fmt p = Ok l) ->
       write = (Some (header :: map row (zip3 X Y Z)), Done tt)
       /\ length (map row (zip3 X Y Z))
          = Nat.min (length X) (Nat.min (length Y) (length Z))
       /\ (length Y = length X -> length Z = length X ->
           length (map row (zip3 X Y Z)) = length X))
      /\ (forall pre p post e,
             zip3 X Y Z = pre ++ p :: post ->
             (forall q, In q pre ->
                        exists l, format_point format_float float_fmt q = Ok l) ->
             format_point format_float float_fmt p = Raise e ->
             write = (Some (header :: map row pre), Failed (Exception e)))).
Proof.
  cbv zeta. split; [|split; [|split]].
  - intros H. unfold write_opt3d_mapping.
    destruct (Nat.eqb_spec (length extra_constants) 9); [contradiction|].
    reflexivity.
  - intros H9 f Hm. unfold write_opt3d_mapping. now rewrite H9, Hm.
  - intros H9 Hm f Ho. unfold write_opt3d_mapping. now rewrite H9, Hm, Ho.
  - intros H9 Hm Ho. split.
    + intros Hfmt.
      split; [now apply write_opt3d_mapping_lines|].
      rewrite length_map, length_zip3. split; [reflexivity|].
      intros -> ->. now rewrite !Nat.min_id.
    + intros pre p post e Hzip Hpre Hp.
      rewrite (write_opt3d_mapping_rows format_float dirname makedirs open_w
                 path X Y Z _ _ H9 Hm Ho).
      rewrite Hzip.
      now rewrite (write_rows_fail format_float float_fmt extra_constants
                     pre p post e Hpre Hp).
Qed.

Lemma append_assoc (a b c : string) :
  ((a ++ b) ++ c = a ++ (b ++ c))%string.
Proof. induction a as [|ch a IH]; cbn; [reflexivity|now rewrite IH]. Qed.

(** A run of non-blank characters is read into the current token. *)
Lemma split_from_token (t : string) :
  no_space t = true ->
  forall rest tok,
    split_from (t ++ rest)%string tok = split_from rest (tok ++ t)%string.
Proof.
  induction t as [|c t IH]; intros Hns rest tok.
  - cbn. f_equal. clear. induction tok as [|ch tok IH]; cbn; congruence.
  - cbn [no_space] in Hns. apply andb_prop in Hns. destruct Hns as [Hc Ht].
    apply negb_true_iff in Hc.
    cbn [String.append split_from]. rewrite Hc, (IH Ht).
    f_equal. rewrite append_assoc. reflexivity.
Qed.

Lemma length_nonempty (tok : string) :
  tok <> EmptyString -> (String.length tok =? 0)%nat = false.
Proof. destruct tok; [congruence|reflexivity]. Qed.

(** [split] undoes [" ".join] on fields that are not empty and hold no
    blank, whatever line break follows. *)
Lemma split_join (fields : list string) :
  Forall field_ok fields ->
  split_from (String.concat " " fields ++ newline)%string EmptyString = fields.
Proof.
  induction 1 as [|f fields [Hne Hns] Hall IH]; [reflexivity|].
  destruct fields as [|g fields].
  - cbn [String.concat]. rewrite (split_from_token f Hns). cbn [String.append].
    unfold newline. cbn [split_from]. cbn [isspace].
    replace (isspace "010"%char) with true by reflexivity.
    now rewrite (length_nonempty f Hne).
  - change (String.concat " " (f :: g :: fields))
      with (f ++ " " ++ String.concat " " (g :: fields))%string.
    rewrite !append_assoc. rewrite (split_from_token f Hns).
    cbn [String.append split_from].
    replace (isspace " "%char) with true by reflexivity.
    rewrite (length_nonempty f Hne). f_equal. exact IH.
Qed.

Lemma format_point_fields (format_float : string -> Q -> result string)
      (float_fmt : string) (p : Q * Q * Q) (l : list string) :
  format_point format_float float_fmt p = Ok l ->
  exists sx sy sz,
    format_float float_fmt (fst (fst p)) = Ok sx
    /\ format_float float_fmt (snd (fst p)) = Ok sy
    /\ format_float float_fmt (snd p) = Ok sz.
Proof.
  unfold format_point.
  destruct (format_float float_fmt (fst (fst p))) as [sx|]; [|discriminate].
  destruct (format_float float_fmt (snd (fst p))) as [sy|]; [|discriminate].
  destruct (format_float float_fmt (snd p)) as [sz|]; [|discriminate].
  intros _. exists sx, sy, sz. auto.
Qed.

(** X16.  A mapping file written by the mapping script is a file the
    fitting script reads: when the call of [write_opt3d_mapping] returned,
    and the formatted coordinates and the nine constants are non-empty and
    free of blanks, the file holds the count line and one row per point,
    every row splits into exactly its twelve fields, and when [float] parses
    each formatted coordinate [v] to [r v], [read_points] applied to the
    written lines returns the points [(r x, r y, r z)] in the order they
    were written (the count line is skipped as the header). *)
Theorem written_rows_read_back
        (format_float : string -> Q -> result string)
        (dirname : string -> string) (makedirs open_w : string -> option failure)
        (py_float : string -> option Q)
        (r : Q -> Q) (path : string) (X Y Z : list Q)
        (extra_constants : list string)
        (float_fmt : string) (text : list string) :
  length extra_constants = 9%nat ->
  Forall field_ok extra_constants ->
  (forall v s, In v (X ++ Y ++ Z) ->
               format_float float_fmt v = Ok s ->
               field_ok s /\ py_float s = Some (r v)) ->
  write_opt3d_mapping format_float dirname makedirs open_w path X Y Z
                      extra_constants float_fmt
  = (Some text, Done tt) ->
  text = (py_str (length X) ++ newline)%string
           :: map (row_text (text_of format_float) extra_constants float_fmt)
                  (zip3 X Y Z)
  /\ (forall p, In p (zip3 X Y Z) ->
                split (row_text (text_of format_float) extra_constants float_fmt p)
                = row_fields (text_of format_float) extra_constants float_fmt p
                /\ length (split (row_text (text_of format_float)
                                           extra_constants float_fmt p))
                   = 12%nat)
  /\ read_points py_float text
     = Ok (map (fun p => [r (fst (fst p)); r (snd (fst p)); r (snd p)])
               (zip3 X Y Z)).
Proof.
  intros H9 Hextra Hfmt0 Hw.
  destruct (write_opt3d_mapping_done _ _ _ _ _ _ _ _ _ _ _ Hw) as (_ & -> & Hall).
  split; [reflexivity|].
  assert (Hfmt : forall x y z, In (x, y, z) (zip3 X Y Z) ->
             (field_ok (text_of format_float float_fmt x)
              /\ py_float (text_of format_float float_fmt x) = Some (r x))
             /\ (field_ok (text_of format_float float_fmt y)
                 /\ py_float (text_of format_float float_fmt y) = Some (r y))
             /\ (field_ok (text_of format_float float_fmt z)
                 /\ py_float (text_of format_float float_fmt z) = Some (r z))).
  { intros x y z H. destruct (zip3_in _ _ _ _ _ _ H) as (Hx & Hy & Hz).
    destruct (Hall _ H) as [l Hl].
    destruct (format_point_fields _ _ _ _ Hl) as (sx & sy & sz & Ex & Ey & Ez).
    cbn [fst snd] in Ex, Ey, Ez. unfold text_of. rewrite Ex, Ey, Ez.
    split; [|split]; apply Hfmt0; auto; rewrite !in_app_iff; auto. }
  assert (Hsplit : forall p, In p (zip3 X Y Z) ->
            split (row_text (text_of format_float) extra_constants float_fmt p)
            = row_fields (text_of format_float) extra_constants float_fmt p).
  { intros [[x y] z] Hp. destruct (Hfmt x y z Hp) as (Hx & Hy & Hz).
    unfold split, row_text. apply split_join.
    unfold row_fields. cbn [fst snd app].
    constructor; [tauto|]. constructor; [tauto|]. constructor; [tauto|].
    exact Hextra. }
  split.
  { intros p Hp. rewrite (Hsplit p Hp). split; [reflexivity|].
    unfold row_fields. rewrite length_app, H9. reflexivity. }
  rewrite read_points_body.
  assert (Hloop : forall l acc,
            (forall p, In p l -> In p (zip3 X Y Z)) ->
            for_each (map (row_text (text_of format_float) extra_constants
                                    float_fmt) l)
                     (read_body py_float) acc
            = Ok (acc ++ map (fun p => [r (fst (fst p)); r (snd (fst p));
                                        r (snd p)]) l)).
  { induction l as [|[[x y] z] l IH]; intros acc Hl.
    - cbn. now rewrite app_nil_r.
    - assert (Hp : In (x, y, z) (zip3 X Y Z)) by (apply Hl; now left).
      destruct (Hfmt x y z Hp) as ((_ & Hx) & (_ & Hy) & (_ & Hz)).
      cbn [map for_each]. unfold read_body at 1, kept, convert_row.
      rewrite (Hsplit _ Hp). unfold row_fields. cbn [fst snd app].
      cbn [length Nat.leb firstn for_each]. unfold to_float.
      rewrite Hx, Hy, Hz.
      cbn [bind app].
      rewrite IH by (intros p Hq; apply Hl; now right).
      now rewrite <- app_assoc. }
  apply (Hloop (zip3 X Y Z) []). auto.
Qed.

Lemma written_rows_read_back_witness :
  exists text pts,
    write_opt3d_mapping Lib.format_float (fun s => s) (fun _ => None)
                        (fun _ => None) "out" [0; 2] [0; 1] [5 # 2; 7]
                        EXTRA_CONSTANTS FLOAT_FMT = (Some text, Done tt)
    /\ read_points Lib.float_of_fixed text = Ok pts
    /\ length pts = 2%nat.
Proof.
  assert (E : exists text,
             write_opt3d_mapping Lib.format_float (fun s => s) (fun _ => None)
                                 (fun _ => None) "out" [0; 2] [0; 1] [5 # 2; 7]
                                 EXTRA_CONSTANTS FLOAT_FMT = (Some text, Done tt))
    by (eexists; vm_compute; reflexivity).
  destruct E as [text E].
  destruct (written_rows_read_back Lib.format_float (fun s => s) (fun _ => None)
              (fun _ => None) Lib.float_of_fixed
              (fun v => match Lib.float_of_fixed (Lib.format_fixed FLOAT_FMT v) with
                        | Some q => q
                        | None => 0
                        end)
              "out" [0; 2] [0; 1] [5 # 2; 7] EXTRA_CONSTANTS FLOAT_FMT text)
    as (_ & _ & H).
  - reflexivity.
  - repeat constructor; discriminate.
  - intros v s Hv Hs. cbn [app In] in Hv.
    repeat (destruct Hv as [<-|Hv];
            [apply Ok_inj in Hs; subst s;
             split; [split; [vm_compute; discriminate|vm_compute; reflexivity]
                    |vm_compute; reflexivity]|]).
    contradiction.
  - exact E.
  - exists text. eexists. split; [exact E|]. split; [exact H|reflexivity].
Defined.

(** ** The whole run of the mapping script (script 2, lines 153-189) *)

(** A fit that returned has evaluated its surface on the mesh, so the
    solver gave it a coefficient for every exponent pair. *)
Lemma fit_points_coeffs (np_sqrt : Q -> Q)
      (lstsq : Np.ndarray2 -> list Q -> result (list Q)) (points : list (list Q)) (order : Z) (out : outputs) :
  fit_points np_sqrt lstsq points order = Ok out ->
  exists c,
    model out = fitted_model np_sqrt points order c
    /\ (length (exponents order) <= length c)%nat
    /\ points <> [].
Proof.
  unfold fit_points.
  destruct (column points 0) as [x_raw|] eqn:Ex; [|discriminate].
  destruct (column_ok _ _ _ Ex) as [-> Hne].
  rewrite !(column_nonempty _ _ Hne). cbn [bind].
  destruct (build_design_matrix _ _ order) as [X|] eqn:EX; [|discriminate].
  cbn [bind].
  destruct (lstsq X _) as [c|] eqn:Ec; [|discriminate].
  cbn [bind].
  destruct (evaluate_fitted_surface c _ _ order) as [zg|] eqn:Ez;
    [|discriminate].
  cbn [bind]. intros <-%Ok_inj. cbn [model].
  exists c. split; [reflexivity|]. split; [|exact Hne].
  destruct (Nat.le_gt_cases (length (exponents order)) (length c)) as [L|L];
    [exact L|].
  rewrite evaluate_fitted_surface_loop in Ez.
  match type of Ez with
  | bind (for_each _ (eval_body _ ?x ?y) (?z, _)) _ = _ =>
      pose proof (eval_body_short x y (exponents order) [] c z L) as E
  end.
  cbn [app length] in E. rewrite E in Ez. discriminate.
Qed.



(** A run of the point generator that returns, on a domain that is not
    inverted: the arrays are not empty, of equal length, and in the
    domain. *)
Lemma generated_run_in_domain
      (fuel : nat) (x_min x_max y_min y_max p_start p_end p_y : Q)
      (include_edges : bool) (X Y : list Q) :
  x_min <= x_max -> y_min <= y_max ->
  generate_points fuel (x_min, x_max, y_min, y_max) p_start p_end p_y
                  include_edges = Some (Ok (X, Y)) ->
  length X = length Y /\ X <> []
  /\ within x_min x_max X /\ within y_min y_max Y.
Proof.
  intros Hx Hy Hrun.
  destruct (pitches_of_result _ _ _ _ _ _ _ Hrun) as (Hs & He & Hpy).
  destruct (generate_points_inv _ _ _ _ _ _ _ _ _ _ _ Hrun)
    as (ys0 & ys & Eys0 & Eys & Hrows).
  rewrite ys_loop_walk in Eys0.
  destruct (walk_edge_within fuel _ y_min y_max include_edges ys0 ys
              (fun _ => Hpy) Hy Eys0 Eys) as [Wy Ny].
  destruct ys as [|yy ys']; [congruence|].
  destruct Hrows as (row0 & row & Erow0 & Erow & -> & ->).
  rewrite row_loop_walk in Erow0.
  assert (Hpos : forall x, 0 < linear_pitch_x x x_min x_max p_start p_end).
  { intros x. pose proof (linear_pitch_x_lower x x_min x_max p_start p_end).
    pose proof (min_pos _ _ Hs He). lra. }
  destruct (walk_edge_within fuel _ x_min x_max include_edges row0 row
              Hpos Hx Erow0 Erow) as [Wx Nx].
  split; [apply length_concat_rows|]. split.
  - destruct row; [congruence|]. discriminate.
  - split; [now apply within_concat_const | now apply within_concat_repeat].
Qed.

Section MainFacts.

Variable format_float : string -> Q -> result string.
Variable dirname : string -> string.
Variable makedirs : string -> option failure.
Variable open_w : string -> option failure.
Variable export_mesh : string -> option failure.
Variable parse_float : string -> option Q.
Variable np_sqrt : Q -> Q.
Variable lstsq : Np.ndarray2 -> list Q -> result (list Q).

(** What [main] does after [ensure_model_json] has returned, on a model
    that loads and points the generator returned. *)
Lemma main_after_ensure (fuel : nat) (fs fs1 : files) (model : dict)
      (m : loaded) (c X Y : list Q) :
  ensure_model_json dirname makedirs open_w export_mesh parse_float np_sqrt
                    lstsq fs = (fs1, Done tt) ->
  model_json fs1 = Some model ->
  load_model model = Ok m ->
  coeffs m = Np.Vector c ->
  (length (exponents (order m)) <= length c)%nat ->
  generate_points fuel (x_min m, x_max m, y_min m, y_max m)
                  PITCH_X_START PITCH_X_END PITCH_Y INCLUDE_EDGES
  = Some (Ok (X, Y)) ->
  length X = length Y ->
  let x_norm := Np.div_scalar (Np.sub_scalar X (x_mean m)) (x_std m) in
  let y_norm := Np.div_scalar (Np.sub_scalar Y (y_mean m)) (y_std m) in
  let Z := Np.map2 (poly_at c (order m)) x_norm y_norm in
  eval_poly2d c x_norm y_norm (order m) = Ok Z
  /\ length Z = length X
  /\ main format_float dirname makedirs open_w export_mesh parse_float
          np_sqrt lstsq fuel fs
     = Some (match write_opt3d_mapping format_float dirname makedirs open_w
                                       OUTPUT_MAPPING X Y Z
                                       EXTRA_CONSTANTS FLOAT_FMT with
             | (None, r) => (fs1, r)
             | (Some text, r) =>
                 ({| model_json := model_json fs1;
                     input_mapping := input_mapping fs1;
                     output_stl := output_stl fs1;
                     output_mapping := Some text |}, r)
             end).
Proof.
  intros Hens Hmodel Hload Hc Hlen Hgen HXY x_norm y_norm Z.
  assert (Hn : length x_norm = length y_norm).
  { unfold x_norm, y_norm. now rewrite !length_sub_div. }
  assert (Hev : eval_poly2d c x_norm y_norm (order m) = Ok Z).
  { rewrite eval_poly2d_loop. now apply eval_loop_value. }
  split; [exact Hev|]. split.
  { unfold Z. rewrite (map2_length _ _ _ Hn). unfold x_norm.
    apply length_sub_div. }
  unfold main. rewrite Hens, Hmodel, Hload, Hgen, Hc. cbn [indexable].
  fold x_norm y_norm. rewrite Hev.
  now destruct (write_opt3d_mapping _ _ _ _ _ _ _ _ _ _) as [[text|] r].
Qed.

End MainFacts.

(** X17.  A run of [main] on an existing model file, whenever the point
    generator returns.  Let the model load, hold a flat coefficient vector
    with at least as many entries as its order needs, have non-zero standard
    deviations and a domain that is not inverted; let [generate_points]
    return [(X, Y)] on that domain with the configured pitches, the
    directory of the output be made, the output open, and the formatter
    accept the configured format.  Then [main] completes and writes the
    mapping file and nothing else (the model file, the mesh and the input
    mapping are left as they were; neither the input mapping nor the fitting
    routines are used): the file holds the number of points and one row per
    point; there is at least one point, the points lie in the model's
    domain, and the heights are [eval_poly2d] at the normalized points. *)
Theorem main_with_model
        (format_float : string -> Q -> result string)
        (dirname : string -> string) (makedirs open_w : string -> option failure)
        (fs : files) (model : dict) (m : loaded) (c : list Q)
        (fuel : nat) (X Y : list Q) :
  model_json fs = Some model ->
  load_model model = Ok m ->
  coeffs m = Np.Vector c ->
  (length (exponents (order m)) <= length c)%nat ->
  x_min m <= x_max m -> y_min m <= y_max m ->
  ~ x_std m == 0 -> ~ y_std m == 0 ->
  generate_points fuel (x_min m, x_max m, y_min m, y_max m)
                  PITCH_X_START PITCH_X_END PITCH_Y INCLUDE_EDGES
  = Some (Ok (X, Y)) ->
  makedirs (dirname OUTPUT_MAPPING) = None ->
  open_w OUTPUT_MAPPING = None ->
  (forall v, exists s, format_float FLOAT_FMT v = Ok s) ->
  exists Z,
    eval_poly2d c (Np.div_scalar (Np.sub_scalar X (x_mean m)) (x_std m))
                (Np.div_scalar (Np.sub_scalar Y (y_mean m)) (y_std m))
                (order m)
    = Ok Z
    /\ (forall export_mesh parse_float np_sqrt lstsq,
           main format_float dirname makedirs open_w export_mesh parse_float
                np_sqrt lstsq fuel fs
           = Some ({| model_json := model_json fs;
                      input_mapping := input_mapping fs;
                      output_stl := output_stl fs;
                      output_mapping :=
                        Some (mapping_text (text_of format_float) X Y Z) |},
                   Done tt))
    /\ X <> [] /\ length Y = length X /\ length Z = length X
    /\ length (mapping_text (text_of format_float) X Y Z) = S (length X)
    /\ within (x_min m) (x_max m) X
    /\ within (y_min m) (y_max m) Y.
Proof.
  intros Hmodel Hload Hc Hlen Hx Hy _ _ Hgen Hm Ho Hfmt.
  destruct (generated_run_in_domain _ _ _ _ _ _ _ _ _ _ _ Hx Hy Hgen)
    as (HXY & HX & Wx & Wy).
  assert (Hens : forall export_mesh parse_float np_sqrt lstsq,
             ensure_model_json dirname makedirs open_w export_mesh parse_float
                               np_sqrt lstsq fs = (fs, Done tt)).
  { intros. unfold ensure_model_json. now rewrite Hmodel. }
  pose proof (fun export_mesh parse_float np_sqrt lstsq =>
                main_after_ensure format_float dirname makedirs open_w
                  export_mesh parse_float np_sqrt lstsq fuel fs fs model m c
                  X Y (Hens _ _ _ _) Hmodel Hload Hc Hlen Hgen HXY) as H.
  cbv zeta in H.
  destruct (H (fun _ => None) (fun _ => None) (fun q => q)
              (fun _ _ => Raise LinAlgError)) as (Hev & HZ & _).
  eexists. split; [exact Hev|]. split.
  { intros export_mesh parse_float np_sqrt lstsq.
    rewrite (proj2 (proj2 (H export_mesh parse_float np_sqrt lstsq))).
    rewrite (write_opt3d_mapping_lines format_float dirname makedirs open_w
               OUTPUT_MAPPING X Y _ EXTRA_CONSTANTS FLOAT_FMT eq_refl Hm Ho).
    - now rewrite Hmodel.
    - intros p _. unfold format_point.
      destruct (Hfmt (fst (fst p))) as [s1 ->].
      destruct (Hfmt (snd (fst p))) as [s2 ->].
      destruct (Hfmt (snd p)) as [s3 ->]. cbn [bind]. eauto. }
  split; [exact HX|]. split; [now symmetry|]. split; [exact HZ|].
  split.
  { unfold mapping_text. cbn [length]. rewrite length_map, length_zip3.
    rewrite HZ, <- HXY, !Nat.min_id. reflexivity. }
  split; [exact Wx|exact Wy].
Qed.

Lemma format_float_accepts (v : Q) :
  exists s, Lib.format_float FLOAT_FMT v = Ok s.
Proof. eexists. reflexivity. Qed.

Lemma main_with_model_witness :
  exists X Y Z,
    generate_points 8 (0, 10, 0, 3) PITCH_X_START PITCH_X_END PITCH_Y
                    INCLUDE_EDGES = Some (Ok (X, Y))
    /\ main Lib.format_float (fun s => s) (fun _ => None) (fun _ => None)
            (fun _ => None) Lib.float_of_decimal Lib.sqrt_exact
            Lib.lstsq_one_column 8
            {| model_json := Some (model_dict 1 [1; 2; 3] 5 2 1 1 0 10 0 3);
               input_mapping := None; output_stl := None;
               output_mapping := None |}
       = Some ({| model_json := Some (model_dict 1 [1; 2; 3] 5 2 1 1 0 10 0 3);
                  input_mapping := None; output_stl := None;
                  output_mapping :=
                    Some (mapping_text (text_of Lib.format_float) X Y Z) |},
               Done tt)
    /\ X <> [] /\ length Y = length X /\ length Z = length X.
Proof.
  assert (E : exists X Y,
             generate_points 8 (0, 10, 0, 3) PITCH_X_START PITCH_X_END PITCH_Y
                             INCLUDE_EDGES = Some (Ok (X, Y)))
    by (do 2 eexists; vm_compute; reflexivity).
  destruct E as (X & Y & E).
  destruct (main_with_model Lib.format_float (fun s => s) (fun _ => None)
              (fun _ => None)
              {| model_json := Some (model_dict 1 [1; 2; 3] 5 2 1 1 0 10 0 3);
                 input_mapping := None; output_stl := None;
                 output_mapping := None |}
              (model_dict 1 [1; 2; 3] 5 2 1 1 0 10 0 3)
              {| order := 1; coeffs := Np.Vector [1; 2; 3];
                 x_mean := 5; x_std := 2; y_mean := 1; y_std := 1;
                 x_min := 0; x_max := 10; y_min := 0; y_max := 3 |}
              [1; 2; 3] 8 X Y)
    as (Z & _ & Hrun & HX & HY & HZ & _);
    [ reflexivity | reflexivity | reflexivity | vm_compute; lia
    | discriminate | discriminate | discriminate | discriminate
    | exact E | reflexivity | reflexivity | exact format_float_accepts | ].
  exists X, Y, Z. split; [exact E|]. split; [apply Hrun|auto].
Defined.

(** X18.  A run of [main] without a model file, whenever the fit
    succeeds and the point generator returns.  Let the input mapping exist,
    [create_polynomial_surface] with the default order 5 return on it, the
    mesh be exported, the directories be made and the files open, the model
    just fitted have non-zero standard deviations, [generate_points] return
    [(X, Y)] on its domain, and the formatter accept the configured format.
    Then [ensure_model_json] stores the mesh and the model, whose order is
    5, and [main] loads that model and completes: the mapping file it writes
    holds at least one point, and every point lies in the domain of the
    model just fitted, which is the bounding box of the input points. *)
Theorem main_fits_missing_model
        (format_float : string -> Q -> result string)
        (dirname : string -> string)
        (makedirs open_w export_mesh : string -> option failure)
        (parse_float : string -> option Q) (np_sqrt : Q -> Q)
        (lstsq : Np.ndarray2 -> list Q -> result (list Q))
        (fs : files) (file_lines : list string) (out : outputs)
        (m : loaded) (fuel : nat) (X Y : list Q) :
  model_json fs = None ->
  input_mapping fs = Some file_lines ->
  create_polynomial_surface parse_float np_sqrt lstsq file_lines 5 = Ok out ->
  export_mesh OUTPUT_STL = None ->
  makedirs (dirname MODEL_JSON) = None -> open_w MODEL_JSON = None ->
  load_model (model out) = Ok m ->
  ~ x_std m == 0 -> ~ y_std m == 0 ->
  generate_points fuel (x_min m, x_max m, y_min m, y_max m)
                  PITCH_X_START PITCH_X_END PITCH_Y INCLUDE_EDGES
  = Some (Ok (X, Y)) ->
  makedirs (dirname OUTPUT_MAPPING) = None -> open_w OUTPUT_MAPPING = None ->
  (forall v, exists s, format_float FLOAT_FMT v = Ok s) ->
  lookup (model out) "order" = Ok (JInt 5)
  /\ ensure_model_json dirname makedirs open_w export_mesh parse_float np_sqrt
                       lstsq fs
     = ({| model_json := Some (model out);
           input_mapping := Some file_lines;
           output_stl := Some (vertices out, faces out);
           output_mapping := output_mapping fs |}, Done tt)
  /\ x_min m <= x_max m /\ y_min m <= y_max m
  /\ exists Z,
       main format_float dirname makedirs open_w export_mesh parse_float
            np_sqrt lstsq fuel fs
       = Some ({| model_json := Some (model out);
                  input_mapping := Some file_lines;
                  output_stl := Some (vertices out, faces out);
                  output_mapping :=
                    Some (mapping_text (text_of format_float) X Y Z) |},
               Done tt)
       /\ X <> [] /\ length Y = length X /\ length Z = length X
       /\ within (x_min m) (x_max m) X
       /\ within (y_min m) (y_max m) Y.
Proof.
  intros Hnone Hin Hrun Hexp Hmk Hop Hload _ _ Hgen Hm Ho Hfmt.
  assert (Hens : ensure_model_json dirname makedirs open_w export_mesh
                                   parse_float np_sqrt lstsq fs
                 = ({| model_json := Some (model out);
                       input_mapping := Some file_lines;
                       output_stl := Some (vertices out, faces out);
                       output_mapping := output_mapping fs |}, Done tt)).
  { unfold ensure_model_json. rewrite Hnone, Hin, Hrun, Hexp, Hmk, Hop.
    cbn [model_json input_mapping output_stl output_mapping].
    reflexivity. }
  unfold create_polynomial_surface in Hrun.
  destruct (read_points parse_float file_lines) as [points|];
    cbn [bind] in Hrun; [|discriminate].
  destruct (fit_points_coeffs np_sqrt lstsq points 5 out Hrun)
    as (c & Hmo & Hlen & Hne).
  assert (Hxs : x_raw_of points <> [])
    by (destruct points; [congruence|discriminate]).
  assert (Hys : y_raw_of points <> [])
    by (destruct points; [congruence|discriminate]).
  destruct (amin_spec _ Hxs) as [Lx _]. destruct (amax_spec _ Hxs) as [_ Jx].
  destruct (amin_spec _ Hys) as [Ly _]. destruct (amax_spec _ Hys) as [_ Jy].
  pose proof (load_model_dict 5 c
                (Np.mean (x_raw_of points)) (std np_sqrt (x_raw_of points))
                (Np.mean (y_raw_of points)) (std np_sqrt (y_raw_of points))
                (amin (x_raw_of points)) (amax (x_raw_of points))
                (amin (y_raw_of points)) (amax (y_raw_of points))) as Hload'.
  fold (fitted_model np_sqrt points 5 c) in Hload'. rewrite <- Hmo in Hload'.
  rewrite Hload in Hload'. apply Ok_inj in Hload'. subst m.
  cbn [x_min x_max y_min y_max x_mean x_std y_mean y_std order coeffs] in *.
  split; [now rewrite Hmo|]. split; [exact Hens|].
  split; [apply Lx, Jx|]. split; [apply Ly, Jy|].
  destruct (generated_run_in_domain _ _ _ _ _ _ _ _ _ _ _ (Lx _ Jx) (Ly _ Jy) Hgen)
    as (HXY & HX & Wx & Wy).
  pose proof (main_after_ensure format_float dirname makedirs open_w
                export_mesh parse_float np_sqrt lstsq fuel fs _ (model out) _ c
                X Y Hens eq_refl Hload eq_refl Hlen Hgen HXY) as H.
  cbv zeta in H. cbn [input_mapping output_stl model_json] in H.
  destruct H as (_ & HZ & Hmain).
  eexists. split.
  { rewrite Hmain.
    rewrite (write_opt3d_mapping_lines format_float dirname makedirs open_w
               OUTPUT_MAPPING X Y _ EXTRA_CONSTANTS FLOAT_FMT eq_refl Hm Ho).
    - reflexivity.
    - intros p _. unfold format_point.
      destruct (Hfmt (fst (fst p))) as [s1 ->].
      destruct (Hfmt (snd (fst p))) as [s2 ->].
      destruct (Hfmt (snd p)) as [s3 ->]. cbn [bind]. eauto. }
  split; [exact HX|]. split; [now symmetry|]. split; [exact HZ|].
  split; [exact Wx | exact Wy].
Qed.

Lemma main_fits_missing_model_witness :
  exists out m X Y Z,
    create_polynomial_surface Lib.float_of_decimal Lib.sqrt_exact
                              Lib.lstsq_zero_rhs [ "2"; "0 0 0"; "2 2 0" ] 5
    = Ok out
    /\ load_model (model out) = Ok m
    /\ main Lib.format_float (fun s => s) (fun _ => None) (fun _ => None)
            (fun _ => None) Lib.float_of_decimal Lib.sqrt_exact
            Lib.lstsq_zero_rhs 8
            {| model_json := None;
               input_mapping := Some [ "2"; "0 0 0"; "2 2 0" ];
               output_stl := None; output_mapping := None |}
       = Some ({| model_json := Some (model out);
                  input_mapping := Some [ "2"; "0 0 0"; "2 2 0" ];
                  output_stl := Some (vertices out, faces out);
                  output_mapping :=
                    Some (mapping_text (text_of Lib.format_float) X Y Z) |},
               Done tt)
    /\ X <> [].
Proof.
  assert (Hxy : length (normalized Lib.sqrt_exact
                          (x_raw_of [ [0; 0; 0]; [2; 2; 0] ]))
                = length (normalized Lib.sqrt_exact
                            (y_raw_of [ [0; 0; 0]; [2; 2; 0] ])))
    by reflexivity.
  destruct (design_matrix_shape _ _ 5 ltac:(lia) Hxy) as (D & HD & Hsh & _).
  destruct (run_of_solution Lib.float_of_decimal Lib.sqrt_exact
              Lib.lstsq_zero_rhs [ "2"; "0 0 0"; "2 2 0" ]
              [ [0; 0; 0]; [2; 2; 0] ] 5 D (repeat 0 (snd (Np.shape D))))
    as (out & Hout & Hmo);
    [ vm_compute; reflexivity | discriminate | lia | exact HD
    | apply lstsq_zero_rhs_run; reflexivity
    | rewrite repeat_length, Hsh; apply Nat.le_refl | ].
  pose proof (load_model_dict 5 (repeat 0 (snd (Np.shape D)))
                (Np.mean (x_raw_of [ [0; 0; 0]; [2; 2; 0] ]))
                (std Lib.sqrt_exact (x_raw_of [ [0; 0; 0]; [2; 2; 0] ]))
                (Np.mean (y_raw_of [ [0; 0; 0]; [2; 2; 0] ]))
                (std Lib.sqrt_exact (y_raw_of [ [0; 0; 0]; [2; 2; 0] ]))
                (amin (x_raw_of [ [0; 0; 0]; [2; 2; 0] ]))
                (amax (x_raw_of [ [0; 0; 0]; [2; 2; 0] ]))
                (amin (y_raw_of [ [0; 0; 0]; [2; 2; 0] ]))
                (amax (y_raw_of [ [0; 0; 0]; [2; 2; 0] ]))) as Hload.
  fold (fitted_model Lib.sqrt_exact [ [0; 0; 0]; [2; 2; 0] ] 5
                     (repeat 0 (snd (Np.shape D)))) in Hload.
  rewrite <- Hmo in Hload.
  match type of Hload with _ = Ok ?r => set (m := r) in * end.
  assert (E : exists X Y,
             generate_points 8 (x_min m, x_max m, y_min m, y_max m)
                             PITCH_X_START PITCH_X_END PITCH_Y INCLUDE_EDGES
             = Some (Ok (X, Y)))
    by (do 2 eexists; vm_compute; reflexivity).
  destruct E as (X & Y & E).
  destruct (main_fits_missing_model Lib.format_float (fun s => s)
              (fun _ => None) (fun _ => None) (fun _ => None)
              Lib.float_of_decimal Lib.sqrt_exact Lib.lstsq_zero_rhs
              {| model_json := None;
                 input_mapping := Some [ "2"; "0 0 0"; "2 2 0" ];
                 output_stl := None; output_mapping := None |}
              [ "2"; "0 0 0"; "2 2 0" ] out m 8 X Y)
    as (_ & _ & _ & _ & Z & Hrun & HX & _);
    [ reflexivity | reflexivity | exact Hout | reflexivity | reflexivity
    | reflexivity | exact Hload | vm_compute; discriminate
    | vm_compute; discriminate | exact E | reflexivity | reflexivity
    | exact format_float_accepts | ].
  exists out, m, X, Y, Z. auto.
Defined.


(** ** Loading the model (script 2, lines 170-178) *)

Lemma lookup_raise (d : dict) (k : string) (e : exn) :
  lookup d k = Raise e -> e = KeyError k.
Proof.
  induction d as [|[k' v] d IH]; cbn [lookup].
  - intros H. now inversion H.
  - destruct (String.eqb k' k); [discriminate|exact IH].
Qed.

Lemma bind_lookup_ok {A : Type} (model : dict) (key : string)
      (conv : json -> result A) (a : A) :
  bind (lookup model key) conv = Ok a -> exists v, lookup model key = Ok v.
Proof.
  destruct (lookup model key) as [v|]; [intros _; now exists v|discriminate].
Qed.

Lemma bind_lookup_raise {A : Type} (model : dict) (key k : string)
      (conv : json -> result A) :
  (forall v, conv v <> Raise (KeyError k)) ->
  bind (lookup model key) conv = Raise (KeyError k) ->
  k = key /\ lookup model key = Raise (KeyError key).
Proof.
  intros Hconv. destruct (lookup model key) as [v|e] eqn:E; cbn [bind].
  - intros H. now apply Hconv in H.
  - intros H. inversion H; subst. apply lookup_raise in E.
    inversion E; subst. split; reflexivity.
Qed.

Lemma bind_raise_inv {A B : Type} (r : result A) (f : A -> result B) (e : exn) :
  bind r f = Raise e -> r = Raise e \/ exists a, r = Ok a /\ f a = Raise e.
Proof.
  destruct r as [a|e']; cbn [bind]; intros H.
  - right. exists a. split; [reflexivity|exact H].
  - left. now inversion H.
Qed.

(** X20.  [main] reads ten keys of the model file and nothing else: two
    dictionaries that agree on those keys load to the same result (further
    keys, and the order of the keys, do not matter); loading succeeds only
    if all ten keys are present; and a [KeyError] names one of the ten keys,
    which is then missing. *)
Theorem load_model_reads_ten_keys (model : dict) :
  (forall model',
      (forall k, In k model_keys -> lookup model' k = lookup model k) ->
      load_model model' = load_model model)
  /\ (forall m,
         load_model model = Ok m ->
         forall k, In k model_keys -> exists v, lookup model k = Ok v)
  /\ (forall k,
         load_model model = Raise (KeyError k) ->
         In k model_keys /\ lookup model k = Raise (KeyError k)).
Proof.
  split; [|split].
  - intros model' H. unfold load_model.
    rewrite !H
      by (unfold model_keys; cbn [In];
          repeat (first [left; reflexivity | right])).
    reflexivity.
  - intros m. unfold load_model, py_or, X_MIN, X_MAX, Y_MIN, Y_MAX.
    repeat run_bind. intros _ k Hk.
    repeat match goal with
           | E : bind (lookup _ _) _ = Ok _ |- _ => apply bind_lookup_ok in E
           end.
    unfold model_keys in Hk. cbn [In] in Hk.
    repeat (destruct Hk as [<-|Hk]; [assumption|]). contradiction.
  - intros k. unfold load_model, py_or, X_MIN, X_MAX, Y_MIN, Y_MAX.
    intros H.
    repeat (apply bind_raise_inv in H;
            destruct H as [H|(? & _ & H)];
            [ apply bind_lookup_raise in H;
              [ destruct H as [-> H]; split;
                [ unfold model_keys; cbn [In];
                  repeat (first [left; reflexivity | right])
                | exact H ]
              | intros v; destruct v; discriminate ]
            | ]).
    discriminate.
Qed.

(** ** What the fit reads of its input (script 1, lines 83-86) *)

Lemma kept_firstn (line : string) :
  kept line = (length (firstn 3 (split line)) =? 3)%nat.
Proof.
  unfold kept. rewrite length_firstn.
  destruct (Nat.leb_spec 3 (length (split line))) as [L|L];
    symmetry; [apply Nat.eqb_eq | apply Nat.eqb_neq]; lia.
Qed.

(** X21.  The fit reads only the first three fields of each line after
    the first: the header line (the point count) and every field after the
    third (the nine constants) have no influence on the points read, nor
    on anything computed from them. *)
Theorem header_and_extra_fields_ignored
        (py_float : string -> option Q) (np_sqrt : Q -> Q)
        (lstsq : Np.ndarray2 -> list Q -> result (list Q))
        (header header' : string) (rows rows' : list string) (order : Z) :
  Forall2 (fun l l' => firstn 3 (split l) = firstn 3 (split l')) rows rows' ->
  read_points py_float (header :: rows) = read_points py_float (header' :: rows')
  /\ create_polynomial_surface py_float np_sqrt lstsq (header :: rows) order
     = create_polynomial_surface py_float np_sqrt lstsq (header' :: rows') order.
Proof.
  intros H.
  assert (E : read_points py_float (header :: rows)
              = read_points py_float (header' :: rows')).
  { rewrite !read_points_body. generalize (@nil (list Q)).
    induction H as [|l l' rows rows' Hl _ IH]; intros acc; [reflexivity|].
    cbn [for_each].
    assert (Hb : read_body py_float acc l = read_body py_float acc l').
    { unfold read_body, convert_row. now rewrite !kept_firstn, Hl. }
    rewrite Hb. destruct (read_body py_float acc l'); cbn [bind];
      [apply IH|reflexivity]. }
  split; [exact E|]. unfold create_polynomial_surface. now rewrite E.
Qed.

Lemma header_and_extra_fields_ignored_witness :
  read_points Lib.float_of_decimal [ "2"; "1 2 3 9 9"; "4 5 6" ]
  = read_points Lib.float_of_decimal [ "7"; "1 2 3"; " 4 5  6 0 0 0" ].
Proof.
  apply (header_and_extra_fields_ignored Lib.float_of_decimal Lib.sqrt_exact
           Lib.lstsq_one_column "2" "7" [ "1 2 3 9 9"; "4 5 6" ]
           [ "1 2 3"; " 4 5  6 0 0 0" ] 0).
  repeat constructor.
Defined.

(** ** The normalization of the coordinates (script 1, lines 90-93) *)

Lemma sum_acc (l : list Q) :
  forall acc, fold_left Qplus l acc == acc + fold_left Qplus l 0.
Proof.
  induction l as [|a l IH]; intros acc; cbn [fold_left]; [ring|].
  rewrite (IH (acc + a)), (IH (0 + a)). ring.
Qed.

Lemma sum_cons (a : Q) (l : list Q) : Np.sum (a :: l) == a + Np.sum l.
Proof. unfold Np.sum. cbn [fold_left]. rewrite sum_acc. ring. Qed.

Lemma map2_diag (f : Q -> Q -> Q) (d : list Q) :
  Np.map2 f d d = map (fun v => f v v) d.
Proof. induction d as [|v d IH]; cbn; [reflexivity|now rewrite IH]. Qed.

Lemma sum_centred (m s : Q) (x : list Q) :
  Np.sum (map (fun a => (a - m) / s) x)
  == (Np.sum x - inject_Z (Z.of_nat (length x)) * m) * / s.
Proof.
  induction x as [|a x IH].
  - cbn [map length]. change (inject_Z (Z.of_nat 0)) with 0.
    unfold Np.sum. cbn [fold_left]. ring.
  - cbn [map]. rewrite !sum_cons, IH.
    change (length (a :: x)) with (S (length x)). rewrite inject_succ.
    unfold Qdiv. ring.
Qed.

Lemma sum_squares_scaled (m s mu : Q) (x : list Q) :
  mu == 0 ->
  Np.sum (map (fun a => ((a - m) / s - mu) * ((a - m) / s - mu)) x)
  == Np.sum (map (fun a => (a - m) * (a - m)) x) * (/ s * / s).
Proof.
  intros Hmu. induction x as [|a x IH].
  - unfold Np.sum. cbn [map fold_left]. ring.
  - cbn [map]. rewrite !sum_cons, IH, Hmu. unfold Qdiv. ring.
Qed.

Lemma normalized_map (np_sqrt : Q -> Q) (raw : list Q) :
  normalized np_sqrt raw
  = map (fun a => (a - Np.mean raw) / std np_sqrt raw) raw.
Proof.
  unfold normalized, Np.div_scalar, Np.sub_scalar. now rewrite map_map.
Qed.

Lemma var_sum (x : list Q) :
  Np.var x
  = Np.sum (map (fun a => (a - Np.mean x) * (a - Np.mean x)) x)
    / inject_Z (Z.of_nat (length x)).
Proof.
  unfold Np.var, Np.mul, Np.sub_scalar. cbv zeta.
  rewrite map2_diag, map_map. unfold Np.mean at 1.
  now rewrite !length_map.
Qed.

(** X22.  The normalization centres and scales: for a non-empty array
    whose standard deviation is not zero, the normalized array has mean
    zero, and, when the square of the standard deviation the square-root
    routine returned is the variance, variance one (over exact
    arithmetic). *)
Theorem normalization_standardizes (np_sqrt : Q -> Q) (raw : list Q) :
  raw <> [] -> ~ std np_sqrt raw == 0 ->
  length (normalized np_sqrt raw) = length raw
  /\ Np.mean (normalized np_sqrt raw) == 0
  /\ (std np_sqrt raw * std np_sqrt raw == Np.var raw ->
      Np.var (normalized np_sqrt raw) == 1).
Proof.
  intros Hne Hs.
  pose proof (length_pos_Q raw Hne) as Hn.
  assert (Hlen : length (normalized np_sqrt raw) = length raw)
    by (unfold normalized; apply length_sub_div).
  assert (Hmean : Np.mean (normalized np_sqrt raw) == 0).
  { unfold Np.mean at 1. rewrite Hlen, normalized_map, sum_centred.
    unfold Np.mean. set (n := inject_Z (Z.of_nat (length raw))) in *.
    field. split; [exact Hs | lra]. }
  split; [exact Hlen|]. split; [exact Hmean|].
  intros Hsq. rewrite var_sum, Hlen.
  rewrite normalized_map at 1. rewrite map_map.
  rewrite (sum_squares_scaled (Np.mean raw) (std np_sqrt raw) _ raw Hmean).
  rewrite var_sum in Hsq.
  set (n := inject_Z (Z.of_nat (length raw))) in *.
  set (S2 := Np.sum (map (fun a => (a - Np.mean raw) * (a - Np.mean raw)) raw)) in *.
  set (s := std np_sqrt raw) in *.
  assert (E : S2 == s * s * n) by (rewrite Hsq; field; lra).
  rewrite E. field. split; [exact Hs | lra].
Qed.

Lemma normalization_standardizes_witness :
  Np.mean (normalized Lib.sqrt_exact [0; 2]) == 0
  /\ Np.var (normalized Lib.sqrt_exact [0; 2]) == 1.
Proof.
  destruct (normalization_standardizes Lib.sqrt_exact [0; 2])
    as (_ & Hm & Hv); [discriminate | vm_compute; discriminate |].
  split; [exact Hm | apply Hv; vm_compute; reflexivity].
Defined.

(** ** The removal probability (script 3, lines 435-460) *)

Lemma interpolate_loop_segments (x_norm : Q) (rest : list (Q * Q)) :
  rest <> [] ->
  forall pre,
    match interpolate_loop x_norm (pre ++ rest)
                           (seq (length pre) (length rest - 1)) with
    | Some r => r
    | None =>
        match last_item (pre ++ rest) with
        | Ok (_, p) => Done p
        | Raise e => Failed (Exception e)
        end
    end
    = segments x_norm rest.
Proof.
  induction rest as [|[x0 p0] rest IH]; intros Hne pre; [congruence|].
  destruct rest as [|[x1 p1] rest].
  - cbn [length Nat.sub seq interpolate_loop segments].
    now rewrite last_item_app.
  - change (length ((x0, p0) :: (x1, p1) :: rest) - 1)%nat
      with (S (length rest)).
    cbn [seq interpolate_loop segments]. unfold getitem.
    rewrite nth_error_app2, Nat.sub_diag by lia. cbn [nth_error].
    rewrite nth_error_app2 by lia.
    replace (length pre + 1 - length pre)%nat with 1%nat by lia.
    cbn [nth_error].
    destruct (leb x0 x_norm && leb x_norm x1); [reflexivity|].
    specialize (IH ltac:(discriminate) (pre ++ [(x0, p0)])).
    rewrite <- app_assoc, length_app in IH. cbn [app length] in IH.
    replace (length pre + 1)%nat with (S (length pre)) in IH by lia.
    replace (S (length rest) - 0)%nat with (S (length rest)) in IH by lia.
    cbn [Nat.sub] in IH. rewrite Nat.sub_0_r in IH. exact IH.
Qed.

(** The loop over the indices walks the segments in order. *)
Lemma interpolate_probability_segments (x_norm : Q) (control_points : list (Q * Q)) :
  interpolate_probability x_norm control_points = segments x_norm control_points.
Proof.
  unfold interpolate_probability. rewrite range_of_nat_pred.
  destruct control_points as [|c cps]; [reflexivity|].
  apply (interpolate_loop_segments x_norm (c :: cps) ltac:(discriminate) []).
Qed.

Lemma increasing_tail (x1 p1 : Q) (rest : list (Q * Q)) :
  increasing ((x1, p1) :: rest) ->
  forall x p, In (x, p) rest -> x1 < x.
Proof.
  revert x1 p1. induction rest as [|[x2 p2] rest IH]; intros x1 p1 Hinc x p Hin;
    [contradiction|].
  destruct Hinc as [H12 Hinc]. destruct Hin as [Hin|Hin].
  - inversion Hin; subst. exact H12.
  - specialize (IH _ _ Hinc _ _ Hin). lra.
Qed.

Lemma truediv_run (a b : Q) : ~ b == 0 -> truediv a b = Done (a / b).
Proof.
  intros H. unfold truediv, eqb. destruct (Qeq_bool b 0) eqn:E; [|reflexivity].
  apply Qeq_bool_iff in E. contradiction.
Qed.

Lemma truediv_zero (a b : Q) : b == 0 -> truediv a b = Failed ZeroDivisionError.
Proof.
  intros H. unfold truediv, eqb. apply Qeq_bool_iff in H. now rewrite H.
Qed.

Lemma segment_test (x0 x x1 : Q) :
  leb x0 x && leb x x1 = true <-> x0 <= x /\ x <= x1.
Proof. rewrite andb_true_iff, !leb_true. reflexivity. Qed.

(** On strictly increasing control points no division fails, and the
    result lies between the bounds of the probabilities. *)
Lemma segments_range (lo hi x_norm : Q) (control_points : list (Q * Q)) :
  control_points <> [] -> increasing control_points ->
  (forall x p, In (x, p) control_points -> lo <= p /\ p <= hi) ->
  exists p, segments x_norm control_points = Done p /\ lo <= p /\ p <= hi.
Proof.
  induction control_points as [|[x0 p0] rest IH]; intros Hne Hinc Hp;
    [congruence|].
  destruct rest as [|[x1 p1] rest].
  - exists p0. split; [reflexivity|]. apply (Hp x0). now left.
  - destruct Hinc as [H01 Hinc]. cbn [segments].
    destruct (leb x0 x_norm && leb x_norm x1) eqn:E.
    + apply segment_test in E. destruct E as [E0 E1].
      rewrite truediv_run by lra. eexists. split; [reflexivity|].
      destruct (Hp x0 p0 ltac:(now left)) as [L0 U0].
      destruct (Hp x1 p1 ltac:(right; now left)) as [L1 U1].
      assert (Ht : 0 <= (x_norm - x0) / (x1 - x0) /\ (x_norm - x0) / (x1 - x0) <= 1).
      { split.
        - assert (E : 0 / (x1 - x0) == 0) by (unfold Qdiv; ring).
          rewrite <- E. apply div_le_compat; lra.
        - assert (E : (x1 - x0) / (x1 - x0) == 1) by (field; lra).
          rewrite <- E. apply div_le_compat; lra. }
      destruct Ht as [T0 T1]. set (t := (x_norm - x0) / (x1 - x0)) in *.
      split; nra.
    + apply IH; [discriminate | exact Hinc |].
      intros x p Hin. apply (Hp x p). now right.
Qed.

(** X23.  Over exact arithmetic, for control points with strictly
    increasing abscissae, [interpolate_probability] returns for every
    position (no division fails), and its value lies between the smallest
    and the largest of the control probabilities: probabilities in [[0, 1]]
    give a probability in [[0, 1]].  In binary64 the value can fall outside
    that range by a rounding error: for the control points [(0, 0.626)] and
    [(1, 0.066)] the value at 1 is [0.06599999999999995], below both
    control probabilities. *)
Theorem interpolation_within_probabilities
        (lo hi x_norm : Q) (control_points : list (Q * Q)) :
  control_points <> [] -> increasing control_points ->
  (forall x p, In (x, p) control_points -> lo <= p /\ p <= hi) ->
  (exists p,
      interpolate_probability x_norm control_points = Done p
      /\ lo <= p /\ p <= hi)
  /\ (let p0 := B64.round (626 # 1000) in
      let p1 := B64.round (66 # 1000) in
      exists p,
        interpolate_probability_fl B64.round 1 [ (0, p0); (1, p1) ] = Done p
        /\ p < p1 /\ p1 < p0).
Proof.
  intros Hne Hinc Hp. split.
  - rewrite interpolate_probability_segments. now apply segments_range.
  - cbv zeta. eexists. split; [vm_compute; reflexivity|].
    split; vm_compute; reflexivity.
Qed.

Lemma interpolation_within_probabilities_witness :
  exists p,
    interpolate_probability (1 # 4) [ (0, 0); (1 # 2, 1 # 2); (1, 1) ] = Done p
    /\ 0 <= p /\ p <= 1.
Proof.
  apply (interpolation_within_probabilities 0 1 (1 # 4)
           [ (0, 0); (1 # 2, 1 # 2); (1, 1) ]).
  - discriminate.
  - cbn [increasing]. repeat split.
  - intros x p [H|[H|[H|[]]]]; inversion H; subst; split; discriminate.
Defined.

(** X24.  For control points with strictly increasing abscissae the
    interpolation passes through the control points: at the abscissa of a
    control point it returns that point's probability. *)
Theorem interpolation_hits_control_points
        (control_points : list (Q * Q)) (x p : Q) :
  increasing control_points -> In (x, p) control_points ->
  exists q, interpolate_probability x control_points = Done q /\ q == p.
Proof.
  rewrite interpolate_probability_segments.
  induction control_points as [|[x0 p0] rest IH]; intros Hinc Hin;
    [contradiction|].
  destruct rest as [|[x1 p1] rest].
  - destruct Hin as [Hin|[]]. inversion Hin; subst.
    exists p. split; reflexivity.
  - pose proof Hinc as [H01 Hinc']. cbn [segments].
    destruct Hin as [Hin|Hin].
    + inversion Hin; subst.
      replace (leb x x && leb x x1) with true
        by (symmetry; apply segment_test; lra).
      rewrite truediv_run by lra. eexists. split; [reflexivity|].
      field. lra.
    + destruct (leb x0 x && leb x x1) eqn:E.
      * apply segment_test in E. destruct E as [E0 E1].
        destruct Hin as [Hin|Hin].
        -- inversion Hin; subst.
           rewrite truediv_run by lra. eexists. split; [reflexivity|].
           field. lra.
        -- pose proof (increasing_tail _ _ _ Hinc' _ _ Hin). lra.
      * apply IH; assumption.
Qed.

Lemma interpolation_hits_control_points_witness :
  exists q,
    interpolate_probability (1 # 2) [ (0, 0); (1 # 2, 1 # 4); (1, 1) ] = Done q
    /\ q == 1 # 4.
Proof.
  apply (interpolation_hits_control_points
           [ (0, 0); (1 # 2, 1 # 4); (1, 1) ] (1 # 2) (1 # 4)).
  - cbn [increasing]. repeat split.
  - right. now left.
Defined.

(** X25.  A position that lies in no segment gets the last control
    probability: this is so to the right of all control points, and also to
    the left of all of them. *)
Theorem interpolation_outside_segments
        (control_points : list (Q * Q)) (x_norm x_last p_last : Q) :
  last_item control_points = Ok (x_last, p_last) ->
  (forall x p, In (x, p) control_points -> x_norm < x)
  \/ (forall x p, In (x, p) control_points -> x < x_norm) ->
  interpolate_probability x_norm control_points = Done p_last.
Proof.
  rewrite interpolate_probability_segments. intros Hlast Hout.
  assert (Hno : forall x0 p0 x1 p1,
             In (x0, p0) control_points -> In (x1, p1) control_points ->
             leb x0 x_norm && leb x_norm x1 = false).
  { intros x0 p0 x1 p1 H0 H1.
    destruct (leb x0 x_norm && leb x_norm x1) eqn:E; [|reflexivity].
    apply segment_test in E. destruct E as [E0 E1]. destruct Hout as [H|H].
    - specialize (H _ _ H0). lra.
    - specialize (H _ _ H1). lra. }
  clear Hout. induction control_points as [|[x0 p0] rest IH];
    [discriminate|].
  destruct rest as [|[x1 p1] rest].
  - cbn in Hlast. inversion Hlast; subst. reflexivity.
  - cbn [segments].
    rewrite (Hno x0 p0 x1 p1) by (cbn [In]; auto).
    apply IH.
    + unfold last_item in *. cbn [rev] in *.
      destruct (rev rest ++ [(x1, p1)]) as [|a l] eqn:E.
      * destruct (rev rest); discriminate.
      * cbn [app] in Hlast. exact Hlast.
    + intros a b c d Ha Hc. apply (Hno a b c d); now right.
Qed.

Lemma interpolation_outside_segments_witness :
  interpolate_probability (-1) [ (0, 0); (1 # 2, 1 # 4); (1, 1) ] = Done 1.
Proof.
  apply (interpolation_outside_segments [ (0, 0); (1 # 2, 1 # 4); (1, 1) ]
           (-1) 1 1); [reflexivity|].
  left. intros x p [H|[H|[H|[]]]]; inversion H; subst; reflexivity.
Defined.

(** X26.  Two leading control points with the same abscissa make the
    interpolation at that abscissa divide by zero: the first segment holds
    the position and has no width, and [ZeroDivisionError] is raised. *)
Theorem interpolation_degenerate_segment
        (x0 p0 x1 p1 x_norm : Q) (rest : list (Q * Q)) :
  x1 == x0 -> x_norm == x0 ->
  interpolate_probability x_norm ((x0, p0) :: (x1, p1) :: rest)
  = Failed ZeroDivisionError.
Proof.
  intros H1 Hx. rewrite interpolate_probability_segments. cbn [segments].
  replace (leb x0 x_norm && leb x_norm x1) with true
    by (symmetry; apply segment_test; lra).
  rewrite truediv_zero by lra. reflexivity.
Qed.

Lemma interpolation_degenerate_segment_witness :
  interpolate_probability 0 [ (0, 0); (0, 1 # 2); (1, 1) ]
  = Failed ZeroDivisionError.
Proof.
  apply (interpolation_degenerate_segment 0 0 0 (1 # 2) 0 [ (1, 1) ]);
    reflexivity.
Defined.

(** ** The filter of the mapping file (script 3, lines 371-432) *)


Lemma parse_loop_lines (parse_float : string -> option Q)
      (data_lines : list string) :
  forall parsed parsed',
    parse_loop parse_float data_lines parsed = Done parsed' ->
    exists new,
      parsed' = parsed ++ new /\ map snd new = data_lines.
Proof.
  induction data_lines as [|line rest IH]; intros parsed parsed' H.
  - cbn [parse_loop] in H. inversion H; subst. exists [].
    split; [now rewrite app_nil_r|reflexivity].
  - cbn [parse_loop] in H.
    destruct (getitem (split line) 0) as [s|]; [|discriminate].
    destruct (parse_float s) as [x|]; [|discriminate].
    destruct (IH _ _ H) as (new & -> & Hnew).
    exists ((x, line) :: new). split; [now rewrite <- app_assoc|].
    cbn [map snd]. now rewrite Hnew.
Qed.

Lemma masked_cons (line : string) (l : list string) (b : bool) (flags : list bool) :
  masked (line :: l) (b :: flags)
  = (if b then [line] else []) ++ masked l flags.
Proof. unfold masked. cbn [combine filter snd]. now destruct b. Qed.

(** The filtering loop draws one random value per line and keeps the
    lines whose probability does not exceed the value drawn. *)
Lemma filter_loop_mask (random : nat -> Q) (control_points : list (Q * Q))
      (x_max : Q) (parsed : list (Q * string)) :
  forall n acc kept n',
    filter_loop random control_points x_max parsed n acc = Done (kept, n') ->
    n' = (n + length parsed)%nat
    /\ exists flags,
         length flags = length parsed
         /\ kept = acc ++ masked (map snd parsed) flags
         /\ forall k b, nth_error flags k = Some b ->
              exists x line p,
                nth_error parsed k = Some (x, line)
                /\ interpolate_probability (x / x_max) control_points = Done p
                /\ b = leb p (random (n + k)%nat).
Proof.
  induction parsed as [|[x line] rest IH]; intros n acc kept n' H.
  - cbn [filter_loop] in H. inversion H; subst. split; [cbn; lia|].
    exists []. split; [reflexivity|]. split; [now rewrite app_nil_r|].
    intros [|k] b Hb; discriminate.
  - cbn [filter_loop] in H.
    unfold truediv in H. destruct (eqb x_max 0); [discriminate|].
    destruct (interpolate_probability (x / x_max) control_points) as [p|] eqn:Ep;
      [|discriminate].
    assert (Hhead : forall k b,
               nth_error (leb p (random n) :: []) k = Some b -> k = 0%nat) by
      (intros [|[|k]] b Hb; [reflexivity|discriminate|discriminate]).
    destruct (leb p (random n)) eqn:Ed;
      destruct (IH _ _ _ _ H) as (Hn & flags & Hlen & Hkept & Hflags);
      (split; [cbn [length]; lia|]).
    + exists (true :: flags). split; [cbn [length]; lia|].
      split; [cbn [map snd]; rewrite masked_cons, Hkept, <- app_assoc;
              reflexivity|].
      intros [|k] b Hb.
      * inversion Hb; subst. exists x, line, p.
        rewrite Nat.add_0_r. auto.
      * destruct (Hflags k b Hb) as (x' & line' & p' & H1 & H2 & H3).
        exists x', line', p'. cbn [nth_error].
        replace (n + S k)%nat with (S n + k)%nat by lia. auto.
    + exists (false :: flags). split; [cbn [length]; lia|].
      split; [cbn [map snd]; rewrite masked_cons; exact Hkept|].
      intros [|k] b Hb.
      * inversion Hb; subst. exists x, line, p.
        rewrite Nat.add_0_r. auto.
      * destruct (Hflags k b Hb) as (x' & line' & p' & H1 & H2 & H3).
        exists x', line', p'. cbn [nth_error].
        replace (n + S k)%nat with (S n + k)%nat by lia. auto.
Qed.

Section FilterFacts.

Variable parse_float : string -> option Q.
Variable random : nat -> Q.
Variable format_float : string -> Q -> string.
Variable dirname : string -> string.
Variable path_join : string -> string -> string.

(** A run that returned parsed every data line, found a non-zero maximum
    and went through the filtering loop. *)
Lemma process_mapping_file_inv (input_file : string) (lines : list string)
      (control_points : list (Q * Q)) (master_name : string) (n : nat)
      (w : written) (n' : nat) :
  process_mapping_file parse_float random format_float dirname path_join
                       input_file lines control_points master_name n
  = Done (w, n') ->
  exists parsed kept,
    parse_loop parse_float (tl lines) [] = Done parsed
    /\ map snd parsed = tl lines
    /\ parsed <> []
    /\ filter_loop random control_points (amax (map fst parsed)) parsed n []
       = Done (kept, n')
    /\ content w = (py_str (length kept) ++ newline)%string :: kept.
Proof.
  unfold process_mapping_file.
  destruct (parse_loop parse_float (tl lines) []) as [parsed|] eqn:Ep;
    [|discriminate].
  destruct (parse_loop_lines _ _ _ _ Ep) as (new & E & Hsnd).
  cbn [app] in E. subst new.
  destruct parsed as [|a parsed]; [discriminate|].
  cbn [map py_max]. cbn [map] in Hsnd.
  destruct (filter_loop _ _ _ _ _ _) as [[kept m]|] eqn:Ef; [|discriminate].
  intros H. inversion H; subst. cbn [content].
  exists (a :: parsed), kept. repeat split; auto. discriminate.
Qed.

End FilterFacts.

(** The parsing loop reads the abscissa of each line from its first
    field. *)
Lemma parse_loop_abscissae (parse_float : string -> option Q)
      (data_lines : list string) :
  forall parsed parsed',
    parse_loop parse_float data_lines parsed = Done parsed' ->
    exists new,
      parsed' = parsed ++ new
      /\ Forall2 (fun line x =>
                    exists s rest,
                      split line = s :: rest /\ parse_float s = Some x)
                 data_lines (map fst new).
Proof.
  induction data_lines as [|line rest IH]; intros parsed parsed' H.
  - cbn [parse_loop] in H. inversion H; subst. exists [].
    split; [now rewrite app_nil_r|constructor].
  - cbn [parse_loop] in H. unfold getitem in H.
    destruct (split line) as [|s fields] eqn:Es; cbn [nth_error] in H;
      [discriminate|].
    destruct (parse_float s) as [x|] eqn:Ex; [|discriminate].
    destruct (IH _ _ H) as (new & -> & Hnew).
    exists ((x, line) :: new). split; [now rewrite <- app_assoc|].
    cbn [map fst]. constructor; [eauto|exact Hnew].
Qed.

(** A filtering loop that returned on at least one line divided by a
    non-zero maximum. *)
Lemma filter_loop_divisor (random : nat -> Q) (control_points : list (Q * Q))
      (x_max : Q) (parsed : list (Q * string)) (n : nat) (acc : list string)
      (r : list string * nat) :
  parsed <> [] ->
  filter_loop random control_points x_max parsed n acc = Done r ->
  ~ x_max == 0.
Proof.
  destruct parsed as [|[x line] rest]; [congruence|]. intros _.
  cbn [filter_loop]. unfold truediv.
  destruct (eqb x_max 0) eqn:E; [discriminate|]. intros _ H.
  unfold eqb in E. apply Qeq_bool_iff in H. congruence.
Qed.

(** X27.  When [process_mapping_file] returns, the file it wrote holds a
    subsequence of the data lines of the input, each kept line unchanged and
    in the original order, under a first line that is the number of lines
    kept.  The input had at least one data line; the abscissa [x] of each
    data line is [float] of its first field, and the largest abscissa
    [x_max] is not zero.  Exactly one random value was drawn per data line,
    in the order of the lines, and line [k] is kept exactly when the value
    drawn for it is at least the probability that [interpolate_probability]
    returns at [x / x_max] for the control points. *)
Theorem filtered_file_is_subsequence
        (parse_float : string -> option Q) (random : nat -> Q)
        (format_float : string -> Q -> string)
        (dirname : string -> string) (path_join : string -> string -> string)
        (input_file : string) (lines : list string)
        (control_points : list (Q * Q)) (master_name : string) (n : nat)
        (w : written) (n' : nat) :
  process_mapping_file parse_float random format_float dirname path_join
                       input_file lines control_points master_name n
  = Done (w, n') ->
  tl lines <> []
  /\ n' = (n + length (tl lines))%nat
  /\ exists xs flags,
       Forall2 (fun line x =>
                  exists s rest,
                    split line = s :: rest /\ parse_float s = Some x)
               (tl lines) xs
       /\ ~ amax xs == 0
       /\ length flags = length (tl lines)
       /\ content w
          = (py_str (length (masked (tl lines) flags)) ++ newline)%string
              :: masked (tl lines) flags
       /\ forall k b, nth_error flags k = Some b ->
            exists x p,
              nth_error xs k = Some x
              /\ interpolate_probability (x / amax xs) control_points = Done p
              /\ b = leb p (random (n + k)%nat).
Proof.
  intros H.
  destruct (process_mapping_file_inv _ _ _ _ _ _ _ _ _ _ _ _ H)
    as (parsed & kept & Hparse & Hsnd & Hne & Hfilter & Hcontent).
  destruct (filter_loop_mask _ _ _ _ _ _ _ _ Hfilter)
    as (Hn & flags & Hlen & Hkept & Hflags).
  destruct (parse_loop_abscissae _ _ _ _ Hparse) as (new & Enew & Hxs).
  cbn [app] in Enew. subst new.
  cbn [app] in Hkept. rewrite Hsnd in Hkept.
  assert (Hl : length parsed = length (tl lines))
    by (rewrite <- Hsnd; now rewrite length_map).
  split.
  { rewrite <- Hsnd. destruct parsed; [congruence|discriminate]. }
  split; [lia|].
  exists (map fst parsed), flags. split; [exact Hxs|].
  split; [exact (filter_loop_divisor _ _ _ _ _ _ _ Hne Hfilter)|].
  split; [lia|]. split; [now rewrite Hcontent, Hkept|].
  intros k b Hb. destruct (Hflags k b Hb) as (x & line & p & Hk & Hi & Hp).
  exists x, p. split; [|split; [exact Hi|exact Hp]].
  rewrite nth_error_map, Hk. reflexivity.
Qed.





Lemma filtered_file_is_subsequence_witness :
  exists w n',
    process_mapping_file Lib.float_of_decimal (fun _ => 1 # 2) Lib.format_fixed
                         (fun s => s) String.append
                         "in" [ "2"; "1 0 0"; "2 0 0" ] [ (0, 0); (1, 1) ]
                         "T" 0
    = Done (w, n')
    /\ n' = 2%nat
    /\ exists xs flags,
         Forall2 (fun line x =>
                    exists s rest,
                      split line = s :: rest
                      /\ Lib.float_of_decimal s = Some x)
                 [ "1 0 0"; "2 0 0" ] xs
         /\ length flags = 2%nat
         /\ content w
            = (py_str (length (masked [ "1 0 0"; "2 0 0" ] flags)) ++ newline)%string
                :: masked [ "1 0 0"; "2 0 0" ] flags.
Proof.
  assert (E : exists w n',
             process_mapping_file Lib.float_of_decimal (fun _ => 1 # 2)
                                  Lib.format_fixed (fun s => s) String.append
                                  "in" [ "2"; "1 0 0"; "2 0 0" ]
                                  [ (0, 0); (1, 1) ] "T" 0
             = Done (w, n'))
    by (do 2 eexists; vm_compute; reflexivity).
  destruct E as (w & n' & E).
  destruct (filtered_file_is_subsequence _ _ _ _ _ _ _ _ _ _ _ _ E)
    as (_ & Hn & xs & flags & Hxs & _ & Hlen & Hcontent & _).
  exists w, n'. split; [exact E|]. split; [exact Hn|].
  exists xs, flags. split; [exact Hxs|]. split; [exact Hlen | exact Hcontent].
Defined.


(** ** The K-z script (script 4) *)

(** A loop that converts each item and appends the result. *)
Lemma collect_loop {A B : Type} (f : A -> result B) (l : list A) :
  forall acc,
    match for_each l (fun acc a => bind (f a) (fun b => Ok (acc ++ [b]))) acc with
    | Ok r => exists bs, r = acc ++ bs /\ Forall2 (fun a b => f a = Ok b) l bs
    | Raise e => exists a, In a l /\ f a = Raise e
    end.
Proof.
  induction l as [|a l IH]; intros acc; cbn [for_each].
  - exists []. split; [now rewrite app_nil_r|constructor].
  - destruct (f a) as [b|e] eqn:E; cbn [bind].
    + specialize (IH (acc ++ [b])).
      destruct (for_each l _ (acc ++ [b])) as [r|e].
      * destruct IH as (bs & -> & Hbs). exists (b :: bs).
        split; [now rewrite <- app_assoc|]. now constructor.
      * destruct IH as (a' & Hin & Ha). exists a'. split; [now right|exact Ha].
    + exists a. split; [now left|exact E].
Qed.

Lemma collect_loop_run {A B : Type} (f : A -> result B) (l : list A) (bs : list B) :
  Forall2 (fun a b => f a = Ok b) l bs ->
  forall acc,
    for_each l (fun acc a => bind (f a) (fun b => Ok (acc ++ [b]))) acc
    = Ok (acc ++ bs).
Proof.
  induction 1 as [|a b l bs Hab _ IH]; intros acc; cbn [for_each].
  - now rewrite app_nil_r.
  - rewrite Hab. cbn [bind]. rewrite IH. now rewrite <- app_assoc.
Qed.

Lemma lstrip_head (s : string) :
  B_2.lstrip s = EmptyString
  \/ exists c r, B_2.lstrip s = String c r /\ isspace c = false.
Proof.
  induction s as [|c s IH]; [now left|].
  cbn [B_2.lstrip]. destruct (isspace c) eqn:E; [exact IH|].
  right. exists c, s. auto.
Qed.

Lemma strip_head (s : string) :
  B_2.strip s <> EmptyString ->
  exists c r, B_2.strip s = String c r /\ isspace c = false.
Proof.
  unfold B_2.strip. destruct (lstrip_head s) as [->|(c & r & -> & Hc)];
    [intros H; now elim H|].
  intros _. cbn [B_2.rstrip]. rewrite Hc.
  destruct (B_2.rstrip r); eexists; eexists; split; try reflexivity; exact Hc.
Qed.

Lemma split_from_nonempty (s : string) :
  forall tok, tok <> EmptyString -> split_from s tok <> [].
Proof.
  induction s as [|c s IH]; intros tok Htok; cbn [split_from].
  - rewrite (length_nonempty tok Htok). discriminate.
  - destruct (isspace c).
    + rewrite (length_nonempty tok Htok). discriminate.
    + apply IH. destruct tok; discriminate.
Qed.

Lemma split_strip_nonempty (s : string) :
  B_2.strip s <> EmptyString -> split (B_2.strip s) <> [].
Proof.
  intros H. destruct (strip_head s H) as (c & r & -> & Hc).
  unfold split. cbn [split_from]. rewrite Hc.
  apply split_from_nonempty. discriminate.
Qed.

Lemma kz_data_lines_nonblank (lines : list string) (line : string) :
  In line (kz_data_lines lines) -> split line <> [].
Proof.
  unfold kz_data_lines. intros H. apply in_map_iff in H.
  destruct H as (l & <- & Hl). apply filter_In in Hl. destruct Hl as [_ Hl].
  apply split_strip_nonempty. intros E. rewrite E in Hl. discriminate.
Qed.

Lemma kz_parse_nonempty (parse_float : string -> option Q) (line : string)
      (row : list Q) :
  split line <> [] -> kz_parse parse_float line = Ok row -> row <> [].
Proof.
  intros Hs H. unfold kz_parse in H.
  pose proof (convert_fields parse_float (split line) []) as C.
  rewrite H in C. destruct C as (vs & -> & Hlen). cbn [app].
  destruct vs; [|discriminate].
  destruct (split line); [congruence|discriminate].
Qed.

Lemma kz_value_bounds (x x_min x_max : Q) :
  x_min < x_max -> x_min <= x -> x <= x_max ->
  B_2.K_Z_2 <= kz_value x x_min x_max /\ kz_value x x_min x_max <= B_2.K_Z_1.
Proof.
  intros Hw L U. unfold kz_value, B_2.K_Z_1, B_2.K_Z_2.
  assert (Ht : 0 <= (x - x_min) / (x_max - x_min)
               /\ (x - x_min) / (x_max - x_min) <= 1).
  { split.
    - assert (E : 0 / (x_max - x_min) == 0) by (unfold Qdiv; ring).
      rewrite <- E. apply div_le_compat; lra.
    - assert (E : (x_max - x_min) / (x_max - x_min) == 1) by (field; lra).
      rewrite <- E. apply div_le_compat; lra. }
  destruct Ht as [T0 T1]. set (t := (x - x_min) / (x_max - x_min)) in *.
  split; lra.
Qed.

Section KzFacts.

Variable parse_float : string -> option Q.
Variable round6 : Q -> Q.
Variable str_float : Q -> string.

(** The abscissae of rows that are not empty. *)
Lemma kz_x_values (data : list (list Q)) :
  Forall (fun row => row <> []) data ->
  Forall2 (fun row x => getitem row 0 = Ok x) data (map (hd 0) data).
Proof.
  induction 1 as [|row data Hrow _ IH]; cbn [map]; constructor; [|exact IH].
  destruct row; [congruence|reflexivity].
Qed.

Lemma kz_rows (x_min x_max : Q) (data : list (list Q)) :
  Forall (fun row => row <> []) data ->
  Forall2 (fun row row' =>
             bind (getitem row 0)
                  (fun x => B_2.set_last row
                              (round6 (B_2.K_Z_1 + (B_2.K_Z_2 - B_2.K_Z_1)
                                                   * ((x - x_min) / (x_max - x_min)))))
             = Ok row')
          data (map (kz_row round6 x_min x_max) data).
Proof.
  induction 1 as [|row data Hrow _ IH]; cbn [map]; constructor; [|exact IH].
  destruct row as [|x row]; [congruence|reflexivity].
Qed.

(** The script after its first statement, on parsed rows that are not
    empty. *)
Lemma script_on_rows (l0 : string) (rest : list string) (data : list (list Q)) :
  Forall2 (fun line row => kz_parse parse_float line = Ok row)
          (kz_data_lines (l0 :: rest)) data ->
  Forall (fun row => row <> []) data ->
  B_2.script parse_float round6 str_float (l0 :: rest)
  = bind (B_2.py_min (map (hd 0) data)) (fun x_min =>
    bind (B_2.py_max (map (hd 0) data)) (fun x_max =>
    if eqb x_max x_min
    then Raise (ValueError "All X values are identical. Cannot interpolate.")
    else Ok ((B_2.strip l0 ++ newline)%string
               :: map (fun row =>
                         (String.concat tab
                            (map str_float (kz_row round6 x_min x_max row))
                            ++ newline)%string)
                      data))).
Proof.
  intros Hparse Hne. unfold B_2.script.
  change (getitem (l0 :: rest) 0) with (Ok l0). cbn [bind].
  fold (kz_data_lines (l0 :: rest)).
  pose proof (collect_loop_run (kz_parse parse_float) _ _ Hparse []) as E1.
  cbn [app] in E1. unfold kz_parse in E1 at 1. rewrite E1. cbn [bind].
  pose proof (collect_loop_run (fun row => getitem row 0) _ _
                (kz_x_values data Hne) []) as E2.
  cbn [app] in E2. rewrite E2. cbn [bind].
  destruct (B_2.py_min (map (hd 0) data)) as [x_min|]; cbn [bind];
    [|reflexivity].
  destruct (B_2.py_max (map (hd 0) data)) as [x_max|]; cbn [bind];
    [|reflexivity].
  destruct (eqb x_max x_min); [reflexivity|].
  pose proof (collect_loop_run _ _ _ (kz_rows x_min x_max data Hne) []) as E3.
  cbn [app] in E3.
  rewrite (for_each_ext _
             (fun acc a =>
                bind (bind (getitem a 0)
                           (fun x => B_2.set_last a
                                       (round6 (B_2.K_Z_1 + (B_2.K_Z_2 - B_2.K_Z_1)
                                                  * ((x - x_min) / (x_max - x_min))))))
                     (fun b => Ok (acc ++ [b])))).
  - rewrite E3. cbn [bind]. now rewrite map_map.
  - intros acc row. destruct (getitem row 0); reflexivity.
Qed.

(** Every run parses the data lines first. *)
Lemma script_parses (l0 : string) (rest : list string) :
  match for_each (kz_data_lines (l0 :: rest))
                 (fun data line =>
                    bind (kz_parse parse_float line)
                         (fun row => Ok (data ++ [row]))) [] with
  | Ok data =>
      Forall2 (fun line row => kz_parse parse_float line = Ok row)
              (kz_data_lines (l0 :: rest)) data
      /\ Forall (fun row => row <> []) data
  | Raise e =>
      B_2.script parse_float round6 str_float (l0 :: rest) = Raise e
  end.
Proof.
  pose proof (collect_loop (kz_parse parse_float) (kz_data_lines (l0 :: rest)) [])
    as C.
  destruct (for_each _ _ []) as [data|e] eqn:E.
  - destruct C as (bs & -> & Hbs). cbn [app]. split; [exact Hbs|].
    clear E. pose proof (kz_data_lines_nonblank (l0 :: rest)) as Hnb.
    induction Hbs as [|line row ls rs Hrow _ IH]; constructor.
    + apply (kz_parse_nonempty parse_float line); [|exact Hrow].
      apply Hnb. now left.
    + apply IH. intros l Hl. apply Hnb. now right.
  - unfold B_2.script. change (getitem (l0 :: rest) 0) with (Ok l0).
    cbn [bind]. fold (kz_data_lines (l0 :: rest)).
    unfold kz_parse in E. rewrite E. reflexivity.
Qed.

End KzFacts.

Lemma length_kz_row (round6 : Q -> Q) (x_min x_max : Q) (row : list Q) :
  row <> [] -> length (kz_row round6 x_min x_max row) = length row.
Proof.
  intros H. unfold kz_row. rewrite length_app. cbn [length].
  rewrite (app_removelast_last 0 H) at 2. rewrite length_app. reflexivity.
Qed.

(** X29.  When the K-z script completes, the file it writes has the
    stripped first line of the input as its first line and one row per
    non-blank data line, in order; each row has as many fields as the line
    it comes from, all but the last being the parsed fields of that line,
    and the last being the rounded value of the ramp, which before rounding
    lies between [K_Z_2] and [K_Z_1], is [K_Z_1] on the rows of smallest x
    and [K_Z_2] on the rows of largest x. *)
Theorem kz_update_rows
        (parse_float : string -> option Q) (round6 : Q -> Q)
        (str_float : Q -> string) (lines out : list string) :
  B_2.script parse_float round6 str_float lines = Ok out ->
  exists l0 data x_min x_max,
    hd_error lines = Some l0
    /\ Forall2 (fun line row => kz_parse parse_float line = Ok row)
               (kz_data_lines lines) data
    /\ data <> []
    /\ x_min = amin (map (hd 0) data) /\ x_max = amax (map (hd 0) data)
    /\ x_min < x_max
    /\ out = (B_2.strip l0 ++ newline)%string
               :: map (fun row =>
                         (String.concat tab
                            (map str_float (kz_row round6 x_min x_max row))
                            ++ newline)%string)
                      data
    /\ length out = S (length (kz_data_lines lines))
    /\ forall row, In row data ->
         length (kz_row round6 x_min x_max row) = length row
         /\ B_2.K_Z_2 <= kz_value (hd 0 row) x_min x_max
         /\ kz_value (hd 0 row) x_min x_max <= B_2.K_Z_1
         /\ (hd 0 row == x_min -> kz_value (hd 0 row) x_min x_max == B_2.K_Z_1)
         /\ (hd 0 row == x_max -> kz_value (hd 0 row) x_min x_max == B_2.K_Z_2).
Proof.
  destruct lines as [|l0 rest]; [discriminate|].
  pose proof (script_parses parse_float round6 str_float l0 rest) as P.
  destruct (for_each _ _ []) as [data|e]; [|rewrite P; discriminate].
  destruct P as [Hparse Hne].
  rewrite (script_on_rows parse_float round6 str_float l0 rest data Hparse Hne).
  destruct data as [|row0 data].
  { cbn [map B_2.py_min bind]. discriminate. }
  set (xs := map (hd 0) (row0 :: data)).
  assert (Hxs : xs <> []) by discriminate.
  change (B_2.py_min xs) with (Ok (amin xs)).
  change (B_2.py_max xs) with (Ok (amax xs)). cbn [bind].
  destruct (eqb (amax xs) (amin xs)) eqn:E; [discriminate|].
  intros <-%Ok_inj.
  destruct (amin_spec xs Hxs) as [Lx Ix]. destruct (amax_spec xs Hxs) as [Ux Jx].
  assert (Hw : amin xs < amax xs).
  { pose proof (Lx _ Jx) as Hle.
    destruct (Qlt_le_dec (amin xs) (amax xs)) as [L|L]; [exact L|].
    exfalso. unfold eqb in E.
    assert (Heq : amax xs == amin xs) by lra.
    apply Qeq_bool_iff in Heq. congruence. }
  exists l0, (row0 :: data), (amin xs), (amax xs).
  split; [reflexivity|]. split; [exact Hparse|]. split; [discriminate|].
  split; [reflexivity|]. split; [reflexivity|]. split; [exact Hw|].
  split; [reflexivity|]. split.
  { cbn [length]. rewrite length_map.
    now rewrite (Forall2_length Hparse). }
  intros row Hrow.
  assert (Hin : In (hd 0 row) xs) by (unfold xs; now apply in_map).
  rewrite Forall_forall in Hne.
  split; [apply length_kz_row, Hne, Hrow|].
  destruct (kz_value_bounds (hd 0 row) _ _ Hw (Lx _ Hin) (Ux _ Hin)) as [B1 B2].
  split; [exact B1|]. split; [exact B2|]. split.
  - intros H. unfold kz_value. rewrite H. unfold Qdiv. ring.
  - intros H. unfold kz_value. rewrite H. unfold B_2.K_Z_1, B_2.K_Z_2.
    field. lra.
Qed.

Lemma kz_update_rows_witness :
  exists out l0 (data : list (list Q)),
    B_2.script Lib.float_of_decimal Lib.round6 Lib.str_float
               [ "2 "; "0 7 1"; ""; " 2 7 1" ] = Ok out
    /\ hd_error [ "2 "; "0 7 1"; ""; " 2 7 1" ] = Some l0
    /\ length out = S (length (kz_data_lines [ "2 "; "0 7 1"; ""; " 2 7 1" ]))
    /\ data <> [].
Proof.
  assert (E : exists out,
             B_2.script Lib.float_of_decimal Lib.round6 Lib.str_float
                        [ "2 "; "0 7 1"; ""; " 2 7 1" ] = Ok out)
    by (eexists; vm_compute; reflexivity).
  destruct E as [out E].
  destruct (kz_update_rows _ _ _ _ _ E)
    as (l0 & data & x_min & x_max & H0 & _ & Hd & _ & _ & _ & _ & Hlen & _).
  exists out, l0, data. auto.
Defined.

